(** * protmodel: the amino-acid feature table builder

    A shallow embedding of [protmodel/aafeatures.py]: the helper
    [_res_to_feature_helper], which parses a text table of
    residue -> numbers rows, adds the synonym and ambiguity codes,
    optionally renormalises every row, and adds the missing-data entry;
    and the two presets [JTTP01dist] and [AANDXred] built from it.

    Python values are modelled as follows.
    - [str]: a [string] whose characters are the code points 0..255.
    - [numpy.float32] / Python [float]: IEEE-754 binary32 / binary64 values
      of the standard library's [SpecFloat], rounding to nearest even.
    - a one-dimensional [numpy.ndarray] of float32: a [list] of such values.
    - objects: arrays live in a store and the dictionary maps a key to the
      address of its array, so that two keys can share one array.
    - exceptions: an error result, see [exn].

    Rounding errors are stated on the real number a float stands for,
    with the real numbers of the standard library. *)

From Stdlib Require Import ZArith String Ascii List Bool Lia Permutation.
From Stdlib Require Import Floats.SpecFloat.
From Stdlib Require Import Reals Lra.
Import ListNotations.

Local Open Scope string_scope.
Local Open Scope list_scope.
Local Open Scope nat_scope.

(** ** Floating-point numbers *)

Module F.

Definition float : Type := spec_float.

(** Python [float] is binary64; [FLOATTYPE = np.float32] is binary32. *)
Definition prec64 : Z := 53.
Definition emax64 : Z := 1024.
Definition prec32 : Z := 24.
Definition emax32 : Z := 128.

Definition pzero : float := S754_zero false.
Definition nzero : float := S754_zero true.
Definition nan : float := S754_nan.

(** Python [int] to Python [float]. *)
Definition f64_of_Z (n : Z) : float := binary_normalize prec64 emax64 n 0 false.
Definition f64_div : float -> float -> float := SFdiv prec64 emax64.

(** The value [m * 10^e] as the nearest binary64 number, which is what
    [float(str)] returns for a decimal literal. *)
Definition f64_of_decimal (neg : bool) (m e : Z) : float :=
  match m with
  | Zpos p =>
      match e with
      | Zneg q => f64_div (S754_finite neg p 0)
                          (S754_finite false (Pos.pow 10 q) 0)
      | _ => binary_round prec64 emax64 neg (Z.to_pos (m * 10 ^ e)) 0
      end
  | _ => S754_zero neg
  end.

(** The cast binary64 -> binary32 done by [np.asarray(..., dtype=FLOATTYPE)]
    and [np.full(..., dtype=FLOATTYPE)]. *)
Definition f32_of_f64 (x : float) : float :=
  match x with
  | S754_finite s m e => binary_round prec32 emax32 s m e
  | _ => x
  end.

Definition add : float -> float -> float := SFadd prec32 emax32.
Definition div : float -> float -> float := SFdiv prec32 emax32.
Definition of_Z (n : Z) : float := binary_normalize prec32 emax32 n 0 false.

Definition one : float := Eval cbv in of_Z 1.
Definition two : float := Eval cbv in of_Z 2.

Definition is_zero (x : float) : bool :=
  match x with S754_zero _ => true | _ => false end.
Definition is_nan (x : float) : bool :=
  match x with S754_nan => true | _ => false end.
Definition is_inf (x : float) : bool :=
  match x with S754_infinity _ => true | _ => false end.
Definition is_finite (x : float) : bool :=
  match x with S754_zero _ | S754_finite _ _ _ => true | _ => false end.

(** [| x - 1 | <= 10^-5], decided exactly on the value of [x]. *)
Definition close_to_one (x : float) : bool :=
  match x with
  | S754_finite false m e =>
      match e with
      | Zneg q => let d := Zpos (Pos.pow 2 q) in
                  (100000 * Z.abs (Zpos m - d) <=? d)%Z
      | _ => (Zpos m * 2 ^ e =? 1)%Z
      end
  | _ => false
  end.

End F.

(** ** numpy arrays *)

Module Np.

Definition ndarray : Type := list F.float.

(** [np.full(n, x, dtype=FLOATTYPE)] for a value already cast. *)
Definition full (n : nat) (x : F.float) : ndarray := repeat x n.

Definition sum_seq (acc : F.float) (a : ndarray) : F.float :=
  fold_left F.add a acc.

(** One block of numpy's pairwise summation: eight running sums over
    the leading multiple of eight, combined as a balanced tree, then the
    remaining elements one after the other. *)
Fixpoint sum8 (r : list F.float) (a : ndarray) (k : nat) {struct k}
    : list F.float * ndarray :=
  match k with
  | 0 => (r, a)
  | S k' =>
      match r, a with
      | [r0; r1; r2; r3; r4; r5; r6; r7],
        a0 :: a1 :: a2 :: a3 :: a4 :: a5 :: a6 :: a7 :: a' =>
          sum8 [F.add r0 a0; F.add r1 a1; F.add r2 a2; F.add r3 a3;
                F.add r4 a4; F.add r5 a5; F.add r6 a6; F.add r7 a7] a' k'
      | _, _ => (r, a)
      end
  end.

Definition sum_block (a : ndarray) : F.float :=
  let '(r, rest) := sum8 (firstn 8 a) (skipn 8 a) (length a / 8 - 1) in
  match r with
  | [r0; r1; r2; r3; r4; r5; r6; r7] =>
      sum_seq (F.add (F.add (F.add r0 r1) (F.add r2 r3))
                     (F.add (F.add r4 r5) (F.add r6 r7))) rest
  | _ => sum_seq F.nzero a
  end.

(** The recursion of the pairwise summation; it halves the vector, so a
    [fuel] of its length is more than it ever uses. *)
Fixpoint pairwise_sum (fuel : nat) (a : ndarray) : F.float :=
  let n := length a in
  if n <? 8 then sum_seq F.nzero a
  else if n <=? 128 then sum_block a
  else match fuel with
       | 0 => sum_block a
       | S fuel' =>
           let n2 := n / 2 - (n / 2) mod 8 in
           F.add (pairwise_sum fuel' (firstn n2 a))
                 (pairwise_sum fuel' (skipn n2 a))
       end.

(** [a.sum()]: the add-reduction of a contiguous float32 vector, in
    float32 throughout, in the order of numpy's pairwise summation: fewer
    than 8 elements one after the other, up to 128 in one block, more by
    halving.  A running sum starts from [-0.0]; the empty sum is the
    identity [+0.0]. *)
Definition sum (a : ndarray) : F.float :=
  match a with
  | [] => F.pzero
  | _ => pairwise_sum (length a) a
  end.

(** [a / s] for a float32 scalar [s]. *)
Definition div_scalar (a : ndarray) (s : F.float) : ndarray :=
  map (fun x => F.div x s) a.

(** [np.mean([a, b], axis=0)] for two vectors of one length: the two rows
    are added and the sum is divided by the row count. *)
Fixpoint mean2 (a b : ndarray) : ndarray :=
  match a, b with
  | x :: a', y :: b' => F.div (F.add x y) F.two :: mean2 a' b'
  | _, _ => []
  end.

End Np.

(** ** Text: lines, tokens and number literals *)

Module Text.

(** [str.isspace] on the code points below 256. *)
Definition is_space (c : ascii) : bool :=
  let n := nat_of_ascii c in
  ((9 <=? n) && (n <=? 13)) || ((28 <=? n) && (n <=? 32))
  || (n =? 133) || (n =? 160).

Definition newline : ascii := ascii_of_nat 10.

(** Iterating over [io.StringIO(s)]: the lines of [s], each with its
    terminating newline; a last line without one is kept as it is. *)
Fixpoint readlines (s : string) : list string :=
  match s with
  | EmptyString => []
  | String c s' =>
      if Ascii.eqb c newline then String c EmptyString :: readlines s'
      else match readlines s' with
           | [] => [String c EmptyString]
           | l :: ls => String c l :: ls
           end
  end.

(** [str.split()] with no argument: the maximal runs of characters that
    are not whitespace. *)
Fixpoint split (s : string) : list string :=
  match s with
  | EmptyString => []
  | String c s' =>
      if is_space c then split s'
      else match s' with
           | EmptyString => [String c EmptyString]
           | String c' _ =>
               if is_space c' then String c EmptyString :: split s'
               else match split s' with
                    | [] => [String c EmptyString]
                    | t :: ts => String c t :: ts
                    end
           end
  end.

Fixpoint all_space (s : string) : bool :=
  match s with
  | EmptyString => true
  | String c s' => is_space c && all_space s'
  end.

Definition digit_of (c : ascii) : option Z :=
  let n := nat_of_ascii c in
  if (48 <=? n) && (n <=? 57) then Some (Z.of_nat (n - 48)) else None.

Definition is_digit (c : ascii) : bool :=
  match digit_of c with Some _ => true | None => false end.

(** Underscores in a number literal: allowed only between two digits;
    they are removed before the literal is read. *)
Fixpoint strip_underscores (prev : ascii) (s : string) : option string :=
  match s with
  | EmptyString => if Ascii.eqb prev "_" then None else Some EmptyString
  | String c s' =>
      if Ascii.eqb c "_" then
        if is_digit prev then strip_underscores c s' else None
      else if Ascii.eqb prev "_" && negb (is_digit c) then None
      else option_map (String c) (strip_underscores c s')
  end.

Definition lower (c : ascii) : ascii :=
  let n := nat_of_ascii c in
  if (65 <=? n) && (n <=? 90) then ascii_of_nat (n + 32) else c.

Fixpoint lowercase (s : string) : string :=
  match s with
  | EmptyString => EmptyString
  | String c s' => String (lower c) (lowercase s')
  end.

Definition sign (s : string) : bool * string :=
  match s with
  | String "-" s' => (true, s')
  | String "+" s' => (false, s')
  | _ => (false, s)
  end.

(** The leading digits of [s]: their value on top of [acc], how many
    there are on top of [k], and what follows them. *)
Fixpoint digits (s : string) (acc : Z) (k : nat) : Z * nat * string :=
  match s with
  | EmptyString => (acc, k, s)
  | String c s' =>
      match digit_of c with
      | Some d => digits s' (10 * acc + d)%Z (S k)
      | None => (acc, k, s)
      end
  end.

(** A decimal literal [digits [. digits] [(e|E) [sign] digits]] with at
    least one digit in the mantissa, as [(m, e)] standing for
    [m * 10^e]. *)
Definition decimal (s : string) : option (Z * Z) :=
  let '(m1, k1, r1) := digits s 0%Z 0 in
  let '(m, k2, r2) :=
    match r1 with
    | String "." r => digits r m1 0
    | _ => (m1, 0, r1)
    end in
  if k1 + k2 =? 0 then None
  else match r2 with
       | EmptyString => Some (m, (- Z.of_nat k2)%Z)
       | String c r3 =>
           if Ascii.eqb (lower c) "e" then
             let '(neg, r4) := sign r3 in
             let '(x, kx, r5) := digits r4 0%Z 0 in
             match kx, r5 with
             | S _, EmptyString =>
                 Some (m, ((if neg then - x else x) - Z.of_nat k2)%Z)
             | _, _ => None
             end
           else None
       end.

(** Python's [float(tok)] on a token without whitespace: an optional
    sign, then [inf], [infinity] or [nan] in any case, or a decimal
    literal, rounded to the nearest binary64 number.  [None] stands for
    the [ValueError] it raises. *)
Definition py_float (tok : string) : option F.float :=
  match strip_underscores zero tok with
  | None => None
  | Some s =>
      let '(neg, body) := sign s in
      let low := lowercase body in
      if String.eqb low "inf" || String.eqb low "infinity"
      then Some (S754_infinity neg)
      else if String.eqb low "nan" then Some F.nan
      else match decimal body with
           | Some (m, e) => Some (F.f64_of_decimal neg m e)
           | None => None
           end
  end.

End Text.

(** ** Exceptions *)

Inductive exn : Type :=
| IndexError                  (* [linearr[0]] on an empty token list *)
| ValueError (what : string)  (* [float(x)] on a malformed token; rows of
                                 different lengths given to [np.mean] *)
| KeyError (key : string)     (* [aa_to_aadist[key]] on an absent key *)
| ZeroDivisionError.          (* [1.0/feature_count] with no feature *)

Inductive result (A : Type) : Type :=
| Ok (a : A)
| Raise (e : exn).

Arguments Ok {A} a.
Arguments Raise {A} e.

Definition bind {A B : Type} (r : result A) (k : A -> result B) : result B :=
  match r with
  | Ok a => k a
  | Raise e => Raise e
  end.

Notation "x <- r ;; k" := (bind r (fun x => k))
  (at level 61, r at next level, right associativity).

(** ** The dictionary: keys in insertion order, each with the address of
    its array *)

Module Dict.

Definition t : Type := list (string * nat).

Fixpoint get (k : string) (d : t) : option nat :=
  match d with
  | [] => None
  | (k', a) :: d' => if String.eqb k k' then Some a else get k d'
  end.

(** [d[k] = a]: an existing key keeps its place, a new one goes last. *)
Fixpoint set (k : string) (a : nat) (d : t) : t :=
  match d with
  | [] => [(k, a)]
  | (k', a') :: d' =>
      if String.eqb k k' then (k', a) :: d' else (k', a') :: set k a d'
  end.

Definition keys (d : t) : list string := map fst d.

End Dict.

(** ** The local state of [_res_to_feature_helper] *)

Record env : Type := mkEnv {
  store : list Np.ndarray;       (* the arrays allocated so far *)
  aa_to_aadist : Dict.t;         (* the dictionary being built *)
  feature_count : nat
}.

Definition deref (st : env) (a : nat) : Np.ndarray := nth a (store st) [].

(** [aa_to_aadist[k]] as an expression: the address of the array. *)
Definition getitem (st : env) (k : string) : result nat :=
  match Dict.get k (aa_to_aadist st) with
  | Some a => Ok a
  | None => Raise (KeyError k)
  end.

(** [aa_to_aadist[k] = <the array at a>]: no array is created. *)
Definition setitem (k : string) (a : nat) (st : env) : env :=
  mkEnv (store st) (Dict.set k a (aa_to_aadist st)) (feature_count st).

(** [aa_to_aadist[k] = <a fresh array holding v>]. *)
Definition setnew (k : string) (v : Np.ndarray) (st : env) : env :=
  mkEnv (store st ++ [v]) (Dict.set k (length (store st)) (aa_to_aadist st))
        (feature_count st).

(** [feature_count = n] *)
Definition set_feature_count (n : nat) (st : env) : env :=
  mkEnv (store st) (aa_to_aadist st) n.

(** What a reader of the table sees under [k]. *)
Definition lookup (st : env) (k : string) : option Np.ndarray :=
  match Dict.get k (aa_to_aadist st) with
  | Some a => Some (deref st a)
  | None => None
  end.

(** [st[k1] is st[k2]]: both keys hold the same array object. *)
Definition aliased (st : env) (k1 k2 : string) : Prop :=
  exists a, Dict.get k1 (aa_to_aadist st) = Some a
         /\ Dict.get k2 (aa_to_aadist st) = Some a.

(** An in-place write [st[k][i] = x] by a user of the table. *)
Fixpoint update_nth {A : Type} (i : nat) (f : A -> A) (l : list A) : list A :=
  match l, i with
  | [], _ => []
  | x :: l', 0 => f x :: l'
  | x :: l', S i' => x :: update_nth i' f l'
  end.

Definition write_item (st : env) (k : string) (i : nat) (x : F.float) : env :=
  match Dict.get k (aa_to_aadist st) with
  | Some a =>
      mkEnv (update_nth a (update_nth i (fun _ => x)) (store st))
            (aa_to_aadist st) (feature_count st)
  | None => st
  end.

(** ** The builder *)

Definition MISSINGAA : string := ".".

(** [[ float(x) for x in linearr[1:] ]] cast to [FLOATTYPE]. *)
Fixpoint floats (toks : list string) : result Np.ndarray :=
  match toks with
  | [] => Ok []
  | x :: xs =>
      match Text.py_float x with
      | None => Raise (ValueError x)
      | Some f => v <- floats xs ;; Ok (F.f32_of_f64 f :: v)
      end
  end.

(** The body of the [for line in handle] loop. *)
Definition parse_line (st : env) (line : string) : result env :=
  match line with
  | EmptyString => Raise IndexError
  | String c _ =>
      if Ascii.eqb c "#" then Ok st
      else match Text.split line with
           | [] => Raise IndexError
           | aa :: fields =>
               v <- floats fields ;;
               Ok (set_feature_count (length v) (setnew aa v st))
           end
  end.

Fixpoint parse_lines (st : env) (lines : list string) : result env :=
  match lines with
  | [] => Ok st
  | line :: rest => st' <- parse_line st line ;; parse_lines st' rest
  end.

Definition parse_table (feature_string : string) : result env :=
  parse_lines (mkEnv [] [] 0) (Text.readlines feature_string).

(** selenocysteine (U = C) and pyrrolysine (O = K) *)
Definition add_synonyms (st : env) : result env :=
  c <- getitem st "C" ;;
  let st := setitem "U" c st in
  k <- getitem st "K" ;;
  Ok (setitem "O" k st).

(** [np.mean([a, b], axis=0)]: two rows of different lengths do not make
    a two-dimensional array, and numpy raises [ValueError]. *)
Definition np_mean (a b : Np.ndarray) : result Np.ndarray :=
  if length a =? length b then Ok (Np.mean2 a b)
  else Raise (ValueError "inhomogeneous shape").

(** [aa_to_aadist[k] = np.mean([ aa_to_aadist[k1], aa_to_aadist[k2] ], axis=0)] *)
Definition add_mean (k k1 k2 : string) (st : env) : result env :=
  a <- getitem st k1 ;;
  b <- getitem st k2 ;;
  v <- np_mean (deref st a) (deref st b) ;;
  Ok (setnew k v st).

(** [1.0/feature_count] as a float32 fill value. *)
Definition uniform (n : nat) : F.float :=
  F.f32_of_f64 (F.f64_div (F.f64_of_Z 1) (F.f64_of_Z (Z.of_nat n))).

Definition uniform_value (n : nat) : result F.float :=
  match n with
  | 0 => Raise ZeroDivisionError
  | S _ => Ok (uniform n)
  end.

(** X = any amino-acid, B = D or N, J = I or L, Z = E or Q *)
Definition add_ambiguous (average : bool) (st : env) : result env :=
  x <- (if average then uniform_value (feature_count st) else Ok F.pzero) ;;
  let st := setnew "X" (Np.full (feature_count st) x) st in
  st <- add_mean "B" "D" "N" st ;;
  st <- add_mean "J" "I" "L" st ;;
  add_mean "Z" "E" "Q" st.

(** [a / a.sum()] *)
Definition normalized (v : Np.ndarray) : Np.ndarray :=
  Np.div_scalar v (Np.sum v).

(** [for aa in aa_to_aadist.keys(): aa_to_aadist[aa] = ... / ....sum()] *)
Fixpoint normalize_keys (ks : list string) (st : env) : result env :=
  match ks with
  | [] => Ok st
  | aa :: ks' =>
      a <- getitem st aa ;;
      normalize_keys ks' (setnew aa (normalized (deref st a)) st)
  end.

Definition renormalize (normalize : bool) (st : env) : result env :=
  if normalize then normalize_keys (Dict.keys (aa_to_aadist st)) st
  else Ok st.

(** the all-zero entry for missing data *)
Definition add_missing (st : env) : env :=
  setnew MISSINGAA (Np.full (feature_count st) F.pzero) st.

(** The table as it is just before the renormalisation step. *)
Definition expanded (feature_string : string) (average : bool) : result env :=
  st <- parse_table feature_string ;;
  st <- add_synonyms st ;;
  add_ambiguous average st.

Definition _res_to_feature_helper
    (feature_string : string) (normalize average : bool) : result env :=
  st <- expanded feature_string average ;;
  st <- renormalize normalize st ;;
  Ok (add_missing st).

(** ** The two presets and their registry *)

Definition JTT_P01_DATA : string := "#
# P(0.01), amino acid exchange data generated from SWISSPROT Release 22.0
# Ref. Jones D.T., Taylor W.R. and Thornton J.M. (1992) CABIOS 8:275-282
# A  R  N  D  C  Q  E  G  H  I  L  K  M  F  P  S  T  W  Y  V
A 0.98754 0.00030 0.00023 0.00042 0.00011 0.00023 0.00065 0.00130 0.00006 0.00020 0.00028 0.00021 0.00013 0.00006 0.00098 0.00257 0.00275 0.00001 0.00003 0.00194
R 0.00044 0.98974 0.00019 0.00008 0.00022 0.00125 0.00018 0.00099 0.00075 0.00012 0.00035 0.00376 0.00010 0.00002 0.00037 0.00069 0.00037 0.00018 0.00006 0.00012
N 0.00042 0.00023 0.98720 0.00269 0.00007 0.00035 0.00036 0.00059 0.00089 0.00025 0.00011 0.00153 0.00007 0.00004 0.00008 0.00342 0.00135 0.00001 0.00022 0.00011
D 0.00062 0.00008 0.00223 0.98954 0.00002 0.00020 0.00470 0.00095 0.00025 0.00006 0.00006 0.00015 0.00004 0.00002 0.00008 0.00041 0.00023 0.00001 0.00015 0.00020
C 0.00043 0.00058 0.00015 0.00005 0.99432 0.00004 0.00003 0.00043 0.00016 0.00009 0.00021 0.00004 0.00007 0.00031 0.00007 0.00152 0.00025 0.00016 0.00067 0.00041
Q 0.00044 0.00159 0.00037 0.00025 0.00002 0.98955 0.00198 0.00019 0.00136 0.00005 0.00066 0.00170 0.00010 0.00002 0.00083 0.00037 0.00030 0.00003 0.00008 0.00013
E 0.00080 0.00015 0.00025 0.00392 0.00001 0.00130 0.99055 0.00087 0.00006 0.00006 0.00009 0.00105 0.00004 0.00002 0.00009 0.00021 0.00019 0.00001 0.00002 0.00029
G 0.00136 0.00070 0.00035 0.00067 0.00012 0.00011 0.00074 0.99350 0.00005 0.00003 0.00006 0.00016 0.00003 0.00002 0.00013 0.00137 0.00020 0.00008 0.00003 0.00031
H 0.00021 0.00168 0.00165 0.00057 0.00014 0.00241 0.00016 0.00017 0.98864 0.00009 0.00051 0.00027 0.00008 0.00016 0.00058 0.00050 0.00027 0.00001 0.00182 0.00008
I 0.00029 0.00011 0.00020 0.00006 0.00003 0.00004 0.00007 0.00004 0.00004 0.98729 0.00209 0.00012 0.00113 0.00035 0.00005 0.00027 0.00142 0.00001 0.00010 0.00627
L 0.00023 0.00019 0.00005 0.00004 0.00005 0.00029 0.00006 0.00005 0.00013 0.00122 0.99330 0.00008 0.00092 0.00099 0.00052 0.00040 0.00015 0.00007 0.00008 0.00118
K 0.00027 0.00331 0.00111 0.00014 0.00001 0.00118 0.00111 0.00020 0.00011 0.00011 0.00013 0.99100 0.00015 0.00002 0.00011 0.00032 0.00060 0.00001 0.00003 0.00009
M 0.00042 0.00023 0.00013 0.00008 0.00006 0.00018 0.00011 0.00011 0.00007 0.00255 0.00354 0.00038 0.98818 0.00017 0.00008 0.00020 0.00131 0.00003 0.00006 0.00212
F 0.00011 0.00003 0.00004 0.00002 0.00015 0.00002 0.00003 0.00004 0.00009 0.00047 0.00227 0.00002 0.00010 0.99360 0.00009 0.00063 0.00007 0.00008 0.00171 0.00041
P 0.00148 0.00038 0.00007 0.00008 0.00003 0.00067 0.00011 0.00018 0.00026 0.00006 0.00093 0.00012 0.00004 0.00007 0.99270 0.00194 0.00069 0.00001 0.00003 0.00015
S 0.00287 0.00052 0.00212 0.00031 0.00044 0.00022 0.00018 0.00146 0.00017 0.00021 0.00054 0.00027 0.00007 0.00037 0.00144 0.98556 0.00276 0.00005 0.00020 0.00025
T 0.00360 0.00033 0.00098 0.00020 0.00008 0.00021 0.00020 0.00024 0.00011 0.00131 0.00024 0.00060 0.00053 0.00005 0.00060 0.00324 0.98665 0.00002 0.00007 0.00074
W 0.00007 0.00065 0.00003 0.00002 0.00023 0.00008 0.00006 0.00040 0.00002 0.00005 0.00048 0.00006 0.00006 0.00021 0.00003 0.00024 0.00007 0.99686 0.00023 0.00017
Y 0.00008 0.00010 0.00030 0.00024 0.00041 0.00010 0.00004 0.00006 0.00130 0.00017 0.00022 0.00005 0.00004 0.00214 0.00005 0.00043 0.00012 0.00010 0.99392 0.00011
V 0.00226 0.00009 0.00007 0.00016 0.00012 0.00008 0.00027 0.00034 0.00003 0.00511 0.00165 0.00008 0.00076 0.00025 0.00012 0.00026 0.00066 0.00004 0.00005 0.98761
".

Definition AANDX_RED_DATA : string := "#
# amino acid properties generated from AAindex file aaindex1 Feb/13/2017
# Ref. Kawashima, S., Pokarowski, P., Pokarowska, M., Kolinski, A.,
#      Katayama, T., and Kanehisa, M.; AAindex: amino acid index
#      database, progress report 2008. Nucleic Acids Res. 36, D202-D205
#      (2008). [PMID:17998252]
#  PC01    PC02    PC03    PC04    PC05    PC06    PC07    PC08    PC09    PC10    PC11
A -0.0086 -0.1348  0.4616 -0.0693  0.1245 -0.0974  0.1758  0.0425  0.2240  0.1468 -0.0912
R  0.1397  0.3740 -0.0290 -0.0032 -0.4022  0.3185  0.1816  0.3274 -0.1455  0.4340 -0.2502
N  0.2467 -0.0020 -0.1151  0.2287 -0.0322 -0.1215 -0.1339 -0.3356 -0.0033 -0.2867 -0.1238
D  0.3026  0.0614 -0.0023  0.0811  0.2997 -0.1711 -0.4602  0.0907 -0.1318  0.0992 -0.0255
C -0.1503 -0.1747 -0.1930  0.4813  0.4372  0.4583  0.1800  0.2741 -0.0785 -0.2256 -0.1828
Q  0.1270  0.2193  0.0536 -0.0103  0.0349  0.1008  0.0496 -0.0220  0.0287 -0.0725  0.4633
E  0.2014  0.2729  0.3149 -0.1269  0.3462 -0.1152 -0.2567  0.2072 -0.1719  0.0386 -0.0749
G  0.2582 -0.5223  0.0341  0.2440 -0.2662 -0.4457  0.2783  0.2544 -0.2370  0.1021  0.0928
H  0.0023  0.2077 -0.1324  0.1457  0.0366 -0.0474  0.2001 -0.5542 -0.2003  0.2052 -0.2896
I -0.3345 -0.1388  0.0757 -0.1287 -0.1306  0.0775 -0.2226  0.0080 -0.2496 -0.1335  0.1711
L -0.2815 -0.0861  0.3156 -0.2161 -0.0557 -0.0854  0.0425 -0.0703  0.1102 -0.2310 -0.4548
K  0.1992  0.3118  0.1614 -0.0439 -0.2640  0.0542  0.2554  0.0503  0.0733 -0.6013  0.1052
M -0.2663  0.1253  0.0926  0.0394  0.2740 -0.0860  0.3623 -0.2100 -0.1066  0.1995  0.4918
F -0.3107  0.0119 -0.1117 -0.0762 -0.0329 -0.1889 -0.0443 -0.1427 -0.0783  0.1215 -0.1622
P  0.2705 -0.2761 -0.4103 -0.7141  0.2161  0.1550  0.2039 -0.0110 -0.0497 -0.0300 -0.0256
S  0.2019 -0.1961  0.0362  0.1371 -0.0814  0.1391 -0.0797 -0.2065  0.3989  0.0274 -0.0091
T  0.0746 -0.1420  0.0049  0.0502 -0.1324  0.2717 -0.2266 -0.1473  0.4486  0.2869  0.1665
W -0.2810  0.2159 -0.3641  0.0102  0.0718 -0.3854  0.0207  0.3707  0.5100  0.0159 -0.0143
Y -0.1292  0.0776 -0.3624  0.0262 -0.2818 -0.1042 -0.2738 -0.0024 -0.1705 -0.1251  0.1127
V -0.2620 -0.2049  0.1697 -0.0551 -0.1616  0.2734 -0.2523  0.0767 -0.1707  0.0286  0.1008
".

Definition JTTP01dist : result env :=
  _res_to_feature_helper JTT_P01_DATA true true.

Definition AANDXred : result env :=
  _res_to_feature_helper AANDX_RED_DATA false false.

Definition AAENCODING_FNS : list (string * result env) :=
  [("AANDXred", AANDXred); ("JTTP01dist", JTTP01dist)].

(** The code tables of the specification. *)

Definition standard_codes : list string :=
  ["A"; "R"; "N"; "D"; "C"; "Q"; "E"; "G"; "H"; "I";
   "L"; "K"; "M"; "F"; "P"; "S"; "T"; "W"; "Y"; "V"].

Definition derived_codes : list string := ["U"; "O"; "X"; "B"; "J"; "Z"].

Definition all_codes : list string :=
  standard_codes ++ derived_codes ++ [MISSINGAA].

(** The residues the expansion reads, in the order it reads them. *)
Definition required_codes : list string :=
  ["C"; "K"; "D"; "N"; "I"; "L"; "E"; "Q"].

Definition absent (st : env) (c : string) : bool :=
  match lookup st c with
  | None => true
  | Some _ => false
  end.

Definition first_missing (st : env) : option string :=
  find (absent st) required_codes.

(** The pairs of rows that are averaged. *)
Definition averaged_pairs : list (string * string) :=
  [("D", "N"); ("I", "L"); ("E", "Q")].

(** The lines the parser skips, and the token lists of the others. *)
Definition is_comment (line : string) : bool :=
  match line with
  | String c _ => Ascii.eqb c "#"
  | EmptyString => false
  end.

Definition rows_of (lines : list string) : list (list string) :=
  map Text.split (filter (fun l => negb (is_comment l)) lines).

Definition rows (feature_string : string) : list (list string) :=
  rows_of (Text.readlines feature_string).

(** Number of numeric fields of a row. *)
Definition width (row : list string) : nat := length (tl row).

(** ** Notions used in the statements *)

(** Every key is distinct and refers to an allocated array. *)
Definition wf (st : env) : Prop :=
  NoDup (Dict.keys (aa_to_aadist st)) /\
  forall k a, Dict.get k (aa_to_aadist st) = Some a -> a < length (store st).

(** The value [np.full] is given for X. *)
Definition x_value (average : bool) (n : nat) (x : F.float) : Prop :=
  if average then uniform_value n = Ok x else x = F.pzero.

(** The state after the expansion, given what it read from the parsed
    state [st0]. *)
Definition expand_with (st0 : env) (c k : nat) (x : F.float)
    (d n i l e q : Np.ndarray) : env :=
  setnew "Z" (Np.mean2 e q)
    (setnew "J" (Np.mean2 i l)
       (setnew "B" (Np.mean2 d n)
          (setnew "X" (Np.full (feature_count st0) x)
             (setitem "O" k (setitem "U" c st0))))).

Record normalized_on (ks : list string) (st st' : env) : Prop := {
  no_wf : wf st';
  no_keys : Dict.keys (aa_to_aadist st') = Dict.keys (aa_to_aadist st);
  no_count : feature_count st' = feature_count st;
  no_store : length (store st) <= length (store st');
  no_done : forall k, In k ks ->
            lookup st' k = option_map normalized (lookup st k);
  no_rest : forall k, ~ In k ks ->
            lookup st' k = lookup st k /\
            Dict.get k (aa_to_aadist st') = Dict.get k (aa_to_aadist st);
  no_fresh : forall k a, In k ks ->
             Dict.get k (aa_to_aadist st') = Some a -> length (store st) <= a;
  no_distinct : forall k1 k2 a, In k1 ks -> In k2 ks ->
                Dict.get k1 (aa_to_aadist st') = Some a ->
                Dict.get k2 (aa_to_aadist st') = Some a -> k1 = k2
}.

(** What the optional renormalisation does to every entry. *)
Definition post (normalize : bool) (v : Np.ndarray) : Np.ndarray :=
  if normalize then normalized v else v.

(** Every array of the table has [n] components. *)
Definition all_length (n : nat) (st : env) : Prop :=
  forall k v, lookup st k = Some v -> length v = n.


(** How the three averages fail on a state [stX] that holds the parsed
    rows of [st0]. *)
Definition mean_failure (st0 : env) (c : string) (e : exn) : Prop :=
  e = KeyError c \/
  exists a b va vb,
    e = ValueError "inhomogeneous shape" /\ In (a, b) averaged_pairs /\
    lookup st0 a = Some va /\ lookup st0 b = Some vb /\
    length va <> length vb.

(** What the division by a zero sum leaves in a component. *)
Definition zero_quotient (x y : F.float) : Prop :=
  if F.is_zero x || F.is_nan x then y = F.nan else F.is_inf y = true.

Definition all_pzero (a : Np.ndarray) : Prop := Forall (fun x => x = F.pzero) a.

(** Every entry but the missing-data one sums to 1 within 1e-5. *)
Definition all_close (tbl : env) : bool :=
  forallb (fun ka => String.eqb (fst ka) MISSINGAA
                     || F.close_to_one (Np.sum (deref tbl (snd ka))))
          (aa_to_aadist tbl).

(** ** Concrete tables *)

Definition duplicate_rows : string := "A 1 2
C 3 4
A 5 6
# A 7 8
K 9 9
".

Definition blank_line_text : string := "C 1

K 2
".

(** The eight rows the expansion needs, two fields each. *)
Definition small_table : string := "# residue  f1 f2
C 1 3
K 2 2
D 1 3
N 3 5
I 0.5 0.5
L 1 0
E 2 6
Q 4 4
".

(** The first row has two fields, the others one. *)
Definition ragged_table : string := "C 1 2
K 1
D 1
N 1
I 1
L 1
E 1
Q 1
".

(** C and K without any numeric field. *)
Definition bare_table : string := "C
K
".

(** ** The rest of the module: secondary-structure codes *)

(** The Q8 codes of secondary structure, in the order of biopython. *)
Definition SSTRUCT_CODES : list string :=
  ["H"; "B"; "E"; "G"; "I"; "T"; "S"; "-"].

(** [for i in range(len(codes)): d[codes[i]] = i] from the empty
    dictionary. *)
Definition index_codes (codes : list string) : Dict.t :=
  fold_left (fun d i => Dict.set (nth i codes "") i d)
            (seq 0 (length codes)) [].

Definition SSTRUCT_TO_INT : Dict.t := index_codes SSTRUCT_CODES.

(** ** Further notions used in the statements *)

(** The text is empty or ends with a newline. *)
Fixpoint terminated (s : string) : bool :=
  match s with
  | EmptyString => true
  | String c s' =>
      match s' with
      | EmptyString => Ascii.eqb c Text.newline
      | String _ _ => terminated s'
      end
  end.

(** No newline inside. *)
Fixpoint no_newline (s : string) : bool :=
  match s with
  | EmptyString => true
  | String c s' => negb (Ascii.eqb c Text.newline) && no_newline s'
  end.

(** The codes the helper adds, in the order in which it stores them. *)
Definition added_codes : list string := derived_codes ++ [MISSINGAA].

(** The keys of a dictionary after the stores [d[k] = ...] for the [k] of
    a list, in order: each key at the place of its first store. *)
Definition add_key (ks : list string) (k : string) : list string :=
  if existsb (String.eqb k) ks then ks else ks ++ [k].

Definition first_seen (l : list string) : list string :=
  fold_left add_key l [].

(** The first tokens of the data rows. *)
Definition row_keys (feature_string : string) : list string :=
  map (hd "") (rows feature_string).

(** All eight rows the expansion reads are there, the rows it averages
    agree in length, and [1.0/feature_count] is defined if it is needed. *)
Definition expandable (average : bool) (st0 : env) : Prop :=
  first_missing st0 = None /\
  (forall a b va vb, In (a, b) averaged_pairs ->
     lookup st0 a = Some va -> lookup st0 b = Some vb ->
     length va = length vb) /\
  (average = true -> feature_count st0 <> 0).

(** ** Further tables and notions *)

Definition bad_number_table : string := "C 1 2
K 3 4,5 x
D 1 1
".

Definition two_rows_text : string := "C 1
K 1
".

(** Among the keys that satisfy [P], no two hold the same array. *)
Definition separate_on (P : string -> Prop) (st : env) : Prop :=
  forall k1 k2 a, P k1 -> P k2 ->
    Dict.get k1 (aa_to_aadist st) = Some a ->
    Dict.get k2 (aa_to_aadist st) = Some a -> k1 = k2.

Definition not_synonym (k : string) : Prop := k <> "U" /\ k <> "O".

(** ** The reader of [PCAaaindex1.py]

    The script's first part reads the property file into [res_ids] and
    [raw_data].  The file is the list of the lines that successive calls of
    [handle.readline()] return; at its end [readline] returns the empty
    string.  The loop may not terminate, so it takes fuel, and [None]
    stands for a run that the fuel did not finish. *)

Module Pca.

(** [s.split(sep)] for a one-character separator: the pieces between the
    separators, empty pieces included. *)
Fixpoint split_on (sep : ascii) (s : string) : list string :=
  match s with
  | EmptyString => [EmptyString]
  | String c s' =>
      if Ascii.eqb c sep then EmptyString :: split_on sep s'
      else match split_on sep s' with
           | [] => [String c EmptyString]
           | p :: ps => String c p :: ps
           end
  end.

Definition readline (handle : list string) : string * list string :=
  match handle with
  | [] => (EmptyString, [])
  | l :: h => (l, h)
  end.

(** [[ float(x) for x in dsarr ]] *)
Fixpoint floats64 (toks : list string) : result (list F.float) :=
  match toks with
  | [] => Ok []
  | x :: xs =>
      match Text.py_float x with
      | None => Raise (ValueError x)
      | Some f => v <- floats64 xs ;; Ok (f :: v)
      end
  end.

(** [for aasplit in aasplits: res_ids.append(aasplit.split('/')[i])] *)
Fixpoint pieces (i : nat) (aasplits : list string) : result (list string) :=
  match aasplits with
  | [] => Ok []
  | a :: rest =>
      match nth_error (split_on "/" a) i with
      | None => Raise IndexError
      | Some r => rs <- pieces i rest ;; Ok (r :: rs)
      end
  end.

(** The body of [if not res_ids:]. *)
Definition fill_ids (res_ids aasplits : list string) : result (list string) :=
  match res_ids with
  | [] => a <- pieces 0 aasplits ;; b <- pieces 1 aasplits ;; Ok (a ++ b)
  | _ :: _ => Ok res_ids
  end.

(** The two data lines of a record: dropped if a token is [NA], else
    appended as one row of floats. *)
Definition add_row (raw_data : list (list F.float)) (dsarr : list string)
    : result (list (list F.float)) :=
  if existsb (String.eqb "NA") dsarr then Ok raw_data
  else data <- floats64 dsarr ;; Ok (raw_data ++ [data]).

(** [while line: ...], entered with the line read last. *)
Fixpoint read_loop (fuel : nat) (line : string) (handle : list string)
    (res_ids : list string) (raw_data : list (list F.float))
    : option (result (list string * list (list F.float))) :=
  match fuel with
  | 0 => None
  | S fuel' =>
      match line with
      | EmptyString => Some (Ok (res_ids, raw_data))
      | String _ _ =>
          match Text.split line with
          | [] => Some (Raise IndexError)
          | tok :: aasplits =>
              if String.eqb tok "I" then
                match fill_ids res_ids aasplits with
                | Raise e => Some (Raise e)
                | Ok res_ids' =>
                    let '(l1, h1) := readline handle in
                    let '(l2, h2) := readline h1 in
                    match add_row raw_data (Text.split l1 ++ Text.split l2) with
                    | Raise e => Some (Raise e)
                    | Ok raw_data' =>
                        let '(_, h3) := readline h2 in
                        let '(line', h4) := readline h3 in
                        read_loop fuel' line' h4 res_ids' raw_data'
                    end
                end
              else read_loop fuel' line handle res_ids raw_data
          end
      end
  end.

Definition read_file (fuel : nat) (file : list string)
    : option (result (list string * list (list F.float))) :=
  let '(line, handle) := readline file in
  read_loop fuel line handle [] [].

(** A record of the property file: the line of residue labels, two lines
    of values and a closing line. *)
Record entry : Type := mkEntry {
  labels_line : string;
  values1 : string;
  values2 : string;
  closing : string
}.

Definition entry_lines (r : entry) : list string :=
  [labels_line r; values1 r; values2 r; closing r].

Definition file_of (rs : list entry) : list string :=
  flat_map entry_lines rs.

Definition entry_tokens (r : entry) : list string :=
  Text.split (values1 r) ++ Text.split (values2 r).

Definition has_NA (r : entry) : bool :=
  existsb (String.eqb "NA") (entry_tokens r).

(** The rows of the entries without [NA], in order. *)
Fixpoint rows_of_entries (rs : list entry) : result (list (list F.float)) :=
  match rs with
  | [] => Ok []
  | r :: rs' =>
      if has_NA r then rows_of_entries rs'
      else row <- floats64 (entry_tokens r) ;;
           rest <- rows_of_entries rs' ;;
           Ok (row :: rest)
  end.

(** The labels line starts with the token [I]. *)
Definition is_labels_line (r : entry) : Prop :=
  exists labels, Text.split (labels_line r) = "I" :: labels.

End Pca.

(** ** Checks on a whole table *)

(** A finite number that is not negative. *)
Definition is_nonnegative (x : F.float) : bool :=
  match x with
  | S754_zero _ | S754_finite false _ _ => true
  | _ => false
  end.

(** Every array of the table has [m] components, all passing [ok]. *)
Definition table_check (m : nat) (ok : F.float -> bool) (tbl : env) : bool :=
  forallb (fun ka => (length (deref tbl (snd ka)) =? m)
                     && forallb ok (deref tbl (snd ka)))
          (aa_to_aadist tbl).

Fixpoint same_keys (l1 l2 : list string) : bool :=
  match l1, l2 with
  | [], [] => true
  | k1 :: l1', k2 :: l2' => String.eqb k1 k2 && same_keys l1' l2'
  | _, _ => false
  end.

(** Three entries of a property file, the second with a missing value. *)
Definition sample_entries : list Pca.entry :=
  [Pca.mkEntry "I A/L R/K
" "4.35 4.38
" "4.17 4.36
" "//
";
   Pca.mkEntry "I A/L R/K
" "1.0 NA
" "2 3
" "//
";
   Pca.mkEntry "I A/L R/K
" "-1 0.5
" "2e1 3
" "//
"].

(** ** The real value of a floating-point number

    The error bounds of the float32 operations are stated on the real
    numbers the floats stand for. *)

(** [2^e] for an integer [e] of either sign. *)
Definition bpow (e : Z) : R := powerRZ 2 e.

(** The real number a finite float stands for; the zeros stand for 0 and
    so do, by convention, the infinities and NaN. *)
Definition value (x : spec_float) : R :=
  match x with
  | S754_finite s m e => ((if s then -1 else 1) * IZR (Zpos m) * bpow e)%R
  | _ => 0%R
  end.

(** A zero of either sign or a finite positive number. *)
Definition nonneg_finite (x : spec_float) : bool :=
  match x with
  | S754_zero _ | S754_finite false _ _ => true
  | _ => false
  end.

(** A finite positive number. *)
Definition pos_finite (x : F.float) : bool :=
  match x with
  | S754_finite false _ _ => true
  | _ => false
  end.

(** The exponent of a finite float is not below the least exponent of the
    format: sums of such floats are exact while they are subnormal. *)
Definition lowexp (prec emax : Z) (x : spec_float) : Prop :=
  match x with
  | S754_finite _ _ e => (emin prec emax <= e)%Z
  | _ => True
  end.

(** Where the real [x] lies between the integers [m] and [m + 1], in the
    terms of [SpecFloat]'s rounding. *)
Definition inbetween (m : Z) (x : R) (l : location) : Prop :=
  match l with
  | loc_Exact => x = IZR m
  | loc_Inexact Lt => (IZR m < x < IZR m + / 2)%R
  | loc_Inexact Eq => x = (IZR m + / 2)%R
  | loc_Inexact Gt => (IZR m + / 2 < x < IZR m + 1)%R
  end.

(** The unit roundoff of binary32 and half its least subnormal number. *)
Definition u32 : R := bpow (-24).
Definition eta32 : R := (/ 2 * bpow (-149))%R.

(** A float32 value that is not negative and not special. *)
Definition regular (x : F.float) : Prop :=
  nonneg_finite x = true /\ lowexp 24 128 x.

(** The exact sum of the components of a vector. *)
Definition total (v : Np.ndarray) : R :=
  fold_right (fun x acc => (value x + acc)%R) 0%R v.

Definition rsum (l : list R) : R := fold_right Rplus 0%R l.

(** The float [x] was computed from non-negative terms of exact sum [S]
    by additions nested at most [d] deep: it is within the factors
    [(1 - u)^d] and [(1 + u)^d] of [S], or it overflowed to [+inf] and
    then [S] is huge. *)
Definition approx (d : nat) (x : F.float) (S : R) : Prop :=
  (0 <= S)%R /\
  ((x = S754_infinity false /\ (bpow 127 <= (1 + u32) ^ d * S)%R) \/
   (regular x /\
    ((1 - u32) ^ d * S <= value x <= (1 + u32) ^ d * S)%R)).

(** A vector whose renormalisation is well conditioned: every component
    is finite and not negative, there are at most [2^60] of them, and
    their float32 sum is finite and positive (so it did not overflow and
    some component is not zero). *)
Definition summable (v : Np.ndarray) : bool :=
  forallb nonneg_finite v && pos_finite (Np.sum v)
  && (Z.of_nat (length v) <=? 2 ^ 60)%Z.

Definition all_summable (st : env) : bool :=
  forallb (fun ka : string * nat => summable (deref st (snd ka)))
          (aa_to_aadist st).

(** Every float in the store is a float32 value. *)
Definition store_lowexp (st : env) : Prop :=
  Forall (Forall (lowexp 24 128)) (store st).

(** The X entry the helper returns, from the two flags and the number of
    features. *)
Definition returned_x (normalize average : bool) (n : nat) : Np.ndarray :=
  let x := if average then uniform n else F.pzero in
  Np.full n (if normalize then F.div x (Np.sum (Np.full n x)) else x).

(** A table with a row of mixed signs and a row whose sum overflows. *)
Definition cancelling_table : string := "C 1 1 1
K 1 1 1
D 1 1 1
N 1 1 1
I 1 1 1
L 1 1 1
E 1 1 1
Q 1 1 1
A 1000 -999.9998 0.00007
R 3e38 3e38 0
".

(** ** Facts about the dictionary *)

Module DictFacts.
Import Dict.

Lemma get_set (k k' : string) (a : nat) (d : t) :
  get k' (set k a d) = if String.eqb k' k then Some a else get k' d.
Proof.
  induction d as [|[k0 a0] d IH]; simpl.
  - destruct (String.eqb k' k); reflexivity.
  - destruct (String.eqb k k0) eqn:E; simpl.
    + apply String.eqb_eq in E; subst k0.
      destruct (String.eqb k' k); reflexivity.
    + destruct (String.eqb k' k0) eqn:E'.
      * apply String.eqb_eq in E'; subst k0.
        destruct (String.eqb k' k) eqn:E''; [|reflexivity].
        apply String.eqb_eq in E''; subst k'.
        rewrite String.eqb_refl in E; discriminate.
      * exact IH.
Qed.

Lemma get_set_eq (k : string) (a : nat) (d : t) : get k (set k a d) = Some a.
Proof. rewrite get_set, String.eqb_refl; reflexivity. Qed.

Lemma get_set_neq (k k' : string) (a : nat) (d : t) :
  k' <> k -> get k' (set k a d) = get k' d.
Proof.
  intros H; rewrite get_set.
  destruct (String.eqb k' k) eqn:E; [|reflexivity].
  apply String.eqb_eq in E; contradiction.
Qed.

Lemma get_in_keys (k : string) (d : t) :
  In k (keys d) <-> get k d <> None.
Proof.
  induction d as [|[k0 a0] d IH]; simpl.
  - split; [tauto | congruence].
  - destruct (String.eqb k k0) eqn:E.
    + apply String.eqb_eq in E; subst; split; [discriminate | auto].
    + apply String.eqb_neq in E. rewrite <- IH.
      split; [intros [H|H]; [congruence | exact H] | auto].
Qed.

Lemma get_some_in_keys (k : string) (a : nat) (d : t) :
  get k d = Some a -> In k (keys d).
Proof. intros H; apply get_in_keys; congruence. Qed.

Lemma get_in (k : string) (a : nat) (d : t) :
  get k d = Some a -> In (k, a) d.
Proof.
  induction d as [|[k0 a0] d IH]; simpl; [discriminate|].
  destruct (String.eqb k k0) eqn:E.
  - apply String.eqb_eq in E; subst. intros [= ->]; auto.
  - auto.
Qed.

Lemma in_keys_set (k k' : string) (a : nat) (d : t) :
  In k' (keys (set k a d)) <-> k' = k \/ In k' (keys d).
Proof.
  rewrite !get_in_keys, get_set.
  destruct (String.eqb k' k) eqn:E.
  - apply String.eqb_eq in E; split; [auto | discriminate].
  - apply String.eqb_neq in E; split; [auto | intros [H|H]; [contradiction | exact H]].
Qed.

Lemma keys_set_present (k : string) (a : nat) (d : t) :
  In k (keys d) -> keys (set k a d) = keys d.
Proof.
  induction d as [|[k0 a0] d IH]; simpl; [tauto|].
  destruct (String.eqb k k0) eqn:E; simpl.
  - reflexivity.
  - apply String.eqb_neq in E. intros [H|H]; [congruence|].
    f_equal; auto.
Qed.

Lemma keys_set_absent (k : string) (a : nat) (d : t) :
  ~ In k (keys d) -> keys (set k a d) = keys d ++ [k].
Proof.
  induction d as [|[k0 a0] d IH]; simpl; [reflexivity|].
  destruct (String.eqb k k0) eqn:E; simpl.
  - apply String.eqb_eq in E; subst; tauto.
  - intros H; f_equal; auto.
Qed.

Lemma NoDup_keys_set (k : string) (a : nat) (d : t) :
  NoDup (keys d) -> NoDup (keys (set k a d)).
Proof.
  intros H. destruct (in_dec string_dec k (keys d)) as [Hin|Hin].
  - rewrite keys_set_present; assumption.
  - rewrite keys_set_absent by assumption.
    apply NoDup_rev in H. rewrite <- (rev_involutive (keys d ++ [k])).
    apply NoDup_rev. rewrite rev_app_distr; simpl.
    constructor; [rewrite <- in_rev; assumption | assumption].
Qed.

Lemma length_set_present (k : string) (a : nat) (d : t) :
  In k (keys d) -> length (set k a d) = length d.
Proof.
  intros H. rewrite <- (length_map fst (set k a d)), <- (length_map fst d).
  change (map fst (set k a d)) with (keys (set k a d)).
  rewrite keys_set_present; auto.
Qed.

End DictFacts.

(** ** Facts about results and states *)

Lemma bind_ok {A B : Type} (r : result A) (k : A -> result B) (b : B) :
  bind r k = Ok b -> exists a, r = Ok a /\ k a = Ok b.
Proof. destruct r as [a|e]; simpl; [eauto | discriminate]. Qed.

Lemma bind_raise {A B : Type} (r : result A) (k : A -> result B) (e : exn) :
  bind r k = Raise e -> r = Raise e \/ exists a, r = Ok a /\ k a = Raise e.
Proof. destruct r as [a|e']; simpl; [eauto | intros [= ->]; auto]. Qed.

Lemma wf_init : wf (mkEnv [] [] 0).
Proof. split; [constructor | discriminate]. Qed.

Lemma wf_setitem (k : string) (a : nat) (st : env) :
  wf st -> a < length (store st) -> wf (setitem k a st).
Proof.
  intros [Hn Ha] Hlt; split; simpl.
  - apply DictFacts.NoDup_keys_set; assumption.
  - intros k' a'. rewrite DictFacts.get_set.
    destruct (String.eqb k' k); [intros [= <-]; assumption | apply Ha].
Qed.

Lemma wf_setnew (k : string) (v : Np.ndarray) (st : env) :
  wf st -> wf (setnew k v st).
Proof.
  intros [Hn Ha]; split; simpl.
  - apply DictFacts.NoDup_keys_set; assumption.
  - intros k' a'. rewrite DictFacts.get_set, length_app; simpl.
    destruct (String.eqb k' k); [intros [= <-]; lia|].
    intros H; apply Ha in H; lia.
Qed.

Lemma wf_set_feature_count (n : nat) (st : env) :
  wf st -> wf (set_feature_count n st).
Proof. intros H; exact H. Qed.

Lemma lookup_set_feature_count (n : nat) (st : env) (k : string) :
  lookup (set_feature_count n st) k = lookup st k.
Proof. reflexivity. Qed.

Lemma lookup_setitem (k k' : string) (a : nat) (st : env) :
  lookup (setitem k a st) k'
  = if String.eqb k' k then Some (deref st a) else lookup st k'.
Proof.
  unfold lookup; simpl. rewrite DictFacts.get_set.
  destruct (String.eqb k' k); reflexivity.
Qed.

Lemma lookup_setnew (k k' : string) (v : Np.ndarray) (st : env) :
  wf st ->
  lookup (setnew k v st) k' = if String.eqb k' k then Some v else lookup st k'.
Proof.
  intros [_ Ha]. unfold lookup, deref; simpl. rewrite DictFacts.get_set.
  destruct (String.eqb k' k).
  - rewrite app_nth2, Nat.sub_diag by lia. reflexivity.
  - destruct (Dict.get k' (aa_to_aadist st)) as [a|] eqn:E; [|reflexivity].
    rewrite app_nth1 by (eapply Ha; eassumption). reflexivity.
Qed.

Lemma lookup_setitem_neq (k k' : string) (a : nat) (st : env) :
  k' <> k -> lookup (setitem k a st) k' = lookup st k'.
Proof.
  intros H. rewrite lookup_setitem.
  destruct (String.eqb k' k) eqn:E; [|reflexivity].
  apply String.eqb_eq in E; contradiction.
Qed.

Lemma lookup_setnew_neq (k k' : string) (v : Np.ndarray) (st : env) :
  wf st -> k' <> k -> lookup (setnew k v st) k' = lookup st k'.
Proof.
  intros Hwf H. rewrite lookup_setnew by assumption.
  destruct (String.eqb k' k) eqn:E; [|reflexivity].
  apply String.eqb_eq in E; contradiction.
Qed.

Lemma lookup_setnew_eq (k : string) (v : Np.ndarray) (st : env) :
  wf st -> lookup (setnew k v st) k = Some v.
Proof.
  intros Hwf. rewrite lookup_setnew, String.eqb_refl by assumption. reflexivity.
Qed.

Lemma lookup_getitem (st : env) (k : string) (a : nat) :
  getitem st k = Ok a -> lookup st k = Some (deref st a).
Proof.
  unfold getitem, lookup.
  destruct (Dict.get k (aa_to_aadist st)); [intros [= ->]; reflexivity | discriminate].
Qed.

Lemma getitem_ok (st : env) (k : string) (a : nat) :
  getitem st k = Ok a <-> Dict.get k (aa_to_aadist st) = Some a.
Proof.
  unfold getitem. destruct (Dict.get k (aa_to_aadist st)); split; congruence.
Qed.

Lemma getitem_raise (st : env) (k : string) (e : exn) :
  getitem st k = Raise e ->
  e = KeyError k /\ Dict.get k (aa_to_aadist st) = None.
Proof.
  unfold getitem. destruct (Dict.get k (aa_to_aadist st)); [discriminate|].
  intros [= <-]; auto.
Qed.

Lemma lookup_none (st : env) (k : string) :
  lookup st k = None <-> Dict.get k (aa_to_aadist st) = None.
Proof.
  unfold lookup. destruct (Dict.get k (aa_to_aadist st)); split; congruence.
Qed.

(** ** The parser *)

Lemma floats_length (toks : list string) (v : Np.ndarray) :
  floats toks = Ok v -> length v = length toks.
Proof.
  revert v; induction toks as [|x xs IH]; simpl; intros v.
  - intros [= <-]; reflexivity.
  - destruct (Text.py_float x); [|discriminate].
    intros H; apply bind_ok in H as (w & Hw & [= <-]).
    simpl; f_equal; auto.
Qed.

Lemma floats_raise (toks : list string) (e : exn) :
  floats toks = Raise e -> exists tok, In tok toks /\ e = ValueError tok.
Proof.
  induction toks as [|x xs IH]; simpl; [discriminate|].
  destruct (Text.py_float x).
  - intros H; apply bind_raise in H as [H | (w & _ & H)]; [|discriminate].
    destruct (IH H) as (tok & ? & ?); eauto.
  - intros [= <-]; eauto.
Qed.

Lemma parse_line_comment (st : env) (line : string) :
  is_comment line = true -> parse_line st line = Ok st.
Proof.
  destruct line as [|c line]; simpl; [discriminate|]. intros ->; reflexivity.
Qed.

Lemma parse_line_ok (st st' : env) (line : string) :
  parse_line st line = Ok st' ->
  (is_comment line = true /\ st' = st) \/
  (is_comment line = false /\
   exists aa toks v,
     Text.split line = aa :: toks /\ floats toks = Ok v /\
     st' = set_feature_count (length v) (setnew aa v st)).
Proof.
  destruct line as [|c line]; [discriminate|].
  unfold parse_line, is_comment.
  destruct (Ascii.eqb c "#").
  - intros [= <-]; auto.
  - destruct (Text.split (String c line)) as [|aa toks]; [discriminate|].
    intros H; apply bind_ok in H as (v & Hv & [= <-]).
    right; split; [reflexivity|]. exists aa, toks, v; auto.
Qed.

Lemma parse_line_raise (st : env) (line : string) (e : exn) :
  parse_line st line = Raise e ->
  e = IndexError \/ exists tok, e = ValueError tok.
Proof.
  destruct line as [|c line]; simpl; [intros [= <-]; auto|].
  destruct (Ascii.eqb c "#"); [discriminate|].
  match goal with |- context [match ?x with _ => _ end] => destruct x as [|aa toks] end;
    [intros [= <-]; auto|].
  intros H; apply bind_raise in H as [H | (v & _ & H)]; [|discriminate].
  apply floats_raise in H as (tok & _ & ->); eauto.
Qed.

Lemma parse_lines_app (st : env) (l1 l2 : list string) :
  parse_lines st (l1 ++ l2) = (st' <- parse_lines st l1 ;; parse_lines st' l2).
Proof.
  revert st; induction l1 as [|l l1 IH]; intros st; simpl; [reflexivity|].
  destruct (parse_line st l); simpl; auto.
Qed.

Lemma parse_lines_raise (st : env) (lines : list string) (e : exn) :
  parse_lines st lines = Raise e ->
  e = IndexError \/ exists tok, e = ValueError tok.
Proof.
  revert st; induction lines as [|l lines IH]; intros st; simpl; [discriminate|].
  intros H; apply bind_raise in H as [H | (st' & _ & H)]; eauto using parse_line_raise.
Qed.

(** A property kept by every line is kept by the loop. *)
Lemma parse_lines_invariant (P : env -> Prop) (lines : list string) :
  (forall st line st',
      In line lines -> P st -> parse_line st line = Ok st' -> P st') ->
  forall st st', P st -> parse_lines st lines = Ok st' -> P st'.
Proof.
  induction lines as [|l lines IH]; intros Hstep st st' HP; simpl.
  - intros [= <-]; assumption.
  - intros H; apply bind_ok in H as (st1 & H1 & H2).
    apply (IH (fun st0 line st0' Hin => Hstep st0 line st0' (or_intror Hin)) st1 st');
      [|assumption].
    apply (Hstep st l st1); simpl; auto.
Qed.

Lemma parse_lines_wf (st st' : env) (lines : list string) :
  wf st -> parse_lines st lines = Ok st' -> wf st'.
Proof.
  apply (parse_lines_invariant wf).
  intros st0 line st0' _ Hwf H.
  apply parse_line_ok in H as [[_ ->] | (_ & aa & toks & v & _ & _ & ->)];
    [assumption|].
  apply wf_set_feature_count, wf_setnew; assumption.
Qed.

Lemma parse_lines_keep (aa : string) (v : Np.ndarray) (lines : list string)
    (st st' : env) :
  (forall l, In l lines -> is_comment l = false ->
             hd_error (Text.split l) <> Some aa) ->
  wf st -> lookup st aa = Some v ->
  parse_lines st lines = Ok st' -> lookup st' aa = Some v.
Proof.
  intros Hother Hwf Hv Hparse.
  enough (wf st' /\ lookup st' aa = Some v) by tauto.
  revert Hparse.
  apply (parse_lines_invariant (fun st0 => wf st0 /\ lookup st0 aa = Some v) lines);
    [|auto].
  intros st0 line st0' Hin [Hwf0 Hv0] H.
  apply parse_line_ok in H as [[_ ->] | (Hc & aa' & toks & w & Hs & _ & ->)];
    [auto|].
  split; [apply wf_set_feature_count, wf_setnew; assumption|].
  rewrite lookup_set_feature_count, lookup_setnew by assumption.
  destruct (String.eqb aa aa') eqn:E; [|assumption].
  apply String.eqb_eq in E; subst aa'.
  exfalso; apply (Hother line Hin Hc). rewrite Hs; reflexivity.
Qed.

Lemma all_space_split (s : string) : Text.all_space s = true -> Text.split s = [].
Proof.
  induction s as [|c s IH]; simpl; [reflexivity|].
  intros H; apply andb_prop in H as [Hc Hs]. rewrite Hc; auto.
Qed.

Lemma all_space_not_comment (s : string) :
  Text.all_space s = true -> is_comment s = false.
Proof.
  destruct s as [|c s]; simpl; [reflexivity|].
  intros H; apply andb_prop in H as [Hc _].
  destruct (Ascii.eqb c "#") eqn:E; [|reflexivity].
  apply Ascii.eqb_eq in E; subst c. discriminate Hc.
Qed.

Lemma parse_line_blank (st : env) (line : string) :
  Text.all_space line = true -> parse_line st line = Raise IndexError.
Proof.
  intros H. pose proof (all_space_not_comment line H) as Hc.
  destruct line as [|c line]; [reflexivity|].
  unfold parse_line. simpl in Hc; rewrite Hc, (all_space_split _ H). reflexivity.
Qed.

Lemma helper_parse_raise (s : string) (normalize average : bool) (e : exn) :
  parse_table s = Raise e -> _res_to_feature_helper s normalize average = Raise e.
Proof.
  intros H; unfold _res_to_feature_helper, expanded; rewrite H; reflexivity.
Qed.

(** ** Claims about the parser *)

(** C9: the data lines are taken from top to bottom, and of several lines
    with one residue letter the last decides: whatever stands above a data
    line for [aa], the parsed mapping gives [aa] the vector of that line
    when no data line below it starts with [aa]. *)
Theorem C9_last_line_wins
    (s : string) (st : env) (pre post : list string) (line aa : string)
    (toks : list string) :
  parse_table s = Ok st ->
  Text.readlines s = pre ++ line :: post ->
  is_comment line = false ->
  Text.split line = aa :: toks ->
  (forall l, In l post -> is_comment l = false ->
             hd_error (Text.split l) <> Some aa) ->
  exists v, floats toks = Ok v /\ lookup st aa = Some v.
Proof.
  unfold parse_table; intros Hparse Hlines Hc Hs Hpost.
  rewrite Hlines, parse_lines_app in Hparse.
  apply bind_ok in Hparse as (st1 & Hpre & Hrest).
  simpl in Hrest; apply bind_ok in Hrest as (st2 & Hline & Hrest).
  pose proof (parse_lines_wf _ _ _ wf_init Hpre) as Hwf1.
  apply parse_line_ok in Hline as [[Hc' _] | (_ & aa' & toks' & v & Hs' & Hv & ->)];
    [congruence|].
  rewrite Hs in Hs'; injection Hs' as <- <-.
  exists v; split; [assumption|].
  refine (parse_lines_keep aa v post _ st Hpost _ _ Hrest).
  - apply wf_set_feature_count, wf_setnew; assumption.
  - rewrite lookup_set_feature_count, lookup_setnew, String.eqb_refl by assumption.
    reflexivity.
Qed.

Lemma C9_last_line_wins_witness :
  let st := mkEnv [[F.of_Z 1; F.of_Z 2]; [F.of_Z 3; F.of_Z 4];
                   [F.of_Z 5; F.of_Z 6]; [F.of_Z 9; F.of_Z 9]]
                  [("A", 2); ("C", 1); ("K", 3)] 2 in
  parse_table duplicate_rows = Ok st /\
  exists v, floats ["5"; "6"] = Ok v /\ lookup st "A" = Some v.
Proof.
  intros st. assert (H : parse_table duplicate_rows = Ok st) by reflexivity.
  split; [exact H|].
  apply (C9_last_line_wins duplicate_rows st
           ["A 1 2
"; "C 3 4
"] ["# A 7 8
"; "K 9 9
"] "A 5 6
" "A" ["5"; "6"] H); try reflexivity.
  intros l [<- | [<- | []]]; simpl; [discriminate | intros _ [=]].
Defined.

(** C10: a line that is empty or holds only whitespace is not skipped.  A
    feature string with such a line makes the helper raise: [IndexError]
    from that line, unless a line above it already raised ([IndexError] or
    the [ValueError] of [float]).  Only a line whose first character is
    ['#'] is skipped. *)
Theorem C10_blank_line_raises
    (s : string) (normalize average : bool) (line : string) :
  In line (Text.readlines s) ->
  Text.all_space line = true ->
  (exists e, _res_to_feature_helper s normalize average = Raise e /\
             (e = IndexError \/ exists tok, e = ValueError tok)) /\
  (forall pre post st,
      Text.readlines s = pre ++ line :: post ->
      parse_lines (mkEnv [] [] 0) pre = Ok st ->
      _res_to_feature_helper s normalize average = Raise IndexError) /\
  (forall st l, parse_line st l = Ok st <-> is_comment l = true).
Proof.
  intros Hin Hblank. split; [|split].
  - apply in_split in Hin as (pre & post & Hs).
    destruct (parse_table s) as [st|e] eqn:Hp.
    + exfalso. unfold parse_table in Hp. rewrite Hs, parse_lines_app in Hp.
      apply bind_ok in Hp as (st1 & _ & Hp). simpl in Hp.
      rewrite (parse_line_blank st1 line Hblank) in Hp. discriminate.
    + exists e; split; [apply helper_parse_raise; assumption|].
      apply (parse_lines_raise _ _ _ Hp).
  - intros pre post st Hs Hpre. apply helper_parse_raise.
    unfold parse_table. rewrite Hs, parse_lines_app, Hpre. simpl.
    rewrite (parse_line_blank st line Hblank). reflexivity.
  - intros st l; split; [|apply parse_line_comment].
    intros H.
    apply parse_line_ok in H as [[Hc _] | (_ & aa & toks & v & _ & _ & H)];
      [assumption|].
    exfalso. apply (f_equal (fun e => length (store e))) in H. simpl in H.
    rewrite length_app in H; simpl in H; lia.
Qed.

Lemma C10_blank_line_raises_witness :
  (In (String Text.newline "") (Text.readlines blank_line_text) /\
   Text.all_space (String Text.newline "") = true) /\
  _res_to_feature_helper blank_line_text true true = Raise IndexError.
Proof.
  assert (Hin : In (String Text.newline "") (Text.readlines blank_line_text))
    by (right; left; reflexivity).
  assert (Hsp : Text.all_space (String Text.newline "") = true) by reflexivity.
  split; [split; assumption|].
  destruct (C10_blank_line_raises blank_line_text true true _ Hin Hsp)
    as (_ & Hfirst & _).
  apply (Hfirst ["C 1
"] ["K 2
"] (mkEnv [[F.of_Z 1]] [("C", 0)] 1)); reflexivity.
Defined.

(** ** The expansion step *)

Ltac wf_tac :=
  repeat match goal with
         | |- wf _ => assumption
         | |- wf (setnew _ _ _) => apply wf_setnew
         | |- wf (setitem _ _ _) => apply wf_setitem
         | |- wf (set_feature_count _ _) => apply wf_set_feature_count
         end.

Ltac look_side := solve [discriminate | wf_tac].

Ltac look_in H :=
  repeat first [ rewrite lookup_setitem_neq in H by look_side
               | rewrite lookup_setnew_neq in H by look_side
               | rewrite lookup_setnew_eq in H by look_side ].

Ltac look :=
  repeat first [ rewrite lookup_setitem_neq by look_side
               | rewrite lookup_setnew_neq by look_side
               | rewrite lookup_setnew_eq by look_side ].

Lemma add_synonyms_ok (st st' : env) :
  add_synonyms st = Ok st' ->
  exists c k,
    Dict.get "C" (aa_to_aadist st) = Some c /\
    Dict.get "K" (aa_to_aadist st) = Some k /\
    st' = setitem "O" k (setitem "U" c st).
Proof.
  unfold add_synonyms. intros H.
  apply bind_ok in H as (c & Hc & H). apply bind_ok in H as (k & Hk & [= <-]).
  apply getitem_ok in Hc. apply getitem_ok in Hk. simpl in Hk.
  rewrite DictFacts.get_set in Hk. simpl in Hk. eauto.
Qed.

Lemma np_mean_ok (a b v : Np.ndarray) :
  np_mean a b = Ok v -> length a = length b /\ v = Np.mean2 a b.
Proof.
  unfold np_mean. destruct (length a =? length b) eqn:E; [|discriminate].
  apply Nat.eqb_eq in E. intros [= <-]; auto.
Qed.

Lemma add_mean_ok (k k1 k2 : string) (st st' : env) :
  add_mean k k1 k2 st = Ok st' ->
  exists a b,
    lookup st k1 = Some a /\ lookup st k2 = Some b /\
    length a = length b /\ st' = setnew k (Np.mean2 a b) st.
Proof.
  unfold add_mean. intros H.
  apply bind_ok in H as (a & Ha & H). apply bind_ok in H as (b & Hb & H).
  apply bind_ok in H as (v & Hv & [= <-]).
  apply np_mean_ok in Hv as [Hlen ->].
  exists (deref st a), (deref st b); auto using lookup_getitem.
Qed.

Lemma add_mean_wf (k k1 k2 : string) (st st' : env) :
  wf st -> add_mean k k1 k2 st = Ok st' -> wf st'.
Proof.
  intros Hwf H. apply add_mean_ok in H as (a & b & _ & _ & _ & ->). wf_tac.
Qed.

Lemma expanded_ok (s : string) (average : bool) (st : env) :
  expanded s average = Ok st ->
  exists st0 c k x d n i l e q,
    parse_table s = Ok st0 /\ wf st0 /\
    Dict.get "C" (aa_to_aadist st0) = Some c /\
    Dict.get "K" (aa_to_aadist st0) = Some k /\
    x_value average (feature_count st0) x /\
    lookup st0 "D" = Some d /\ lookup st0 "N" = Some n /\ length d = length n /\
    lookup st0 "I" = Some i /\ lookup st0 "L" = Some l /\ length i = length l /\
    lookup st0 "E" = Some e /\ lookup st0 "Q" = Some q /\ length e = length q /\
    st = expand_with st0 c k x d n i l e q.
Proof.
  unfold expanded. intros H.
  apply bind_ok in H as (st0 & Hp & H). apply bind_ok in H as (st1 & Hs & H).
  pose proof (parse_lines_wf _ _ _ wf_init Hp) as Hwf0.
  apply add_synonyms_ok in Hs as (c & k & Hc & Hk & ->).
  assert (Hwf1 : wf (setitem "O" k (setitem "U" c st0))).
  { pose proof (proj2 Hwf0) as Ha. wf_tac; [exact (Ha _ _ Hc) | exact (Ha _ _ Hk)]. }
  unfold add_ambiguous in H.
  apply bind_ok in H as (x & Hx & H). apply bind_ok in H as (st2 & HB & H).
  apply bind_ok in H as (st3 & HJ & HZ).
  simpl feature_count in *.
  set (stX := setnew "X" (Np.full (feature_count st0) x)
                (setitem "O" k (setitem "U" c st0))) in *.
  assert (HwfX : wf stX) by (unfold stX; wf_tac).
  apply add_mean_ok in HB as (d & n & Hd & Hn & Hdn & ->).
  assert (HwfB : wf (setnew "B" (Np.mean2 d n) stX)) by wf_tac.
  apply add_mean_ok in HJ as (i & l & Hi & Hl & Hil & ->).
  assert (HwfJ : wf (setnew "J" (Np.mean2 i l) (setnew "B" (Np.mean2 d n) stX)))
    by wf_tac.
  apply add_mean_ok in HZ as (e & q & He & Hq & Heq & ->).
  unfold stX in *.
  look_in Hd; look_in Hn; look_in Hi; look_in Hl; look_in He; look_in Hq.
  exists st0, c, k, x, d, n, i, l, e, q.
  repeat (split; [assumption|]).
  split; [destruct average; [exact Hx | injection Hx as <-; reflexivity]|].
  repeat (split; [assumption|]). reflexivity.
Qed.

Lemma expand_with_wf (st0 : env) (c k : nat) (x : F.float)
    (d n i l e q : Np.ndarray) :
  wf st0 ->
  Dict.get "C" (aa_to_aadist st0) = Some c ->
  Dict.get "K" (aa_to_aadist st0) = Some k ->
  wf (setitem "O" k (setitem "U" c st0)) /\
  wf (expand_with st0 c k x d n i l e q).
Proof.
  intros Hwf Hc Hk.
  assert (H : wf (setitem "O" k (setitem "U" c st0))).
  { pose proof (proj2 Hwf) as Ha. wf_tac; [exact (Ha _ _ Hc) | exact (Ha _ _ Hk)]. }
  split; [exact H | unfold expand_with; wf_tac].
Qed.

(** ** The renormalisation loop *)

Lemma normalize_keys_ok (ks : list string) :
  forall st, wf st -> NoDup ks -> incl ks (Dict.keys (aa_to_aadist st)) ->
  exists st', normalize_keys ks st = Ok st' /\ normalized_on ks st st'.
Proof.
  induction ks as [|k ks IH]; intros st Hwf Hnd Hincl.
  - exists st; split; [reflexivity|].
    constructor; auto; intros; simpl in *; tauto.
  - inversion Hnd as [|? ? Hk Hnd']; subst.
    assert (Hin : In k (Dict.keys (aa_to_aadist st))) by (apply Hincl; left; reflexivity).
    destruct (Dict.get k (aa_to_aadist st)) as [a|] eqn:Ha;
      [|apply DictFacts.get_in_keys in Hin; contradiction].
    set (st1 := setnew k (normalized (deref st a)) st).
    assert (Hwf1 : wf st1) by (unfold st1; wf_tac).
    assert (Hkeys1 : Dict.keys (aa_to_aadist st1) = Dict.keys (aa_to_aadist st))
      by (apply DictFacts.keys_set_present; assumption).
    assert (Hincl1 : incl ks (Dict.keys (aa_to_aadist st1))).
    { rewrite Hkeys1. intros k' Hk'. apply Hincl; right; assumption. }
    destruct (IH st1 Hwf1 Hnd' Hincl1) as (st' & Hrun & Hspec).
    destruct Hspec as [Swf Skeys Scount Sstore Sdone Srest Sfresh Sdistinct].
    assert (Hlen1 : length (store st1) = S (length (store st)))
      by (simpl; rewrite length_app; simpl; lia).
    assert (Hget1 : Dict.get k (aa_to_aadist st') = Some (length (store st))).
    { rewrite (proj2 (Srest k Hk)). simpl. apply DictFacts.get_set_eq. }
    exists st'; split.
    { simpl. unfold getitem. rewrite Ha. exact Hrun. }
    constructor.
    + assumption.
    + congruence.
    + rewrite Scount; reflexivity.
    + lia.
    + intros k' [<- | Hk'].
      * rewrite (proj1 (Srest k Hk)). unfold st1.
        rewrite lookup_setnew_eq by assumption.
        unfold lookup. rewrite Ha. reflexivity.
      * rewrite (Sdone k' Hk'). unfold st1.
        rewrite lookup_setnew_neq; [reflexivity | assumption | congruence].
    + intros k' Hk'. assert (k' <> k) by (intros ->; apply Hk'; left; reflexivity).
      assert (Hk'' : ~ In k' ks) by (intros ?; apply Hk'; right; assumption).
      destruct (Srest k' Hk'') as [-> ->]. unfold st1. split.
      * apply lookup_setnew_neq; assumption.
      * simpl. apply DictFacts.get_set_neq; assumption.
    + intros k' a' [<- | Hk'] Hg.
      * rewrite Hget1 in Hg. injection Hg as <-. lia.
      * apply (Sfresh k' a' Hk') in Hg. lia.
    + intros k1 k2 a' [<- | H1] [<- | H2] G1 G2.
      * reflexivity.
      * rewrite Hget1 in G1. injection G1 as <-.
        apply (Sfresh k2 _ H2) in G2. lia.
      * rewrite Hget1 in G2. injection G2 as <-.
        apply (Sfresh k1 _ H1) in G1. lia.
      * exact (Sdistinct k1 k2 a' H1 H2 G1 G2).
Qed.

Lemma renormalize_ok (normalize : bool) (st : env) :
  wf st ->
  exists st',
    renormalize normalize st = Ok st' /\ wf st' /\
    Dict.keys (aa_to_aadist st') = Dict.keys (aa_to_aadist st) /\
    feature_count st' = feature_count st /\
    (forall k, lookup st' k = option_map (post normalize) (lookup st k)) /\
    (if normalize
     then forall k1 k2 a, Dict.get k1 (aa_to_aadist st') = Some a ->
                          Dict.get k2 (aa_to_aadist st') = Some a -> k1 = k2
     else st' = st).
Proof.
  intros Hwf. destruct normalize; simpl.
  - destruct (normalize_keys_ok (Dict.keys (aa_to_aadist st)) st Hwf (proj1 Hwf)
                (incl_refl _)) as (st' & Hrun & Hspec).
    destruct Hspec as [Swf Skeys Scount Sstore Sdone Srest Sfresh Sdistinct].
    exists st'. repeat (split; [assumption|]). split.
    + intros k. destruct (in_dec string_dec k (Dict.keys (aa_to_aadist st))) as [Hin|Hout].
      * apply Sdone; assumption.
      * destruct (Srest k Hout) as [-> _].
        unfold lookup.
        destruct (Dict.get k (aa_to_aadist st)) eqn:E; [|reflexivity].
        exfalso; apply Hout. eapply DictFacts.get_some_in_keys; eassumption.
    + intros k1 k2 a G1 G2.
      apply (Sdistinct k1 k2 a); try assumption;
        rewrite <- Skeys; eapply DictFacts.get_some_in_keys; eassumption.
  - exists st. repeat (split; [solve [auto]|]). split; [|reflexivity].
    intros k. destruct (lookup st k); reflexivity.
Qed.

Lemma helper_ok (s : string) (normalize average : bool) (tbl : env) :
  _res_to_feature_helper s normalize average = Ok tbl ->
  exists st st',
    expanded s average = Ok st /\ renormalize normalize st = Ok st' /\
    tbl = add_missing st'.
Proof.
  unfold _res_to_feature_helper. intros H.
  apply bind_ok in H as (st & He & H). apply bind_ok in H as (st' & Hr & [= <-]).
  eauto.
Qed.

Lemma lookup_setitem_eq (k : string) (a : nat) (st : env) :
  lookup (setitem k a st) k = Some (deref st a).
Proof. rewrite lookup_setitem, String.eqb_refl; reflexivity. Qed.

Lemma lookup_get (st : env) (k : string) (a : nat) :
  Dict.get k (aa_to_aadist st) = Some a -> lookup st k = Some (deref st a).
Proof. intros H; unfold lookup; rewrite H; reflexivity. Qed.

Section Expansion.

Variables (st0 : env) (c k : nat) (x : F.float) (d n i l e q : Np.ndarray).
Hypothesis Hwf : wf st0.
Hypothesis Hc : Dict.get "C" (aa_to_aadist st0) = Some c.
Hypothesis Hk : Dict.get "K" (aa_to_aadist st0) = Some k.

Let st := expand_with st0 c k x d n i l e q.

Lemma expand_with_synonyms :
  lookup st "U" = Some (deref st0 c) /\ lookup st "C" = Some (deref st0 c) /\
  lookup st "O" = Some (deref st0 k) /\ lookup st "K" = Some (deref st0 k).
Proof.
  destruct (expand_with_wf st0 c k x d n i l e q Hwf Hc Hk) as [Hwf1 _].
  unfold st, expand_with. repeat split; look.
  - rewrite lookup_setitem_eq. reflexivity.
  - apply lookup_get; assumption.
  - rewrite lookup_setitem_eq. reflexivity.
  - apply lookup_get; assumption.
Qed.

Lemma expand_with_addresses :
  Dict.get "U" (aa_to_aadist st) = Some c /\
  Dict.get "C" (aa_to_aadist st) = Some c /\
  Dict.get "O" (aa_to_aadist st) = Some k /\
  Dict.get "K" (aa_to_aadist st) = Some k.
Proof.
  unfold st, expand_with; simpl.
  repeat split; repeat (rewrite DictFacts.get_set; simpl); auto.
Qed.

Lemma expand_with_ambiguous :
  lookup st "X" = Some (Np.full (feature_count st0) x) /\
  lookup st "B" = Some (Np.mean2 d n) /\
  lookup st "J" = Some (Np.mean2 i l) /\
  lookup st "Z" = Some (Np.mean2 e q).
Proof.
  destruct (expand_with_wf st0 c k x d n i l e q Hwf Hc Hk) as [Hwf1 _].
  unfold st, expand_with. repeat split; look; reflexivity.
Qed.

Lemma expand_with_base (k' : string) :
  ~ In k' derived_codes -> lookup st k' = lookup st0 k'.
Proof.
  destruct (expand_with_wf st0 c k x d n i l e q Hwf Hc Hk) as [Hwf1 _].
  intros Hout. unfold st, expand_with.
  repeat (rewrite lookup_setnew_neq;
          [| wf_tac | intros ->; apply Hout; simpl; tauto]).
  repeat (rewrite lookup_setitem_neq;
          [| intros ->; apply Hout; simpl; tauto]).
  reflexivity.
Qed.

Lemma expand_with_keys (k' : string) :
  In k' (Dict.keys (aa_to_aadist st)) <->
  In k' derived_codes \/ In k' (Dict.keys (aa_to_aadist st0)).
Proof.
  unfold st, expand_with; simpl.
  rewrite !DictFacts.in_keys_set. simpl. intuition congruence.
Qed.

End Expansion.

Lemma helper_spec (s : string) (normalize average : bool) (tbl : env) :
  _res_to_feature_helper s normalize average = Ok tbl ->
  exists st st',
    expanded s average = Ok st /\ wf st /\
    renormalize normalize st = Ok st' /\ wf st' /\
    Dict.keys (aa_to_aadist st') = Dict.keys (aa_to_aadist st) /\
    feature_count st' = feature_count st /\
    (forall k, lookup st' k = option_map (post normalize) (lookup st k)) /\
    (if normalize
     then forall k1 k2 a, Dict.get k1 (aa_to_aadist st') = Some a ->
                          Dict.get k2 (aa_to_aadist st') = Some a -> k1 = k2
     else st' = st) /\
    tbl = add_missing st'.
Proof.
  intros H. apply helper_ok in H as (st & st' & He & Hr & ->).
  assert (Hwf : wf st).
  { destruct (expanded_ok _ _ _ He)
      as (st0 & c & k & x & d & n & i & l & e & q & _ & Hwf0 & Hc & Hk & _ & _ & _
          & _ & _ & _ & _ & _ & _ & _ & ->).
    apply expand_with_wf; assumption. }
  destruct (renormalize_ok normalize st Hwf)
    as (st'' & Hr' & Hwf' & Hkeys & Hfc & Hlook & Haddr).
  rewrite Hr in Hr'; injection Hr' as <-.
  exists st, st'. repeat (split; [assumption|]). reflexivity.
Qed.

(** The table read in terms of the state before the renormalisation. *)
Lemma table_lookup (s : string) (normalize average : bool) (tbl : env) :
  _res_to_feature_helper s normalize average = Ok tbl ->
  exists st,
    expanded s average = Ok st /\ wf st /\ wf tbl /\
    feature_count tbl = feature_count st /\
    lookup tbl MISSINGAA = Some (Np.full (feature_count st) F.pzero) /\
    (forall k, k <> MISSINGAA ->
               lookup tbl k = option_map (post normalize) (lookup st k)) /\
    (forall k, In k (Dict.keys (aa_to_aadist tbl)) <->
               k = MISSINGAA \/ In k (Dict.keys (aa_to_aadist st))).
Proof.
  intros H. apply helper_spec in H
    as (st & st' & He & Hwf & _ & Hwf' & Hkeys & Hfc & Hlook & _ & ->).
  exists st. repeat (split; [assumption|]). split; [|split; [|split; [|split]]].
  - unfold add_missing; wf_tac.
  - simpl. assumption.
  - unfold add_missing. rewrite lookup_setnew_eq, Hfc by assumption. reflexivity.
  - intros k Hk. unfold add_missing.
    rewrite lookup_setnew_neq by assumption. apply Hlook.
  - intros k. unfold add_missing; simpl.
    rewrite DictFacts.in_keys_set, Hkeys. reflexivity.
Qed.

(** ** What the parser leaves in [feature_count] and in the dictionary *)

Lemma last_cons {A : Type} (x d : A) (l : list A) : last (x :: l) d = last l x.
Proof.
  revert x d; induction l as [|y l IH]; intros x d; [reflexivity|].
  change (last (x :: y :: l) d) with (last (y :: l) d).
  rewrite !IH. reflexivity.
Qed.

Lemma rows_of_cons (line : string) (lines : list string) :
  rows_of (line :: lines)
  = if is_comment line then rows_of lines else Text.split line :: rows_of lines.
Proof. unfold rows_of; simpl. destruct (is_comment line); reflexivity. Qed.

Lemma parse_lines_count (lines : list string) :
  forall st st', parse_lines st lines = Ok st' ->
  feature_count st' = last (map width (rows_of lines)) (feature_count st).
Proof.
  induction lines as [|line lines IH]; intros st st'; simpl parse_lines.
  - intros [= <-]; reflexivity.
  - intros H; apply bind_ok in H as (st1 & H1 & H2).
    rewrite (IH _ _ H2), rows_of_cons.
    apply parse_line_ok in H1 as [[-> ->] | (-> & aa & toks & v & Hs & Hv & ->)];
      [reflexivity|].
    simpl map. rewrite last_cons. f_equal.
    rewrite Hs. unfold width; simpl. apply floats_length; assumption.
Qed.

Lemma in_rows_of (line : string) (lines : list string) :
  In line lines -> is_comment line = false ->
  In (Text.split line) (rows_of lines).
Proof.
  intros Hin Hc. unfold rows_of. apply in_map, filter_In.
  rewrite Hc; auto.
Qed.

Lemma parse_lines_keys_from_rows (lines : list string) (st st' : env) :
  parse_lines st lines = Ok st' ->
  forall k, In k (Dict.keys (aa_to_aadist st')) ->
            In k (Dict.keys (aa_to_aadist st)) \/
            exists toks, In (k :: toks) (rows_of lines).
Proof.
  intros H.
  refine (parse_lines_invariant
            (fun st1 => forall k, In k (Dict.keys (aa_to_aadist st1)) ->
                                  In k (Dict.keys (aa_to_aadist st)) \/
                                  exists toks, In (k :: toks) (rows_of lines))
            lines _ st st' _ H); [|auto].
  intros st1 line st1' Hin HP Hline k Hk.
  apply parse_line_ok in Hline as [[_ ->] | (Hc & aa & toks & v & Hs & _ & ->)];
    [auto|].
  simpl in Hk. apply DictFacts.in_keys_set in Hk as [-> | Hk]; [|auto].
  right. exists toks. rewrite <- Hs. apply in_rows_of; assumption.
Qed.

Lemma parse_lines_keys_mono (lines : list string) (st st' : env) (k : string) :
  parse_lines st lines = Ok st' ->
  In k (Dict.keys (aa_to_aadist st)) -> In k (Dict.keys (aa_to_aadist st')).
Proof.
  intros H Hk. revert H.
  apply (parse_lines_invariant (fun st1 => In k (Dict.keys (aa_to_aadist st1))) lines);
    [|assumption].
  intros st1 line st1' _ HP Hline.
  apply parse_line_ok in Hline as [[_ ->] | (_ & aa & toks & v & _ & _ & ->)];
    [assumption|].
  simpl. apply DictFacts.in_keys_set; auto.
Qed.

Lemma parse_lines_rows_in_keys (lines : list string) :
  forall st st' k toks,
    parse_lines st lines = Ok st' -> In (k :: toks) (rows_of lines) ->
    In k (Dict.keys (aa_to_aadist st')).
Proof.
  induction lines as [|line lines IH]; intros st st' k toks; simpl parse_lines.
  - intros _ [].
  - intros H; apply bind_ok in H as (st1 & H1 & H2).
    rewrite rows_of_cons.
    apply parse_line_ok in H1 as [[-> ->] | (-> & aa & toks' & v & Hs & _ & ->)].
    + eauto.
    + intros [Hrow | Hrow]; [|eauto].
      rewrite Hs in Hrow; injection Hrow as -> ->.
      apply (parse_lines_keys_mono _ _ _ _ H2). simpl.
      apply DictFacts.in_keys_set; auto.
Qed.

Lemma parse_lines_all_length (n : nat) (lines : list string) (st st' : env) :
  (forall r, In r (rows_of lines) -> width r = n) ->
  wf st -> all_length n st ->
  parse_lines st lines = Ok st' -> all_length n st'.
Proof.
  intros Hrows Hwf Hlen H.
  enough (wf st' /\ all_length n st') by tauto. revert H.
  apply (parse_lines_invariant (fun st1 => wf st1 /\ all_length n st1) lines);
    [|auto].
  intros st1 line st1' Hin [Hwf1 Hlen1] Hline.
  apply parse_line_ok in Hline as [[_ ->] | (Hc & aa & toks & v & Hs & Hv & ->)];
    [auto|].
  split; [wf_tac|]. intros k w.
  rewrite lookup_set_feature_count, lookup_setnew by assumption.
  destruct (String.eqb k aa); [|apply Hlen1].
  intros [= <-]. rewrite (floats_length _ _ Hv).
  rewrite <- (Hrows _ (in_rows_of _ _ Hin Hc)), Hs. reflexivity.
Qed.

Lemma mean2_length (a b : Np.ndarray) :
  length a = length b -> length (Np.mean2 a b) = length a.
Proof.
  revert b; induction a as [|x a IH]; intros [|y b]; simpl; try discriminate; auto.
Qed.


Lemma normalized_length (v : Np.ndarray) : length (normalized v) = length v.
Proof. unfold normalized, Np.div_scalar. apply length_map. Qed.

Lemma post_length (normalize : bool) (v : Np.ndarray) :
  length (post normalize v) = length v.
Proof. destruct normalize; [apply normalized_length | reflexivity]. Qed.

Lemma x_value_spec (average : bool) (n : nat) (x : F.float) :
  x_value average n x ->
  x = (if average then uniform n else F.pzero) /\ (average = true -> n <> 0).
Proof.
  unfold x_value, uniform_value. destruct average.
  - destruct n; [discriminate|]. intros [= <-]. split; [reflexivity | discriminate].
  - intros ->. split; [reflexivity | discriminate].
Qed.

(** ** Claims about the expansion and the missing-data entry *)

(** C6: in every table the helper returns, whatever the two flags, the
    entry of the missing-data marker ['.'] is the vector of
    [feature_count] zeros (each exactly [+0.0]), where [feature_count] is
    the helper's variable, the number of fields of the last data row.  The
    entry is set after the renormalisation loop has finished, as a fresh
    array that no division has touched. *)
Theorem C6_missing_marker_is_zero
    (s : string) (normalize average : bool) (tbl : env) :
  _res_to_feature_helper s normalize average = Ok tbl ->
  lookup tbl MISSINGAA = Some (Np.full (feature_count tbl) F.pzero) /\
  feature_count tbl = last (map width (rows s)) 0 /\
  exists st',
    (st <- expanded s average ;; renormalize normalize st) = Ok st' /\
    tbl = add_missing st' /\
    Dict.get MISSINGAA (aa_to_aadist tbl) = Some (length (store st')).
Proof.
  intros H.
  destruct (table_lookup _ _ _ _ H) as (st & He & _ & _ & Hfc & Hdot & _).
  split; [rewrite Hfc; assumption|]. split.
  - rewrite Hfc.
    destruct (expanded_ok _ _ _ He)
      as (st0 & c & k & x & d & n & i & l & e & q & Hp & _ & _ & _ & _ & _ & _
          & _ & _ & _ & _ & _ & _ & _ & ->).
    apply (parse_lines_count _ _ _ Hp).
  - apply helper_ok in H as (st1 & st' & He' & Hr & ->).
    exists st'. rewrite He'. simpl. split; [assumption|]. split; [reflexivity|].
    apply DictFacts.get_set_eq.
Qed.

Lemma full_div_scalar (n : nat) (x s : F.float) :
  Np.div_scalar (Np.full n x) s = Np.full n (F.div x s).
Proof.
  unfold Np.div_scalar, Np.full.
  induction n as [|n IH]; cbn [repeat map]; [reflexivity|].
  rewrite IH. reflexivity.
Qed.

(** C8: the X entry is a constant vector of [feature_count] components
    fixed by the two flags and by [feature_count] alone.  The expansion
    writes [feature_count] copies of [1.0/feature_count] (as a float32)
    for [average=true] and [feature_count] zeros for [average=false]; the
    table returns that vector when [normalize] is not set, and that
    vector with every component divided by the float32 sum of the vector
    when it is. *)
Theorem C8_x_from_flags_and_count
    (s : string) (normalize average : bool) (tbl : env) :
  _res_to_feature_helper s normalize average = Ok tbl ->
  let n := feature_count tbl in
  (average = true -> n <> 0) /\
  (exists st,
     expanded s average = Ok st /\ feature_count st = n /\
     lookup st "X"
     = Some (Np.full n (if average then uniform n else F.pzero))) /\
  lookup tbl "X" = Some (returned_x normalize average n).
Proof.
  intros H n.
  destruct (table_lookup _ _ _ _ H) as (st & He & _ & _ & Hfc & _ & Hlook & _).
  fold n in Hfc.
  destruct (expanded_ok _ _ _ He)
    as (st0 & c & k & x & d & n0 & i & l & e & q & _ & Hwf0 & Hc & Hk & Hx & _
        & _ & _ & _ & _ & _ & _ & _ & _ & ->).
  apply x_value_spec in Hx as [-> Hn].
  destruct (expand_with_ambiguous st0 c k
              (if average then uniform (feature_count st0) else F.pzero)
              d n0 i l e q Hwf0 Hc Hk) as (HX & _).
  change (feature_count (expand_with st0 c k
            (if average then uniform (feature_count st0) else F.pzero)
            d n0 i l e q)) with (feature_count st0) in Hfc.
  unfold n in *. rewrite Hfc.
  split; [exact Hn|]. split.
  - eexists. split; [exact He|]. split; [reflexivity|exact HX].
  - rewrite Hlook by discriminate. rewrite HX. unfold returned_x.
    destruct normalize; cbn [option_map post]; [|reflexivity].
    unfold normalized. rewrite full_div_scalar. reflexivity.
Qed.


(** ** Claims about the synonyms and the shape of the table *)

(** C2, as the code has it: in every table the helper returns, U holds
    the same values as C and O the same values as K.  With
    [normalize=true] the two entries of a pair are different array
    objects; with [normalize=false] they are one and the same array
    object, because the helper stores a reference and makes no copy. *)
Theorem C2_synonyms_equal_by_value
    (s : string) (normalize average : bool) (tbl : env) :
  _res_to_feature_helper s normalize average = Ok tbl ->
  (exists u, lookup tbl "U" = Some u /\ lookup tbl "C" = Some u) /\
  (exists o, lookup tbl "O" = Some o /\ lookup tbl "K" = Some o) /\
  (if normalize
   then ~ aliased tbl "U" "C" /\ ~ aliased tbl "O" "K"
   else aliased tbl "U" "C" /\ aliased tbl "O" "K").
Proof.
  intros H.
  destruct (table_lookup _ _ _ _ H) as (st1 & He1 & _ & _ & _ & _ & Hlook & _).
  apply helper_spec in H
    as (st & st' & He & Hwf & _ & Hwf' & _ & _ & _ & Haddr & ->).
  rewrite He in He1; injection He1 as <-.
  destruct (expanded_ok _ _ _ He)
    as (st0 & c & k & x & d & n & i & l & e & q & _ & Hwf0 & Hc & Hk & _ & _ & _
        & _ & _ & _ & _ & _ & _ & _ & ->).
  destruct (expand_with_synonyms st0 c k x d n i l e q Hwf0 Hc Hk)
    as (HU & HC & HO & HK).
  destruct (expand_with_addresses st0 c k x d n i l e q)
    as (AU & AC & AO & AK); try assumption.
  split; [|split].
  - exists (post normalize (deref st0 c)).
    rewrite !Hlook by discriminate. rewrite HU, HC. auto.
  - exists (post normalize (deref st0 k)).
    rewrite !Hlook by discriminate. rewrite HO, HK. auto.
  - unfold aliased, add_missing; simpl.
    rewrite !DictFacts.get_set_neq by discriminate.
    destruct normalize.
    + split; intros (a & G1 & G2); discriminate (Haddr _ _ _ G1 G2).
    + subst st'. split; [exists c | exists k]; auto.
Qed.

Lemma all_length_setnew (m : nat) (k : string) (v : Np.ndarray) (st : env) :
  wf st -> all_length m st -> length v = m -> all_length m (setnew k v st).
Proof.
  intros Hwf Hlen Hv k' w. rewrite lookup_setnew by assumption.
  destruct (String.eqb k' k); [intros [= <-]; assumption | apply Hlen].
Qed.

Lemma all_length_setitem (m : nat) (k k0 : string) (a : nat) (st : env) :
  all_length m st -> Dict.get k0 (aa_to_aadist st) = Some a ->
  all_length m (setitem k a st).
Proof.
  intros Hlen Ha k' w. rewrite lookup_setitem.
  destruct (String.eqb k' k); [|apply Hlen].
  intros [= <-]. apply (Hlen k0). apply lookup_get; assumption.
Qed.

Lemma last_constant (m d : nat) (l : list nat) :
  l <> [] -> (forall y, In y l -> y = m) -> last l d = m.
Proof.
  revert d; induction l as [|y l IH]; intros d; [congruence|]. intros _ Hall.
  rewrite last_cons. destruct l as [|z l].
  - apply Hall; left; reflexivity.
  - apply IH; [discriminate|]. intros w Hw; apply Hall; right; assumption.
Qed.

Lemma all_codes_NoDup : NoDup all_codes.
Proof.
  unfold all_codes, standard_codes, derived_codes, MISSINGAA; simpl.
  repeat (constructor; [simpl; intuition discriminate|]). constructor.
Qed.

Lemma expand_with_all_length (m : nat) (st0 : env) (c k : nat) (x : F.float)
    (d n i l e q : Np.ndarray) :
  wf st0 ->
  Dict.get "C" (aa_to_aadist st0) = Some c ->
  Dict.get "K" (aa_to_aadist st0) = Some k ->
  all_length m st0 -> feature_count st0 = m ->
  length d = m -> length n = m -> length i = m -> length l = m ->
  length e = m -> length q = m ->
  all_length m (expand_with st0 c k x d n i l e q).
Proof.
  intros Hwf Hc Hk Hlen Hfc Hd Hn Hi Hl He Hq.
  destruct (expand_with_wf st0 c k x d n i l e q Hwf Hc Hk) as [Hwf1 _].
  unfold expand_with.
  repeat (apply all_length_setnew;
          [wf_tac | | try (rewrite mean2_length; congruence)]).
  - apply (all_length_setitem m "O" "K"); [|simpl; rewrite DictFacts.get_set; exact Hk].
    apply (all_length_setitem m "U" "C"); assumption.
  - unfold Np.full. rewrite repeat_length. assumption.
Qed.

(** C3, as the code has it: when the data rows of the raw text name every
    one of the 20 standard codes and nothing outside the 27 codes, and
    every data row has the same number [m] of numeric fields, then a table
    the helper returns has exactly the 27 codes as its keys, each with a
    vector of length [m], and [feature_count] is [m], the number of fields
    of the first (and of every) data row. *)
Theorem C3_table_shape
    (s : string) (normalize average : bool) (tbl : env) (m : nat) :
  _res_to_feature_helper s normalize average = Ok tbl ->
  (forall r, In r (rows s) ->
     (exists aa, hd_error r = Some aa /\ In aa all_codes) /\ width r = m) ->
  (forall c, In c standard_codes -> exists toks, In (c :: toks) (rows s)) ->
  length (aa_to_aadist tbl) = 27 /\
  (forall k, In k (Dict.keys (aa_to_aadist tbl)) <-> In k all_codes) /\
  (forall k, In k all_codes -> exists v, lookup tbl k = Some v /\ length v = m) /\
  feature_count tbl = m /\
  hd 0 (map width (rows s)) = m.
Proof.
  intros H Hrows Hstd.
  destruct (table_lookup _ _ _ _ H)
    as (st & He & Hwf & Hwft & Hfc & Hdot & Hlook & Hkeys).
  destruct (expanded_ok _ _ _ He)
    as (st0 & c & k & x & d & n & i & l & e & q & Hp & Hwf0 & Hc & Hk & _ & Hd & Hn
        & Hdn & Hi & Hl & Hil & He' & Hq & Heq & ->).
  unfold parse_table in Hp. fold (rows s) in *.
  (* the parsed state *)
  assert (Hlen0 : all_length m st0).
  { refine (parse_lines_all_length m _ _ st0 _ wf_init _ Hp).
    - intros r Hr. apply Hrows; assumption.
    - intros k' v; discriminate. }
  assert (Hne : map width (rows s) <> []).
  { destruct (Hstd "A") as (toks & Hin); [left; reflexivity|].
    unfold rows in *. destruct (rows_of (Text.readlines s)); [destruct Hin | discriminate]. }
  assert (Hall : forall y, In y (map width (rows s)) -> y = m).
  { intros y Hy. apply in_map_iff in Hy as (r & <- & Hr). apply Hrows; assumption. }
  assert (Hfc0 : feature_count st0 = m).
  { rewrite (parse_lines_count _ _ _ Hp). apply last_constant; assumption. }
  assert (Hkeys0 : forall k', In k' (Dict.keys (aa_to_aadist st0)) -> In k' all_codes).
  { intros k' Hk'.
    destruct (parse_lines_keys_from_rows _ _ _ Hp k' Hk') as [[] | (toks & Hin)].
    destruct (Hrows _ Hin) as [(aa & [= <-] & Haa) _]. assumption. }
  assert (Hlen : all_length m (expand_with st0 c k x d n i l e q)).
  { apply expand_with_all_length; try assumption;
      try (eapply Hlen0; eassumption);
      rewrite <- ?Hdn, <- ?Hil, <- ?Heq; eapply Hlen0; eassumption. }
  assert (Hiff : forall k', In k' (Dict.keys (aa_to_aadist tbl)) <-> In k' all_codes).
  { intros k'. rewrite Hkeys, expand_with_keys. split.
    - intros [-> | [Hder | Hbase]].
      + unfold all_codes. rewrite !in_app_iff. simpl; auto.
      + unfold all_codes. rewrite !in_app_iff. auto.
      + auto.
    - unfold all_codes. rewrite !in_app_iff.
      intros [Hs | [Hder | [<- | []]]]; auto.
      destruct (Hstd k' Hs) as (toks & Hin).
      right; right. apply (parse_lines_rows_in_keys _ _ _ _ _ Hp Hin). }
  split; [|split; [exact Hiff | split; [|split]]].
  - rewrite <- (length_map fst). change (map fst (aa_to_aadist tbl))
      with (Dict.keys (aa_to_aadist tbl)).
    rewrite (Permutation_length
               (NoDup_Permutation (proj1 Hwft) all_codes_NoDup Hiff)).
    reflexivity.
  - intros k' Hk'. apply Hiff in Hk'.
    destruct (string_dec k' MISSINGAA) as [-> | Hneq].
    + eexists; split; [exact Hdot|]. unfold Np.full. rewrite repeat_length.
      exact Hfc0.
    + apply DictFacts.get_in_keys in Hk'.
      destruct (lookup tbl k') as [v|] eqn:E;
        [|apply lookup_none in E; contradiction].
      exists v; split; [reflexivity|].
      rewrite (Hlook k' Hneq) in E.
      destruct (lookup (expand_with st0 c k x d n i l e q) k') as [w|] eqn:Ew;
        [|discriminate].
      injection E as <-. rewrite post_length. eapply Hlen; eassumption.
  - rewrite Hfc. exact Hfc0.
  - destruct (map width (rows s)) as [|y ys]; [congruence|].
    simpl. apply Hall; left; reflexivity.
Qed.

(** ** Failures of the expansion *)

Lemma add_mean_cases (k k1 k2 : string) (st : env) :
  add_mean k k1 k2 st =
  match lookup st k1, lookup st k2 with
  | None, _ => Raise (KeyError k1)
  | Some _, None => Raise (KeyError k2)
  | Some va, Some vb =>
      if length va =? length vb
      then Ok (setnew k (Np.mean2 va vb) st)
      else Raise (ValueError "inhomogeneous shape")
  end.
Proof.
  unfold add_mean, getitem, np_mean, lookup.
  destruct (Dict.get k1 (aa_to_aadist st)); [|reflexivity].
  destruct (Dict.get k2 (aa_to_aadist st)); [|reflexivity]. simpl.
  destruct (_ =? _); reflexivity.
Qed.

Lemma helper_expanded_raise (s : string) (normalize average : bool) (e : exn) :
  expanded s average = Raise e ->
  _res_to_feature_helper s normalize average = Raise e.
Proof. intros H; unfold _res_to_feature_helper; rewrite H; reflexivity. Qed.

Lemma means_raise (st0 stX : env) (c : string) :
  wf stX ->
  (forall r, In r ["D"; "N"; "I"; "L"; "E"; "Q"] -> lookup stX r = lookup st0 r) ->
  find (absent st0) ["D"; "N"; "I"; "L"; "E"; "Q"] = Some c ->
  exists e,
    (st <- add_mean "B" "D" "N" stX ;;
     st <- add_mean "J" "I" "L" st ;;
     add_mean "Z" "E" "Q" st) = Raise e /\
    mean_failure st0 c e.
Proof.
  intros Hwf Hsame Hm. unfold mean_failure, averaged_pairs.
  assert (HD := Hsame "D"). assert (HN := Hsame "N"). assert (HI := Hsame "I").
  assert (HL := Hsame "L"). assert (HE := Hsame "E"). assert (HQ := Hsame "Q").
  simpl in HD, HN, HI, HL, HE, HQ. simpl find in Hm. unfold absent in Hm.
  rewrite add_mean_cases, HD, HN by tauto.
  destruct (lookup st0 "D") as [d|] eqn:ED;
    [|injection Hm as <-; eexists; split; [reflexivity | auto]].
  destruct (lookup st0 "N") as [n|] eqn:EN;
    [|injection Hm as <-; eexists; split; [reflexivity | auto]].
  destruct (length d =? length n) eqn:Edn.
  2:{ apply Nat.eqb_neq in Edn. eexists; split; [reflexivity|].
      right. exists "D", "N", d, n. simpl; auto 10. }
  simpl bind. rewrite add_mean_cases. look. rewrite HI, HL by tauto.
  destruct (lookup st0 "I") as [i|] eqn:EI;
    [|injection Hm as <-; eexists; split; [reflexivity | auto]].
  destruct (lookup st0 "L") as [l|] eqn:EL;
    [|injection Hm as <-; eexists; split; [reflexivity | auto]].
  destruct (length i =? length l) eqn:Eil.
  2:{ apply Nat.eqb_neq in Eil. eexists; split; [reflexivity|].
      right. exists "I", "L", i, l. simpl; auto 10. }
  simpl bind. rewrite add_mean_cases. look. rewrite HE, HQ by tauto.
  destruct (lookup st0 "E") as [e|] eqn:EE;
    [|injection Hm as <-; eexists; split; [reflexivity | auto]].
  destruct (lookup st0 "Q") as [q|] eqn:EQ;
    [|injection Hm as <-; eexists; split; [reflexivity | auto]].
  discriminate Hm.
Qed.

(** C7, as the code has it: when the parsed mapping lacks one of C, K,
    D, N, I, L, E, Q, the helper returns no table.  It raises [KeyError]
    naming the first absent code in the order in which the expansion reads
    them, unless an earlier step of the expansion has failed already:
    [1.0/feature_count] raises [ZeroDivisionError] when [average] is set
    and the last data row had no numeric field, and the average of two
    present rows of different lengths is refused. *)
Theorem C7_missing_base_residue
    (s : string) (normalize average : bool) (st0 : env) (c0 : string) :
  parse_table s = Ok st0 ->
  In c0 required_codes -> lookup st0 c0 = None ->
  exists c e,
    first_missing st0 = Some c /\
    _res_to_feature_helper s normalize average = Raise e /\
    (mean_failure st0 c e \/
     (e = ZeroDivisionError /\ average = true /\ feature_count st0 = 0 /\
      lookup st0 "C" <> None /\ lookup st0 "K" <> None)).
Proof.
  intros Hp Hin Hnone.
  pose proof (parse_lines_wf _ _ _ wf_init Hp) as Hwf0.
  destruct (first_missing st0) as [c|] eqn:Hm.
  2:{ exfalso. pose proof (find_none _ _ Hm c0 Hin) as Hf.
      unfold absent in Hf. rewrite Hnone in Hf. discriminate. }
  exists c. unfold first_missing in Hm. simpl find in Hm.
  unfold absent at 1 2 in Hm. unfold lookup at 1 2 in Hm.
  enough (exists e, expanded s average = Raise e /\
            (mean_failure st0 c e \/
             (e = ZeroDivisionError /\ average = true /\ feature_count st0 = 0 /\
              lookup st0 "C" <> None /\ lookup st0 "K" <> None)))
    as (e & He & Hkind)
    by (exists e; auto using helper_expanded_raise).
  unfold expanded. rewrite Hp. simpl bind. unfold add_synonyms, getitem.
  destruct (Dict.get "C" (aa_to_aadist st0)) as [ac|] eqn:HC;
    [|injection Hm as <-; eexists; split; [reflexivity | left; left; reflexivity]].
  simpl. rewrite DictFacts.get_set. simpl.
  destruct (Dict.get "K" (aa_to_aadist st0)) as [ak|] eqn:HK;
    [|injection Hm as <-; eexists; split; [reflexivity | left; left; reflexivity]].
  simpl bind.
  destruct (expand_with_wf st0 ac ak F.nan [] [] [] [] [] [] Hwf0 HC HK) as [Hwf1 _].
  unfold add_ambiguous. simpl feature_count.
  assert (Hrest : forall x, exists e,
            (st <- add_mean "B" "D" "N"
                     (setnew "X" (Np.full (feature_count st0) x)
                        (setitem "O" ak (setitem "U" ac st0))) ;;
             st <- add_mean "J" "I" "L" st ;;
             add_mean "Z" "E" "Q" st) = Raise e /\ mean_failure st0 c e).
  { intros x. apply means_raise; [wf_tac | | exact Hm].
    intros r Hr. simpl in Hr.
    destruct Hr as [<- | [<- | [<- | [<- | [<- | [<- | []]]]]]]; look; reflexivity. }
  destruct average.
  - unfold uniform_value. destruct (feature_count st0) as [|m] eqn:Hfc.
    + eexists; split; [reflexivity|]. right.
      unfold lookup. rewrite HC, HK. repeat split; discriminate.
    + simpl bind. destruct (Hrest (uniform (S m))) as (e & He & Hk).
      exists e; split; [exact He | left; exact Hk].
  - simpl bind. destruct (Hrest F.pzero) as (e & He & Hk).
    exists e; split; [exact He | left; exact Hk].
Qed.

(** ** Division by a zero sum *)

Lemma div_by_zero (x s : F.float) :
  F.is_zero s = true ->
  if F.is_zero x || F.is_nan x then F.div x s = F.nan
  else F.is_inf (F.div x s) = true.
Proof. destruct s; try discriminate. intros _. destruct x; reflexivity. Qed.

Lemma Forall2_map_same {A B : Type} (P : A -> B -> Prop) (f : A -> B) (l : list A) :
  (forall x, P x (f x)) -> Forall2 P l (map f l).
Proof. intros H; induction l; simpl; constructor; auto. Qed.

Lemma sum_seq_pzero (a : Np.ndarray) (acc : F.float) :
  all_pzero a -> acc = F.pzero \/ (acc = F.nzero /\ a <> []) ->
  Np.sum_seq acc a = F.pzero.
Proof.
  unfold Np.sum_seq, all_pzero. revert acc.
  induction a as [|x a IH]; intros acc Ha Hacc; simpl.
  - destruct Hacc as [-> | [_ Hne]]; [reflexivity | congruence].
  - inversion Ha as [|? ? Hx Ha']; subst.
    apply IH; [assumption|]. left. destruct Hacc as [-> | [-> _]]; reflexivity.
Qed.

Lemma sum8_pzero (k : nat) :
  forall r a, all_pzero r -> all_pzero a ->
  all_pzero (fst (Np.sum8 r a k)) /\ all_pzero (snd (Np.sum8 r a k)).
Proof.
  induction k as [|k IH]; intros r a Hr Ha; [simpl; split; assumption|].
  simpl.
  destruct r as [|r0 [|r1 [|r2 [|r3 [|r4 [|r5 [|r6 [|r7 [|r8 r]]]]]]]]];
    try (split; assumption).
  destruct a as [|a0 [|a1 [|a2 [|a3 [|a4 [|a5 [|a6 [|a7 a]]]]]]]];
    try (split; assumption).
  unfold all_pzero in *.
  repeat match goal with
         | H : Forall _ (_ :: _) |- _ => inversion H; clear H; subst
         end.
  apply IH; [repeat constructor | assumption].
Qed.

Lemma sum_block_pzero (a : Np.ndarray) :
  all_pzero a -> a <> [] -> Np.sum_block a = F.pzero.
Proof.
  intros Ha Hne. unfold Np.sum_block.
  assert (H8 : all_pzero (firstn 8 a) /\ all_pzero (skipn 8 a)).
  { unfold all_pzero. rewrite <- Forall_app, firstn_skipn. assumption. }
  destruct H8 as [Hf Hs].
  destruct (sum8_pzero (length a / 8 - 1) _ _ Hf Hs) as [Hr Hrest].
  destruct (Np.sum8 (firstn 8 a) (skipn 8 a) (length a / 8 - 1)) as [r rest].
  simpl in Hr, Hrest.
  destruct r as [|r0 [|r1 [|r2 [|r3 [|r4 [|r5 [|r6 [|r7 [|r8 r]]]]]]]]];
    try (apply sum_seq_pzero; [assumption | right; split; [reflexivity | assumption]]).
  unfold all_pzero in *.
  repeat match goal with
         | H : Forall _ (_ :: _) |- _ => inversion H; clear H; subst
         end.
  apply sum_seq_pzero; [assumption | left; reflexivity].
Qed.

Lemma pairwise_sum_S (fuel : nat) (a : Np.ndarray) :
  Np.pairwise_sum (S fuel) a
  = if length a <? 8 then Np.sum_seq F.nzero a
    else if length a <=? 128 then Np.sum_block a
    else F.add (Np.pairwise_sum fuel
                  (firstn (length a / 2 - (length a / 2) mod 8) a))
               (Np.pairwise_sum fuel
                  (skipn (length a / 2 - (length a / 2) mod 8) a)).
Proof. reflexivity. Qed.

Lemma pairwise_sum_pzero (fuel : nat) :
  forall a, all_pzero a -> a <> [] -> Np.pairwise_sum fuel a = F.pzero.
Proof.
  induction fuel as [|fuel IH]; intros a Ha Hne.
  - unfold Np.pairwise_sum.
    destruct (length a <? 8);
      [apply sum_seq_pzero; [assumption | right; split; [reflexivity | assumption]]|].
    destruct (length a <=? 128); apply sum_block_pzero; assumption.
  - rewrite pairwise_sum_S.
    destruct (length a <? 8);
      [apply sum_seq_pzero; [assumption | right; split; [reflexivity | assumption]]|].
    destruct (length a <=? 128) eqn:E; [apply sum_block_pzero; assumption|].
    apply Nat.leb_gt in E.
    set (n2 := length a / 2 - (length a / 2) mod 8).
    assert (Hn2 : 0 < n2 < length a).
    { unfold n2.
      pose proof (Nat.mod_upper_bound (length a / 2) 8 ltac:(discriminate)).
      pose proof (Nat.Div0.div_lt_upper_bound (length a) 2 (length a) ltac:(lia)).
      assert (64 <= length a / 2)
        by (apply (Nat.div_le_lower_bound (length a) 2 64); lia).
      lia. }
    assert (Hsplit : all_pzero (firstn n2 a) /\ all_pzero (skipn n2 a)).
    { unfold all_pzero. rewrite <- Forall_app, firstn_skipn. assumption. }
    rewrite (IH (firstn n2 a)), (IH (skipn n2 a)); try tauto.
    + intros Hnil. apply (f_equal (@length _)) in Hnil.
      rewrite length_skipn in Hnil. simpl in Hnil. lia.
    + intros Hnil. apply (f_equal (@length _)) in Hnil.
      rewrite length_firstn in Hnil. simpl in Hnil. lia.
Qed.

Lemma sum_full_pzero (m : nat) : Np.sum (Np.full m F.pzero) = F.pzero.
Proof.
  unfold Np.sum, Np.full. destruct m as [|m]; [reflexivity|].
  change (repeat F.pzero (S m)) with (F.pzero :: repeat F.pzero m).
  apply pairwise_sum_pzero; [|discriminate].
  change (F.pzero :: repeat F.pzero m) with (repeat F.pzero (S m)).
  apply Forall_forall. intros x Hx. apply repeat_spec in Hx. assumption.
Qed.

Lemma normalized_full_pzero (m : nat) :
  normalized (Np.full m F.pzero) = Np.full m F.nan.
Proof.
  unfold normalized. rewrite sum_full_pzero. unfold Np.div_scalar, Np.full.
  induction m as [|m IH]; simpl; [reflexivity | f_equal; exact IH].
Qed.

(** ** Claims about the renormalisation *)

(** The renormalisation never fails: from a state reached by the
    expansion the helper always goes on to return a table. *)
Lemma helper_normalize_ok (s : string) (average : bool) (st : env) :
  expanded s average = Ok st ->
  exists tbl, _res_to_feature_helper s true average = Ok tbl.
Proof.
  intros He.
  assert (Hwf : wf st).
  { destruct (expanded_ok _ _ _ He)
      as (st0 & c & k & x & d & n & i & l & e & q & _ & Hwf0 & Hc & Hk & _ & _ & _
          & _ & _ & _ & _ & _ & _ & _ & ->).
    apply expand_with_wf; assumption. }
  destruct (renormalize_ok true st Hwf) as (st' & Hr & _).
  exists (add_missing st'). unfold _res_to_feature_helper.
  rewrite He. cbn [bind]. rewrite Hr. reflexivity.
Qed.

(** C1, as the code has it: with [normalize=true] an entry whose
    components sum to exactly zero does not stop the construction.  The
    table is returned, and that entry holds the quotients by zero: NaN
    where the component was zero (or NaN), an infinity elsewhere.  In
    particular X is all NaN when [average=false]. *)
Theorem C1_zero_sum_gives_nan
    (s : string) (average : bool) (st : env) :
  expanded s average = Ok st ->
  exists tbl,
    _res_to_feature_helper s true average = Ok tbl /\
    (forall k v, k <> MISSINGAA -> lookup st k = Some v ->
                 F.is_zero (Np.sum v) = true ->
                 exists w, lookup tbl k = Some w /\ Forall2 zero_quotient v w) /\
    (average = false ->
     lookup tbl "X" = Some (Np.full (feature_count st) F.nan)).
Proof.
  intros He. destruct (helper_normalize_ok _ _ _ He) as (tbl & H).
  exists tbl. split; [assumption|].
  destruct (table_lookup _ _ _ _ H) as (st1 & He1 & _ & _ & _ & _ & Hlook & _).
  rewrite He in He1; injection He1 as <-.
  split.
  - intros k v Hk Hv Hz. exists (normalized v).
    rewrite (Hlook k Hk), Hv. split; [reflexivity|].
    unfold normalized, Np.div_scalar. apply Forall2_map_same.
    intros x. apply div_by_zero; assumption.
  - intros ->.
    destruct (expanded_ok _ _ _ He)
      as (st0 & c & k & x & d & n & i & l & e & q & _ & Hwf0 & Hc & Hk & Hx & _ & _
          & _ & _ & _ & _ & _ & _ & _ & ->).
    simpl in Hx; subst x.
    destruct (expand_with_ambiguous st0 c k F.pzero d n i l e q Hwf0 Hc Hk)
      as (HX & _).
    rewrite Hlook, HX by discriminate. simpl.
    rewrite normalized_full_pzero. reflexivity.
Qed.

Lemma all_close_sound (tbl : env) (k : string) (v : Np.ndarray) :
  all_close tbl = true -> k <> MISSINGAA -> lookup tbl k = Some v ->
  F.close_to_one (Np.sum v) = true.
Proof.
  unfold all_close, lookup. intros Hall Hk Hv.
  destruct (Dict.get k (aa_to_aadist tbl)) as [a|] eqn:Ha; [|discriminate].
  injection Hv as <-. apply DictFacts.get_in in Ha.
  rewrite forallb_forall in Hall. specialize (Hall _ Ha). simpl in Hall.
  apply orb_prop in Hall as [Hall | Hall]; [|assumption].
  apply String.eqb_eq in Hall. contradiction.
Qed.

Lemma JTTP01dist_all_close :
  match _res_to_feature_helper JTT_P01_DATA true true with
  | Ok tbl => all_close tbl
  | Raise _ => false
  end = true.
Proof. vm_compute. reflexivity. Qed.

(** ** Rounding errors of the float32 operations

    What [SpecFloat]'s addition and division return, as real numbers:
    the exact result with a relative error of at most [2^-24], and for a
    quotient in the subnormal range an absolute error of at most half the
    least subnormal number. *)

Lemma bpow_pos (e : Z) : (0 < bpow e)%R.
Proof. apply powerRZ_lt. lra. Qed.

Lemma bpow_add (a b : Z) : bpow (a + b) = (bpow a * bpow b)%R.
Proof. apply powerRZ_add. lra. Qed.

Lemma bpow_0 : bpow 0 = 1%R.
Proof. reflexivity. Qed.

Lemma bpow_1 : bpow 1 = 2%R.
Proof. unfold bpow. simpl. lra. Qed.

Lemma bpow_m1 : bpow (-1) = (/ 2)%R.
Proof. unfold bpow. simpl. f_equal. lra. Qed.

Lemma bpow_le (a b : Z) : (a <= b)%Z -> (bpow a <= bpow b)%R.
Proof.
  intros H. replace b with (a + (b - a))%Z by lia. rewrite bpow_add.
  assert (1 <= bpow (b - a))%R.
  { unfold bpow. destruct (b - a)%Z eqn:E; simpl; try lra; try lia.
    apply pow_R1_Rle. lra. }
  pose proof (bpow_pos a). nra.
Qed.

Lemma bpow_lt (a b : Z) : (a < b)%Z -> (bpow a < bpow b)%R.
Proof.
  intros H. replace b with (a + 1 + (b - a - 1))%Z by lia.
  rewrite !bpow_add, bpow_1.
  assert (1 <= bpow (b - a - 1))%R.
  { rewrite <- bpow_0. apply bpow_le. lia. }
  pose proof (bpow_pos a). nra.
Qed.

Lemma bpow_IZR (k : Z) : (0 <= k)%Z -> bpow k = IZR (2 ^ k).
Proof.
  intros H. unfold bpow. destruct k as [|p|p]; try lia; [reflexivity|].
  simpl powerRZ. rewrite pow_IZR. f_equal.
  rewrite positive_nat_Z. reflexivity.
Qed.

Lemma digits2_pos_bounds (p : positive) :
  (2 ^ (Zpos (digits2_pos p) - 1) <= Zpos p < 2 ^ Zpos (digits2_pos p))%Z.
Proof.
  induction p as [p IH|p IH|]; simpl digits2_pos.
  - rewrite Pos2Z.inj_succ.
    replace (Z.succ (Zpos (digits2_pos p)) - 1)%Z
      with (Z.succ (Zpos (digits2_pos p) - 1)) by lia.
    rewrite !Z.pow_succ_r by lia. lia.
  - rewrite Pos2Z.inj_succ.
    replace (Z.succ (Zpos (digits2_pos p)) - 1)%Z
      with (Z.succ (Zpos (digits2_pos p) - 1)) by lia.
    rewrite !Z.pow_succ_r by lia. lia.
  - simpl. lia.
Qed.

Lemma Zdigits2_nonneg (m : Z) : (0 <= Zdigits2 m)%Z.
Proof. destruct m; simpl; lia. Qed.

Lemma Zdigits2_upper (m : Z) : (0 <= m)%Z -> (m < 2 ^ Zdigits2 m)%Z.
Proof.
  destruct m as [|p|p]; intros H; try lia; simpl; [lia|].
  apply digits2_pos_bounds.
Qed.

Lemma Zdigits2_lower (m : Z) : (0 < m)%Z -> (2 ^ (Zdigits2 m - 1) <= m)%Z.
Proof.
  destruct m as [|p|p]; intros H; try lia; simpl.
  apply digits2_pos_bounds.
Qed.

Lemma Zdigits2_le (m k : Z) :
  (0 <= m)%Z -> (0 <= k)%Z -> (m < 2 ^ k)%Z -> (Zdigits2 m <= k)%Z.
Proof.
  intros Hm Hk H. destruct (Z.eq_dec m 0) as [->|Hn]; [simpl; lia|].
  pose proof (Zdigits2_lower m ltac:(lia)) as Hl.
  destruct (Z_le_gt_dec (Zdigits2 m) k) as [|Hgt]; [assumption|exfalso].
  assert (2 ^ k <= 2 ^ (Zdigits2 m - 1))%Z by (apply Z.pow_le_mono_r; lia).
  lia.
Qed.

Lemma Zdigits2_ge (m k : Z) :
  (0 <= k)%Z -> (2 ^ k <= m)%Z -> (k + 1 <= Zdigits2 m)%Z.
Proof.
  intros Hk H.
  assert (0 < 2 ^ k)%Z by (apply Z.pow_pos_nonneg; lia).
  pose proof (Zdigits2_upper m ltac:(lia)) as Hu.
  pose proof (Zdigits2_nonneg m).
  destruct (Z_le_gt_dec (k + 1) (Zdigits2 m)) as [|Hgt]; [assumption|exfalso].
  assert (2 ^ Zdigits2 m <= 2 ^ k)%Z by (apply Z.pow_le_mono_r; lia).
  lia.
Qed.

Lemma inbetween_bounds m x l :
  inbetween m x l -> (IZR m <= x < IZR m + 1)%R.
Proof. destruct l as [|[]]; simpl; intros; lra. Qed.

Lemma loc_of_record_of_loc m l :
  loc_of_shr_record (shr_record_of_loc m l) = l /\
  shr_m (shr_record_of_loc m l) = m.
Proof. destruct l as [|[]]; simpl; auto. Qed.

Lemma IZR_xO p : IZR (Zpos p~0) = (2 * IZR (Zpos p))%R.
Proof. rewrite Pos2Z.inj_xO, mult_IZR. reflexivity. Qed.

Lemma IZR_xI p : IZR (Zpos p~1) = (2 * IZR (Zpos p) + 1)%R.
Proof. rewrite Pos2Z.inj_xI, plus_IZR, mult_IZR. reflexivity. Qed.

Lemma shr_1_inbetween (mrs : shr_record) (x : R) :
  (0 <= shr_m mrs)%Z ->
  inbetween (shr_m mrs) x (loc_of_shr_record mrs) ->
  (0 <= shr_m (shr_1 mrs))%Z /\
  inbetween (shr_m (shr_1 mrs)) (x * / 2) (loc_of_shr_record (shr_1 mrs)).
Proof.
  destruct mrs as [m r s]. simpl shr_m. intros Hm H.
  destruct m as [|p|p]; [| |lia].
  - destruct r, s; cbv [shr_1 loc_of_shr_record shr_m inbetween orb] in *;
      split; try lia; lra.
  - destruct p as [q|q|].
    + pose proof (IZR_xI q). destruct r, s;
        cbv [shr_1 loc_of_shr_record shr_m inbetween orb] in *;
        split; try lia; lra.
    + pose proof (IZR_xO q). destruct r, s;
        cbv [shr_1 loc_of_shr_record shr_m inbetween orb] in *;
        split; try lia; lra.
    + destruct r, s;
        cbv [shr_1 loc_of_shr_record shr_m inbetween orb] in *;
        split; try lia; lra.
Qed.

Lemma iter_pos_shr_1 (p : positive) : forall (mrs : shr_record) (x : R),
  (0 <= shr_m mrs)%Z ->
  inbetween (shr_m mrs) x (loc_of_shr_record mrs) ->
  (0 <= shr_m (SpecFloat.iter_pos shr_1 p mrs))%Z /\
  inbetween (shr_m (SpecFloat.iter_pos shr_1 p mrs)) (x * bpow (- Zpos p))
            (loc_of_shr_record (SpecFloat.iter_pos shr_1 p mrs)).
Proof.
  induction p as [p IH|p IH|]; intros mrs x Hm H; cbn [SpecFloat.iter_pos].
  - destruct (shr_1_inbetween mrs x Hm H) as [H1 H2].
    destruct (IH _ _ H1 H2) as [H3 H4].
    destruct (IH _ _ H3 H4) as [H5 H6]. split; [assumption|].
    replace (x * bpow (- Zpos p~1))%R
      with (x * / 2 * bpow (- Zpos p) * bpow (- Zpos p))%R; [assumption|].
    replace (- Zpos p~1)%Z with (-1 + (- Zpos p + - Zpos p))%Z by lia.
    rewrite !bpow_add, bpow_m1. ring.
  - destruct (IH _ _ Hm H) as [H3 H4].
    destruct (IH _ _ H3 H4) as [H5 H6]. split; [assumption|].
    replace (x * bpow (- Zpos p~0))%R
      with (x * bpow (- Zpos p) * bpow (- Zpos p))%R; [assumption|].
    replace (- Zpos p~0)%Z with (- Zpos p + - Zpos p)%Z by lia.
    rewrite !bpow_add. ring.
  - change (- Z.pos 1)%Z with (-1)%Z. rewrite bpow_m1.
    apply shr_1_inbetween; assumption.
Qed.

Lemma shr_inbetween (m : Z) (l : location) (e n : Z) (x : R) :
  (0 <= m)%Z -> inbetween m x l ->
  let '(mrs, e') := shr (shr_record_of_loc m l) e n in
  e' = Z.max e (e + n) /\ (0 <= shr_m mrs)%Z /\
  inbetween (shr_m mrs) (x * bpow (e - e')) (loc_of_shr_record mrs) /\
  (n <= 0 -> shr_m mrs = m /\ loc_of_shr_record mrs = l)%Z.
Proof.
  intros Hm H. destruct (loc_of_record_of_loc m l) as [Hl Hs].
  unfold shr. destruct n as [|p|p].
  - rewrite Hl, Hs. split; [lia|]. split; [assumption|].
    rewrite Z.sub_diag, bpow_0, Rmult_1_r. auto.
  - destruct (iter_pos_shr_1 p (shr_record_of_loc m l) x) as [H1 H2].
    + rewrite Hs. assumption.
    + rewrite Hs, Hl. assumption.
    + split; [lia|]. split; [assumption|].
      replace (e - (e + Zpos p))%Z with (- Zpos p)%Z by lia.
      split; [assumption|lia].
  - rewrite Hl, Hs. split; [lia|]. split; [assumption|].
    rewrite Z.sub_diag, bpow_0, Rmult_1_r. auto.
Qed.

Lemma round_nearest_even_spec (m : Z) (x : R) (l : location) :
  inbetween m x l ->
  let z := round_nearest_even m l in
  (z = m \/ z = m + 1)%Z /\ (Rabs (IZR z - x) <= / 2)%R /\
  (l = loc_Exact -> z = m /\ x = IZR m).
Proof.
  intros H. unfold round_nearest_even.
  destruct l as [|[]]; simpl in H.
  - split; [auto|]. split; [|auto]. subst x.
    rewrite Rminus_diag, Rabs_R0. lra.
  - destruct (Z.even m).
    + split; [auto|]. split; [|discriminate]. subst x.
      rewrite Rabs_left1; lra.
    + split; [auto|]. split; [|discriminate]. subst x.
      rewrite plus_IZR. rewrite Rabs_right; lra.
  - split; [auto|]. split; [|discriminate]. rewrite Rabs_left1; lra.
  - split; [auto|]. split; [|discriminate].
    rewrite plus_IZR. rewrite Rabs_right; lra.
Qed.

Lemma Rabs_le_inv (x a : R) : (Rabs x <= a)%R -> (- a <= x <= a)%R.
Proof. unfold Rabs. destruct (Rcase_abs x); lra. Qed.

Lemma Pos_iter_xO (m d : positive) :
  Zpos (Pos.iter xO m d) = (Zpos m * 2 ^ Zpos d)%Z.
Proof.
  induction d as [|d IH] using Pos.peano_ind.
  - simpl. lia.
  - rewrite Pos.iter_succ, Pos2Z.inj_xO, IH, Pos2Z.inj_succ.
    rewrite Z.pow_succ_r by lia. ring.
Qed.

Lemma shl_align_spec (mx : positive) (ex ez : Z) :
  (ez <= ex)%Z ->
  snd (shl_align mx ex ez) = ez /\
  Zpos (fst (shl_align mx ex ez)) = (Zpos mx * 2 ^ (ex - ez))%Z.
Proof.
  intros H. unfold shl_align. destruct (ez - ex)%Z as [|d|d] eqn:E.
  - cbn [fst snd]. replace (ex - ez)%Z with 0%Z by lia.
    rewrite Z.pow_0_r. lia.
  - lia.
  - cbn [fst snd]. rewrite Pos_iter_xO. split; [reflexivity|].
    f_equal. f_equal. lia.
Qed.

Lemma shl_align_none (mx : positive) (ex ez : Z) :
  (ex <= ez)%Z -> shl_align mx ex ez = (mx, ex).
Proof.
  intros H. unfold shl_align. destruct (ez - ex)%Z eqn:E; try reflexivity.
  lia.
Qed.

Lemma Zdigits2_shift (m s : Z) :
  (0 < m)%Z -> (0 <= s)%Z -> Zdigits2 (m * 2 ^ s) = (Zdigits2 m + s)%Z.
Proof.
  intros Hm Hs.
  pose proof (Zdigits2_lower m Hm) as Hl.
  pose proof (Zdigits2_upper m ltac:(lia)) as Hu.
  assert (Hd : (1 <= Zdigits2 m)%Z) by (destruct m; simpl; lia).
  assert (Hp : (0 < 2 ^ s)%Z) by (apply Z.pow_pos_nonneg; lia).
  apply Z.le_antisymm.
  - apply Zdigits2_le; [nia|lia|].
    rewrite Z.pow_add_r by lia. nia.
  - replace (Zdigits2 m + s)%Z with ((Zdigits2 m - 1 + s) + 1)%Z by lia.
    apply Zdigits2_ge; [lia|].
    rewrite Z.pow_add_r by lia. nia.
Qed.

Lemma mantissa_lower (m : positive) (e : Z) :
  (bpow (Zpos (digits2_pos m) - 1 + e) <= IZR (Zpos m) * bpow e)%R.
Proof.
  rewrite bpow_add. apply Rmult_le_compat_r; [apply Rlt_le, bpow_pos|].
  pose proof (digits2_pos_bounds m) as [Hl _].
  rewrite bpow_IZR by lia. apply IZR_le. assumption.
Qed.

(** The rounding of a mantissa with a location, for any format. *)
Section Rounding.

Variables prec emax : Z.
Hypothesis Hprec : (0 < prec)%Z.
Hypothesis Hemax : (2 <= emax)%Z.

(** What [binary_round_aux] computes: the mantissa is shifted to the
    exponent [e1] of the format, rounded to the nearest integer [z] (ties
    to even), and renormalised by at most one more exact shift. *)
Lemma round_aux_shape (sx : bool) (mx ex : Z) (lx : location) (x : R) :
  (0 <= mx)%Z -> inbetween mx x lx ->
  let e1 := Z.max ex (fexp prec emax (Zdigits2 mx + ex)) in
  exists z m2 e2 : Z,
    (0 <= z)%Z /\
    (Rabs (IZR z - x * bpow (ex - e1)) <= / 2)%R /\
    (lx = loc_Exact -> e1 = ex -> IZR z = x) /\
    (0 <= m2)%Z /\ (e1 <= e2 <= e1 + 1)%Z /\
    (IZR m2 * bpow e2 = IZR z * bpow e1)%R /\
    binary_round_aux prec emax sx mx ex lx =
    match m2 with
    | Z0 => S754_zero sx
    | Zpos m => if (e2 <=? emax - prec)%Z then S754_finite sx m e2
                else S754_infinity sx
    | Zneg _ => S754_nan
    end.
Proof.
  intros Hm Hx e1. unfold binary_round_aux, shr_fexp.
  pose proof (shr_inbetween mx lx ex
                (fexp prec emax (Zdigits2 mx + ex) - ex) x Hm Hx) as H1.
  destruct (shr (shr_record_of_loc mx lx) ex
              (fexp prec emax (Zdigits2 mx + ex) - ex)) as [mrs' e'].
  destruct H1 as (He' & Hm' & Hin & Hno).
  assert (Ee : e' = e1) by (unfold e1; lia). clear He'. subst e'.
  destruct (round_nearest_even_spec _ _ _ Hin) as (Hz & Hzx & Hzex).
  set (z := round_nearest_even (shr_m mrs') (loc_of_shr_record mrs')) in *.
  set (d := Zdigits2 mx) in *.
  pose proof (Zdigits2_nonneg mx) as Hd. fold d in Hd.
  set (k := Z.max 0 (d + ex - e1)).
  assert (Hk1 : (k <= prec)%Z) by (unfold k, e1, fexp; lia).
  assert (Hfk : (fexp prec emax (k + e1) <= e1)%Z)
    by (unfold k, e1, fexp, emin; lia).
  assert (Hmk : (shr_m mrs' < 2 ^ k)%Z).
  { apply lt_IZR. rewrite <- bpow_IZR by (unfold k; lia).
    apply inbetween_bounds in Hin, Hx.
    pose proof (Zdigits2_upper mx Hm) as Hu. fold d in Hu.
    assert (Hx2 : (x <= bpow d)%R).
    { rewrite bpow_IZR by assumption.
      apply Rle_trans with (IZR (mx + 1)); [rewrite plus_IZR; lra|].
      apply IZR_le. lia. }
    apply Rle_lt_trans with (1 := proj1 Hin).
    destruct (Rle_lt_or_eq_dec _ _ Hx2) as [Hlt|Heq].
    - apply Rlt_le_trans with (bpow d * bpow (ex - e1))%R.
      + apply Rmult_lt_compat_r; [apply bpow_pos|assumption].
      + rewrite <- bpow_add. apply bpow_le. unfold k. lia.
    - exfalso. rewrite bpow_IZR in Heq by assumption.
      destruct Hx as [_ Hx]. rewrite Heq in Hx.
      rewrite <- plus_IZR in Hx. apply lt_IZR in Hx. lia. }
  assert (Hz0 : (0 <= z)%Z) by lia.
  assert (Hzk : (z <= 2 ^ k)%Z) by lia.
  assert (Hk0 : (0 <= k)%Z) by (unfold k; lia).
  pose proof (shr_inbetween z loc_Exact e1
                (fexp prec emax (Zdigits2 z + e1) - e1) (IZR z) Hz0 eq_refl)
    as H2.
  assert (Hdz : (Zdigits2 z <= k + 1)%Z).
  { apply Zdigits2_le; [assumption|lia|].
    rewrite Z.pow_add_r by lia. simpl (2 ^ 1)%Z.
    assert (0 < 2 ^ k)%Z by (apply Z.pow_pos_nonneg; lia). lia. }
  assert (Hn2 : (fexp prec emax (Zdigits2 z + e1) - e1 <= 1)%Z)
    by (unfold fexp, emin in *; lia).
  assert (Hex : lx = loc_Exact -> e1 = ex -> IZR z = x).
  { intros Hl He. destruct Hno as [_ Hloc]; [unfold e1 in He; lia|].
    rewrite Hloc in Hzex. destruct (Hzex Hl) as [Hz1 Hx1].
    rewrite He, Z.sub_diag, bpow_0, Rmult_1_r in Hx1.
    rewrite Hz1. symmetry. exact Hx1. }
  exists z.
  destruct (Z_le_gt_dec (fexp prec emax (Zdigits2 z + e1) - e1) 0)
    as [Hle|Hgt].
  - destruct (shr (shr_record_of_loc z loc_Exact) e1
                (fexp prec emax (Zdigits2 z + e1) - e1)) as [mrs2 e2].
    destruct H2 as (He2 & Hm2 & _ & Hno2).
    destruct (Hno2 Hle) as [Hs _].
    exists (shr_m mrs2), e2.
    split; [assumption|]. split; [assumption|].
    split; [exact Hex|].
    split; [assumption|]. split; [lia|].
    split; [rewrite Hs; f_equal; f_equal; lia|]. reflexivity.
  - assert (En : (fexp prec emax (Zdigits2 z + e1) - e1 = 1)%Z) by lia.
    rewrite En in *. clear H2.
    assert (Hzeq : z = (2 ^ k)%Z).
    { destruct (Z.eq_dec z (2 ^ k)) as [|Hne]; [assumption|exfalso].
      assert (Zdigits2 z <= k)%Z by (apply Zdigits2_le; lia).
      unfold fexp, emin in *. lia. }
    assert (Hk : (1 <= k)%Z) by (unfold fexp, emin in *; lia).
    assert (Hz2 : z = (2 * 2 ^ (k - 1))%Z).
    { rewrite Hzeq. rewrite <- Z.pow_succ_r by lia. f_equal. lia. }
    assert (Hp : (0 < 2 ^ (k - 1))%Z) by (apply Z.pow_pos_nonneg; lia).
    destruct (2 ^ (k - 1))%Z as [|p|p] eqn:Ep; try lia.
    exists (Zpos p), (e1 + 1)%Z.
    split; [assumption|]. split; [assumption|].
    split; [exact Hex|].
    split; [lia|]. split; [lia|].
    split.
    { rewrite Hz2, bpow_add, bpow_1, mult_IZR. ring. }
    rewrite Hz2. reflexivity.
Qed.

(** The result of [binary_round_aux] is within half a unit of the
    exponent [e1] of the exact value, or it overflowed. *)
Lemma round_aux_value (mx ex : Z) (lx : location) (x : R) :
  (0 <= mx)%Z -> inbetween mx x lx ->
  let e1 := Z.max ex (fexp prec emax (Zdigits2 mx + ex)) in
  let r := binary_round_aux prec emax false mx ex lx in
  (r = S754_infinity false /\ (emax - prec <= e1)%Z) \/
  (nonneg_finite r = true /\ lowexp prec emax r /\
   (Rabs (value r - x * bpow ex) <= / 2 * bpow e1)%R /\
   (lx = loc_Exact -> e1 = ex -> value r = (x * bpow ex)%R)).
Proof.
  intros Hm Hx e1 r.
  destruct (round_aux_shape false mx ex lx x Hm Hx)
    as (z & m2 & e2 & Hz & Hzx & Hex & Hm2 & He2 & Hv & Hr).
  fold e1 in Hzx, Hex, He2, Hv. fold r in Hr.
  assert (Hb : (Rabs (IZR z * bpow e1 - x * bpow ex) <= / 2 * bpow e1)%R).
  { replace (IZR z * bpow e1 - x * bpow ex)%R
      with ((IZR z - x * bpow (ex - e1)) * bpow e1)%R.
    - rewrite Rabs_mult, (Rabs_right (bpow e1))
        by (apply Rle_ge, Rlt_le, bpow_pos).
      apply Rmult_le_compat_r; [apply Rlt_le, bpow_pos|assumption].
    - replace (bpow ex) with (bpow (ex - e1) * bpow e1)%R
        by (rewrite <- bpow_add; f_equal; lia). ring. }
  assert (Hemin : (emin prec emax <= e1)%Z) by (unfold e1, fexp; lia).
  destruct m2 as [|p|p]; [| |lia].
  - right. rewrite Hr. split; [reflexivity|]. split; [exact I|].
    simpl value. rewrite Rmult_0_l in Hv. rewrite <- Hv in Hb.
    split; [assumption|]. intros Hl He.
    rewrite <- (Hex Hl He). rewrite He in Hv. exact Hv.
  - destruct (e2 <=? emax - prec)%Z eqn:Ele.
    + right. rewrite Hr. split; [reflexivity|].
      split; [simpl; lia|].
      assert (Hval : value (S754_finite false p e2)
                     = (IZR z * bpow e1)%R).
      { simpl value. rewrite <- Hv. ring. }
      rewrite Hval. split; [assumption|]. intros Hl He.
      rewrite <- (Hex Hl He). rewrite He. reflexivity.
    + left. split; [assumption|]. apply Z.leb_gt in Ele. lia.
Qed.

Lemma overflow_is_big (m : positive) (e : Z) :
  (emax - prec <= fexp prec emax (Zpos (digits2_pos m) + e))%Z ->
  (bpow (emax - 1) <= IZR (Zpos m) * bpow e)%R.
Proof.
  intros H. apply Rle_trans with (2 := mantissa_lower m e).
  apply bpow_le. unfold fexp, emin in H. lia.
Qed.

Lemma half_ulp_relative (m : positive) (e : Z) :
  (emin prec emax < fexp prec emax (Zpos (digits2_pos m) + e))%Z ->
  (/ 2 * bpow (fexp prec emax (Zpos (digits2_pos m) + e))
   <= bpow (- prec) * (IZR (Zpos m) * bpow e))%R.
Proof.
  intros H.
  assert (E : fexp prec emax (Zpos (digits2_pos m) + e)
              = (- prec + (Zpos (digits2_pos m) - 1 + e) + 1)%Z)
    by (unfold fexp in *; lia).
  rewrite E, bpow_add, bpow_add, bpow_1.
  pose proof (mantissa_lower m e) as Hl.
  pose proof (bpow_pos (- prec)) as Hp.
  replace (/ 2 * (bpow (- prec) * bpow (Zpos (digits2_pos m) - 1 + e) * 2))%R
    with (bpow (- prec) * bpow (Zpos (digits2_pos m) - 1 + e))%R by field.
  apply Rmult_le_compat_l; [lra|assumption].
Qed.

(** Rounding [m * 2^e] to the format: the relative error is at most
    [2^-prec] when [e] is not below the least exponent. *)
Lemma binary_round_spec (m : positive) (e : Z) :
  let r := binary_round prec emax false m e in
  (r = S754_infinity false /\
   (bpow (emax - 1) <= IZR (Zpos m) * bpow e)%R) \/
  (nonneg_finite r = true /\ lowexp prec emax r /\
   ((emin prec emax <= e)%Z ->
    (Rabs (value r - IZR (Zpos m) * bpow e)
     <= bpow (- prec) * (IZR (Zpos m) * bpow e))%R)).
Proof.
  cbv zeta. unfold binary_round.
  set (f := fexp prec emax (Zpos (digits2_pos m) + e)).
  destruct (Z_le_gt_dec f e) as [Hle|Hgt].
  - destruct (shl_align_spec m e f Hle) as [Hs Hf].
    destruct (shl_align m e f) as [mz ez]. cbn [fst snd] in Hs, Hf. subst ez.
    assert (Hd : Zdigits2 (Zpos mz)
                 = (Zpos (digits2_pos m) + (e - f))%Z).
    { rewrite Hf. apply (Zdigits2_shift (Zpos m)); lia. }
    assert (Hv : (IZR (Zpos mz) * bpow f = IZR (Zpos m) * bpow e)%R).
    { rewrite Hf, mult_IZR, <- bpow_IZR by lia.
      rewrite Rmult_assoc, <- bpow_add. do 2 f_equal. lia. }
    destruct (round_aux_value (Zpos mz) f loc_Exact (IZR (Zpos mz))
                ltac:(lia) eq_refl) as [[Hr Hbig]|(Hn & Hlow & _ & Hex)].
    + left. split; [assumption|]. apply overflow_is_big.
      rewrite Hd in Hbig. fold f.
      replace (Zpos (digits2_pos m) + (e - f) + f)%Z
        with (Zpos (digits2_pos m) + e)%Z in Hbig by lia.
      fold f in Hbig. lia.
    + right. split; [assumption|]. split; [assumption|]. intros _.
      rewrite Hex; [|reflexivity|].
      * rewrite Hv, Rminus_diag, Rabs_R0.
        apply Rmult_le_pos; [apply Rlt_le, bpow_pos|].
        apply Rmult_le_pos; [apply IZR_le; lia|apply Rlt_le, bpow_pos].
      * rewrite Hd.
        replace (Zpos (digits2_pos m) + (e - f) + f)%Z
          with (Zpos (digits2_pos m) + e)%Z by lia.
        fold f. lia.
  - rewrite (shl_align_none m e f ltac:(lia)).
    destruct (round_aux_value (Zpos m) e loc_Exact (IZR (Zpos m))
                ltac:(lia) eq_refl) as [[Hr Hbig]|(Hn & Hlow & Hb & _)];
      cbn [Zdigits2] in *; fold f in Hbig || fold f in Hb.
    + left. split; [assumption|]. apply overflow_is_big. fold f. lia.
    + right. split; [assumption|]. split; [assumption|]. intros He.
      apply Rle_trans with (1 := Hb).
      replace (Z.max e f) with f by lia.
      apply half_ulp_relative. fold f. lia.
Qed.

Lemma value_nonneg (x : spec_float) :
  nonneg_finite x = true -> (0 <= value x)%R.
Proof.
  destruct x as [s|s| |[] m e]; try discriminate; intros _; simpl;
    try lra.
  rewrite Rmult_1_l.
  apply Rmult_le_pos; [apply IZR_le; lia|apply Rlt_le, bpow_pos].
Qed.

(** Addition of two non-negative numbers of the format: a relative
    error of at most [2^-prec], and overflow only for a large sum. *)
Lemma SFadd_spec (x y : spec_float) :
  nonneg_finite x = true -> nonneg_finite y = true ->
  lowexp prec emax x -> lowexp prec emax y ->
  let r := SFadd prec emax x y in
  (r = S754_infinity false /\
   (bpow (emax - 1) <= value x + value y)%R) \/
  (nonneg_finite r = true /\ lowexp prec emax r /\
   (Rabs (value r - (value x + value y))
    <= bpow (- prec) * (value x + value y))%R).
Proof.
  intros Hx Hy Lx Ly.
  pose proof (value_nonneg x Hx) as Vx.
  pose proof (value_nonneg y Hy) as Vy.
  pose proof (bpow_pos (- prec)) as Hu.
  assert (Hexact : forall r : spec_float,
             nonneg_finite r = true -> lowexp prec emax r ->
             value r = (value x + value y)%R ->
             (r = S754_infinity false /\
              (bpow (emax - 1) <= value x + value y)%R) \/
             (nonneg_finite r = true /\ lowexp prec emax r /\
              (Rabs (value r - (value x + value y))
               <= bpow (- prec) * (value x + value y))%R)).
  { intros r Hr Lr Hv. right. split; [assumption|]. split; [assumption|].
    rewrite Hv, Rminus_diag, Rabs_R0. nra. }
  destruct x as [sx|sx| |sx mx ex]; try discriminate;
    destruct y as [sy|sy| |sy my ey]; try discriminate.
  - apply Hexact.
    + destruct sx, sy; reflexivity.
    + destruct sx, sy; exact I.
    + destruct sx, sy; simpl; lra.
  - apply Hexact; [assumption|assumption|]. simpl value. lra.
  - apply Hexact; [assumption|assumption|]. simpl value. lra.
  - destruct sx; [discriminate|]. destruct sy; [discriminate|].
    cbv zeta. unfold SFadd. cbn [cond_Zopp].
    set (ez := Z.min ex ey).
    destruct (shl_align_spec mx ex ez ltac:(unfold ez; lia)) as [_ Ha].
    destruct (shl_align_spec my ey ez ltac:(unfold ez; lia)) as [_ Hb].
    set (a := fst (shl_align mx ex ez)) in *.
    set (b := fst (shl_align my ey ez)) in *.
    change (Zpos a + Zpos b)%Z with (Zpos (a + b)).
    cbn [binary_normalize].
    assert (Hv : (IZR (Zpos (a + b)) * bpow ez
                  = value (S754_finite false mx ex)
                    + value (S754_finite false my ey))%R).
    { rewrite Pos2Z.inj_add, plus_IZR, Ha, Hb, !mult_IZR.
      rewrite <- !bpow_IZR by (unfold ez; lia). simpl value.
      replace (bpow ex) with (bpow (ex - ez) * bpow ez)%R
        by (rewrite <- bpow_add; f_equal; lia).
      replace (bpow ey) with (bpow (ey - ez) * bpow ez)%R
        by (rewrite <- bpow_add; f_equal; lia).
      ring. }
    rewrite <- Hv.
    destruct (binary_round_spec (a + b) ez) as [[Hr Hbig]|(Hn & Hl & He)].
    + left. split; assumption.
    + right. split; [assumption|]. split; [assumption|].
      apply He. simpl in Lx, Ly. unfold ez. lia.
Qed.

Lemma new_location_spec (nb k q : Z) :
  (0 < nb)%Z -> (0 <= k < nb)%Z ->
  inbetween q (IZR q + IZR k / IZR nb) (new_location nb k).
Proof.
  intros Hnb Hk.
  assert (Hb : (0 < IZR nb)%R) by (apply IZR_lt; assumption).
  assert (Hk0 : (0 <= IZR k)%R) by (apply IZR_le; lia).
  assert (Hk1 : (IZR k < IZR nb)%R) by (apply IZR_lt; lia).
  set (t := (IZR k / IZR nb)%R).
  assert (Ht : (t * IZR nb = IZR k)%R) by (unfold t; field; lra).
  assert (Hlt : (2 * k < nb)%Z -> (t < / 2)%R).
  { intros H. apply IZR_lt in H. rewrite mult_IZR in H. nra. }
  assert (Hgt : (nb < 2 * k)%Z -> (/ 2 < t)%R).
  { intros H. apply IZR_lt in H. rewrite mult_IZR in H. nra. }
  assert (Heq : (2 * k = nb)%Z -> (t = / 2)%R).
  { intros H. apply (f_equal IZR) in H. rewrite mult_IZR in H. nra. }
  assert (Hpos : (k <> 0)%Z -> (0 < t)%R).
  { intros H. assert (0 < IZR k)%R by (apply IZR_lt; lia). nra. }
  assert (Hone : (t < 1)%R) by nra.
  unfold new_location. destruct (Z.even nb) eqn:Ev.
  - unfold new_location_even. destruct (Z.eqb_spec k 0) as [->|Hne].
    + simpl. unfold t. rewrite Rdiv_0_l. lra.
    + destruct (Z.compare_spec (2 * k) nb) as [H|H|H]; simpl.
      * rewrite (Heq H). reflexivity.
      * specialize (Hlt H). specialize (Hpos Hne). lra.
      * specialize (Hgt H). lra.
  - unfold new_location_odd. destruct (Z.eqb_spec k 0) as [->|Hne].
    + simpl. unfold t. rewrite Rdiv_0_l. lra.
    + assert (Hodd : (2 * k <> nb)%Z).
      { intros <-. rewrite Z.even_mul in Ev. discriminate. }
      specialize (Hpos Hne).
      destruct (Z.compare_spec (2 * k + 1) nb) as [H|H|H]; simpl.
      * specialize (Hlt ltac:(lia)). lra.
      * specialize (Hlt ltac:(lia)). lra.
      * specialize (Hgt ltac:(lia)). lra.
Qed.

Lemma mantissa_upper (m : positive) (e : Z) :
  (IZR (Zpos m) * bpow e <= bpow (Zpos (digits2_pos m) + e))%R.
Proof.
  rewrite bpow_add. apply Rmult_le_compat_r; [apply Rlt_le, bpow_pos|].
  pose proof (digits2_pos_bounds m) as [_ Hu].
  rewrite bpow_IZR by lia. apply IZR_le. lia.
Qed.

(** Division of a non-negative number by a positive one: a relative
    error of at most [2^-prec] and an absolute one of at most half the
    least subnormal number, and overflow only for a large quotient. *)
Lemma SFdiv_spec (x : spec_float) (my : positive) (ey : Z) :
  nonneg_finite x = true ->
  let y := S754_finite false my ey in
  let r := SFdiv prec emax x y in
  (r = S754_infinity false /\ (bpow (emax - 1) <= value x / value y)%R) \/
  (nonneg_finite r = true /\ lowexp prec emax r /\
   (Rabs (value r - value x / value y)
    <= bpow (- prec) * (value x / value y)
       + / 2 * bpow (emin prec emax))%R).
Proof.
  intros Hx y r.
  pose proof (bpow_pos (- prec)) as Hu.
  pose proof (bpow_pos (emin prec emax)) as Hmin.
  assert (Vy : (0 < value y)%R).
  { unfold y. simpl. rewrite Rmult_1_l.
    apply Rmult_lt_0_compat; [apply IZR_lt; lia|apply bpow_pos]. }
  destruct x as [sx|sx| |sx mx ex]; try discriminate.
  - right. unfold r, y. simpl SFdiv. split; [reflexivity|].
    split; [exact I|]. simpl value. rewrite Rdiv_0_l, Rminus_diag, Rabs_R0.
    nra.
  - destruct sx; [discriminate|].
    set (V := (value (S754_finite false mx ex) / value y)%R).
    unfold r, y. unfold SFdiv, SFdiv_core_binary. cbn [xorb Zdigits2].
    set (d1 := Zpos (digits2_pos mx)). set (d2 := Zpos (digits2_pos my)).
    set (e' := Z.min (fexp prec emax (d1 + ex - (d2 + ey))) (ex - ey)).
    set (s := (ex - ey - e')%Z).
    assert (Hs : (0 <= s)%Z) by (unfold s, e'; lia).
    set (m' := match s with
               | 0%Z => Zpos mx
               | Zpos _ => Z.shiftl (Zpos mx) s
               | Zneg _ => 0%Z
               end).
    assert (Hm' : m' = (Zpos mx * 2 ^ s)%Z).
    { unfold m'. destruct s as [|p|p] eqn:Es; [simpl; lia| |lia].
      apply Z.shiftl_mul_pow2. lia. }
    pose proof (Z_div_mod m' (Zpos my) ltac:(lia)) as Hdiv.
    destruct (Z.div_eucl m' (Zpos my)) as [q r0]. destruct Hdiv as [Hq Hr0].
    assert (Hp2 : (0 < 2 ^ s)%Z) by (apply Z.pow_pos_nonneg; lia).
    assert (Hq0 : (0 <= q)%Z) by nia.
    pose proof (new_location_spec (Zpos my) r0 q ltac:(lia) Hr0) as Hin.
    set (X := (IZR q + IZR r0 / IZR (Zpos my))%R) in *.
    assert (HX : (X * bpow e' = V)%R).
    { unfold X, V, y. simpl value.
      assert (E : (IZR q * IZR (Zpos my) + IZR r0
                   = IZR (Zpos mx) * bpow s)%R).
      { rewrite bpow_IZR by assumption.
        rewrite <- !mult_IZR, <- plus_IZR. f_equal. lia. }
      assert (Hy0 : (0 < IZR (Zpos my))%R) by (apply IZR_lt; lia).
      pose proof (bpow_pos ey) as Hey.
      replace (bpow ex) with (bpow s * bpow e' * bpow ey)%R
        by (rewrite <- !bpow_add; f_equal; unfold s; lia).
      apply Rmult_eq_reg_r with (IZR (Zpos my)); [|lra].
      transitivity ((IZR q * IZR (Zpos my) + IZR r0) * bpow e')%R;
        [field; lra|].
      rewrite E. field. lra. }
    assert (HqX : (IZR q <= X)%R) by (apply inbetween_bounds in Hin; lra).
    set (e1 := Z.max e' (fexp prec emax (Zdigits2 q + e'))).
    assert (Hkey : (emin prec emax < e1)%Z ->
                   (bpow (e1 + prec - 1) <= V)%R).
    { intros He1.
      destruct (Z_le_gt_dec (fexp prec emax (Zdigits2 q + e')) e')
        as [Hle|Hgt].
      - apply Rle_trans with (bpow (d1 + ex - (d2 + ey) - 1)).
        + apply bpow_le. unfold e1, e', fexp in *. lia.
        + unfold V, y. simpl value. rewrite !Rmult_1_l.
          pose proof (mantissa_lower mx ex) as Hl.
          pose proof (mantissa_upper my ey) as Hup.
          fold d1 in Hl. fold d2 in Hup.
          assert (Hy0 : (0 < IZR (Zpos my) * bpow ey)%R).
          { apply Rmult_lt_0_compat; [apply IZR_lt; lia|apply bpow_pos]. }
          replace (d1 + ex - (d2 + ey) - 1)%Z
            with ((d1 - 1 + ex) + - (d2 + ey))%Z by lia.
          rewrite bpow_add.
          assert (Hinv : (bpow (- (d2 + ey))
                          <= / (IZR (Zpos my) * bpow ey))%R).
          { replace (bpow (- (d2 + ey))) with (/ bpow (d2 + ey))%R.
            - apply Rinv_le_contravar; assumption.
            - pose proof (bpow_pos (d2 + ey)).
              apply Rmult_eq_reg_r with (bpow (d2 + ey)); [|lra].
              rewrite <- bpow_add, Rinv_l by lra.
              replace (- (d2 + ey) + (d2 + ey))%Z with 0%Z by lia.
              reflexivity. }
          unfold Rdiv.
          pose proof (bpow_pos (d1 - 1 + ex)).
          pose proof (bpow_pos (- (d2 + ey))).
          apply Rmult_le_compat; lra.
      - destruct q as [|p|p];
          [unfold e1 in *; cbn [Zdigits2] in *; unfold fexp in *; lia| |lia].
        rewrite <- HX.
        apply Rle_trans with (IZR (Zpos p) * bpow e')%R.
        + apply Rle_trans with (2 := mantissa_lower p e').
          apply bpow_le. unfold e1 in *. cbn [Zdigits2] in *.
          unfold fexp in *. lia.
        + apply Rmult_le_compat_r; [apply Rlt_le, bpow_pos|assumption]. }
    destruct (round_aux_value q e' _ X Hq0 Hin)
      as [[Hr Hbig]|(Hn & Hl & Hb & _)]; fold e1 in Hbig || fold e1 in Hb.
    + left. split; [assumption|].
      apply Rle_trans with (2 := Hkey ltac:(unfold emin; lia)).
      apply bpow_le. lia.
    + right. split; [assumption|]. split; [assumption|].
      rewrite HX in Hb. apply Rle_trans with (1 := Hb).
      assert (HV0 : (0 <= V)%R).
      { rewrite <- HX. apply Rmult_le_pos; [|apply Rlt_le, bpow_pos].
        apply Rle_trans with (2 := HqX). apply IZR_le. assumption. }
      destruct (Z_le_gt_dec e1 (emin prec emax)) as [Hle|Hgt].
      * apply (bpow_le e1) in Hle. nra.
      * specialize (Hkey ltac:(lia)).
        replace (bpow e1) with (2 * (bpow (- prec) * bpow (e1 + prec - 1)))%R.
        -- nra.
        -- rewrite <- bpow_1, <- !bpow_add. f_equal. lia.
Qed.

Lemma round_aux_lowexp (sx : bool) (mx ex : Z) (lx : location) :
  (0 <= mx)%Z -> lowexp prec emax (binary_round_aux prec emax sx mx ex lx).
Proof.
  intros Hm.
  assert (Hx : exists x, inbetween mx x lx).
  { destruct lx as [|[]].
    - exists (IZR mx). reflexivity.
    - exists (IZR mx + / 2)%R. reflexivity.
    - exists (IZR mx + / 4)%R. simpl. lra.
    - exists (IZR mx + 3 / 4)%R. simpl. lra. }
  destruct Hx as [x Hx].
  destruct (round_aux_shape sx mx ex lx x Hm Hx)
    as (z & m2 & e2 & _ & _ & _ & Hm2 & He2 & _ & ->).
  destruct m2 as [|p|p]; [exact I| |exact I].
  destruct (e2 <=? emax - prec)%Z; [|exact I].
  simpl. unfold fexp in He2. lia.
Qed.

Lemma binary_round_lowexp (sx : bool) (m : positive) (e : Z) :
  lowexp prec emax (binary_round prec emax sx m e).
Proof.
  unfold binary_round.
  destruct (shl_align m e (fexp prec emax (Zpos (digits2_pos m) + e))).
  apply round_aux_lowexp. lia.
Qed.

Lemma SFdiv_lowexp (x y : spec_float) : lowexp prec emax (SFdiv prec emax x y).
Proof.
  destruct x as [sx|sx| |sx mx ex], y as [sy|sy| |sy my ey];
    try exact I.
  unfold SFdiv, SFdiv_core_binary.
  set (m' := match (ex - ey - _)%Z with
             | 0%Z => Zpos mx
             | Zpos _ => _
             | Zneg _ => 0%Z
             end).
  assert (Hm' : (0 <= m')%Z).
  { unfold m'. destruct (ex - ey - _)%Z; try lia.
    apply Z.shiftl_nonneg. lia. }
  pose proof (Z_div_mod m' (Zpos my) ltac:(lia)) as Hdiv.
  destruct (Z.div_eucl m' (Zpos my)) as [q r0].
  apply round_aux_lowexp. nia.
Qed.

End Rounding.

(** *** Sums of non-negative float32 numbers *)

Lemma u32_eq : u32 = (/ 16777216)%R.
Proof. unfold u32, bpow. simpl. f_equal. lra. Qed.

Lemma u32_bounds : (0 < u32 < 1)%R.
Proof. rewrite u32_eq. lra. Qed.

Lemma pow_up_mono (d d' : nat) :
  d <= d' -> ((1 + u32) ^ d <= (1 + u32) ^ d')%R.
Proof. intros H. apply Rle_pow; [pose proof u32_bounds; lra|assumption]. Qed.

Lemma pow_down_pos (d : nat) : (0 < (1 - u32) ^ d)%R.
Proof. apply pow_lt. pose proof u32_bounds. lra. Qed.

Lemma pow_up_pos (d : nat) : (0 < (1 + u32) ^ d)%R.
Proof. apply pow_lt. pose proof u32_bounds. lra. Qed.

Lemma pow_down_mono (d d' : nat) :
  d <= d' -> ((1 - u32) ^ d' <= (1 - u32) ^ d)%R.
Proof.
  induction 1 as [|d' _ IH]; [lra|].
  simpl. pose proof (pow_down_pos d'). pose proof u32_bounds. nra.
Qed.

Lemma approx_base (x : F.float) : regular x -> approx 0 x (value x).
Proof.
  intros H. split; [apply value_nonneg, H|]. right. split; [assumption|].
  simpl. lra.
Qed.

Lemma approx_mono (d d' : nat) (x : F.float) (S : R) :
  approx d x S -> d <= d' -> approx d' x S.
Proof.
  intros [HS H] Hd. split; [assumption|].
  pose proof (pow_up_mono d d' Hd). pose proof (pow_down_mono d d' Hd).
  pose proof (pow_down_pos d'). pose proof (pow_up_pos d).
  destruct H as [[-> Hb]|[Hr Hb]].
  - left. split; [reflexivity|]. nra.
  - right. split; [assumption|]. nra.
Qed.

Lemma approx_add (d : nat) (a b : F.float) (A B : R) :
  approx d a A -> approx d b B -> approx (S d) (F.add a b) (A + B).
Proof.
  intros [HA Ha] [HB Hb]. split; [lra|].
  pose proof u32_bounds as Hu.
  pose proof (pow_up_pos d) as Hp. pose proof (pow_down_pos d) as Hq.
  simpl pow.
  set (p := ((1 + u32) ^ d)%R) in *. set (q := ((1 - u32) ^ d)%R) in *.
  assert (HpA : (0 <= p * A)%R) by nra.
  assert (HpB : (0 <= p * B)%R) by nra.
  assert (HqA : (0 <= q * A)%R) by nra.
  assert (HqB : (0 <= q * B)%R) by nra.
  assert (Hup : forall t : R, (t <= p * A + p * B)%R ->
                              (t <= (1 + u32) * p * (A + B))%R).
  { intros t Ht. nra. }
  destruct Ha as [[-> Ha]|[[Na La] Ha]].
  - left. destruct Hb as [[-> Hb]|[[Nb Lb] Hb]].
    + split; [reflexivity|]. apply Hup. lra.
    + split; [|apply Hup; lra].
      destruct b as [sb|sb| |sb mb eb]; try discriminate; reflexivity.
  - destruct Hb as [[-> Hb]|[[Nb Lb] Hb]].
    + left. split; [|apply Hup; lra].
      destruct a as [sa|sa| |sa ma ea]; try discriminate; reflexivity.
    + destruct (SFadd_spec 24 128 ltac:(lia) ltac:(lia) a b Na Nb La Lb)
        as [[Hr Hbig]|(Hn & Hl & He)].
      * left. split; [exact Hr|]. apply Hup.
        change (128 - 1)%Z with 127%Z in Hbig. lra.
      * right. split; [split; assumption|].
        change (bpow (Z.opp 24)) with u32 in He.
        unfold F.add, F.prec32, F.emax32.
        set (r := value (SFadd 24 128 a b)) in *.
        assert (Hs : (0 <= value a + value b)%R)
          by (apply value_nonneg in Na, Nb; lra).
        apply Rabs_le_inv in He.
        set (va := value a) in *. set (vb := value b) in *.
        assert (H1 : ((1 + u32) * (va + vb)
                      <= (1 + u32) * (p * A + p * B))%R)
          by (apply Rmult_le_compat_l; lra).
        assert (H2 : ((1 - u32) * (q * A + q * B)
                      <= (1 - u32) * (va + vb))%R)
          by (apply Rmult_le_compat_l; lra).
        split; lra.
Qed.

Lemma approx_eq (d d' : nat) (x : F.float) (S S' : R) :
  approx d x S -> d = d' -> S = S' -> approx d' x S'.
Proof. intros H -> ->. exact H. Qed.

Lemma total_app (v w : Np.ndarray) :
  total (v ++ w) = (total v + total w)%R.
Proof. induction v as [|x v IH]; simpl; [lra|]. rewrite IH. lra. Qed.

Lemma total_nonneg (v : Np.ndarray) : Forall regular v -> (0 <= total v)%R.
Proof.
  induction 1 as [|x v [Hx _] _ IH]; simpl; [lra|].
  apply value_nonneg in Hx. lra.
Qed.

Lemma sum_seq_approx (a : Np.ndarray) : forall (acc : F.float) (d : nat) (A : R),
  approx d acc A -> Forall regular a ->
  approx (d + length a) (Np.sum_seq acc a) (A + total a).
Proof.
  induction a as [|x a IH]; intros acc d A Hacc Ha.
  - simpl. eapply approx_eq; [exact Hacc|lia|lra].
  - inversion Ha as [|? ? Hx Ha']; subst.
    assert (H1 : approx (S d) (F.add acc x) (A + value x)).
    { apply approx_add; [assumption|].
      apply approx_mono with 0; [apply approx_base; assumption|lia]. }
    eapply approx_eq; [exact (IH _ _ _ H1 Ha')|simpl; lia|simpl; lra].
Qed.

Lemma Forall2_cons_l {A B : Type} (P : A -> B -> Prop) x l l' :
  Forall2 P (x :: l) l' ->
  exists y l'', l' = y :: l'' /\ P x y /\ Forall2 P l l''.
Proof. inversion 1; subst; eauto. Qed.

Lemma Forall2_nil_l {A B : Type} (P : A -> B -> Prop) l' :
  Forall2 P [] l' -> l' = [].
Proof. inversion 1; reflexivity. Qed.

Lemma eight_approx (d : nat) (r0 r1 r2 r3 r4 r5 r6 r7 : F.float) (Rs : list R) :
  Forall2 (approx d) [r0; r1; r2; r3; r4; r5; r6; r7] Rs ->
  exists R0 R1 R2 R3 R4 R5 R6 R7,
    Rs = [R0; R1; R2; R3; R4; R5; R6; R7] /\
    approx d r0 R0 /\ approx d r1 R1 /\ approx d r2 R2 /\ approx d r3 R3 /\
    approx d r4 R4 /\ approx d r5 R5 /\ approx d r6 R6 /\ approx d r7 R7.
Proof.
  intros H.
  destruct (Forall2_cons_l _ _ _ _ H) as (R0 & t0 & -> & P0 & H0).
  destruct (Forall2_cons_l _ _ _ _ H0) as (R1 & t1 & -> & P1 & H1).
  destruct (Forall2_cons_l _ _ _ _ H1) as (R2 & t2 & -> & P2 & H2).
  destruct (Forall2_cons_l _ _ _ _ H2) as (R3 & t3 & -> & P3 & H3).
  destruct (Forall2_cons_l _ _ _ _ H3) as (R4 & t4 & -> & P4 & H4).
  destruct (Forall2_cons_l _ _ _ _ H4) as (R5 & t5 & -> & P5 & H5).
  destruct (Forall2_cons_l _ _ _ _ H5) as (R6 & t6 & -> & P6 & H6).
  destruct (Forall2_cons_l _ _ _ _ H6) as (R7 & t7 & -> & P7 & H7).
  apply Forall2_nil_l in H7. subst t7.
  exists R0, R1, R2, R3, R4, R5, R6, R7. split; [reflexivity|].
  repeat (split; [assumption|]). assumption.
Qed.

Lemma approx_add_elem (d : nat) (r x : F.float) (S : R) :
  approx d r S -> regular x -> approx (Datatypes.S d) (F.add r x) (S + value x).
Proof.
  intros Hr Hx. apply approx_add; [assumption|].
  apply approx_mono with 0; [apply approx_base; assumption|lia].
Qed.

Lemma sum8_approx (k : nat) : forall (r a : Np.ndarray) (d : nat) (Rs : list R),
  length r = 8 -> 8 * k <= length a ->
  Forall2 (approx d) r Rs -> Forall regular a ->
  exists Rs',
    Forall2 (approx (d + k)) (fst (Np.sum8 r a k)) Rs' /\
    length (fst (Np.sum8 r a k)) = 8 /\
    length (snd (Np.sum8 r a k)) = length a - 8 * k /\
    Forall regular (snd (Np.sum8 r a k)) /\
    (rsum Rs' + total (snd (Np.sum8 r a k)) = rsum Rs + total a)%R.
Proof.
  induction k as [|k IH]; intros r a d Rs Hr Hlen HF Ha.
  - exists Rs. simpl. rewrite Nat.add_0_r, Nat.sub_0_r. auto.
  - destruct r as [|r0 [|r1 [|r2 [|r3 [|r4 [|r5 [|r6 [|r7 [|]]]]]]]]];
      try discriminate.
    destruct a as [|a0 [|a1 [|a2 [|a3 [|a4 [|a5 [|a6 [|a7 a']]]]]]]];
      simpl in Hlen; try lia.
    destruct (eight_approx _ _ _ _ _ _ _ _ _ _ HF)
      as (R0 & R1 & R2 & R3 & R4 & R5 & R6 & R7 & -> &
          P0 & P1 & P2 & P3 & P4 & P5 & P6 & P7).
    pose proof (Forall_inv Ha) as Q0. apply Forall_inv_tail in Ha.
    pose proof (Forall_inv Ha) as Q1. apply Forall_inv_tail in Ha.
    pose proof (Forall_inv Ha) as Q2. apply Forall_inv_tail in Ha.
    pose proof (Forall_inv Ha) as Q3. apply Forall_inv_tail in Ha.
    pose proof (Forall_inv Ha) as Q4. apply Forall_inv_tail in Ha.
    pose proof (Forall_inv Ha) as Q5. apply Forall_inv_tail in Ha.
    pose proof (Forall_inv Ha) as Q6. apply Forall_inv_tail in Ha.
    pose proof (Forall_inv Ha) as Q7. apply Forall_inv_tail in Ha.
    cbn [Np.sum8].
    destruct (IH [F.add r0 a0; F.add r1 a1; F.add r2 a2; F.add r3 a3;
                  F.add r4 a4; F.add r5 a5; F.add r6 a6; F.add r7 a7]
                 a' (S d)
                 [(R0 + value a0); (R1 + value a1); (R2 + value a2);
                  (R3 + value a3); (R4 + value a4); (R5 + value a5);
                  (R6 + value a6); (R7 + value a7)]%R)
      as (Rs' & H1 & H2 & H3 & H4 & H5).
    + reflexivity.
    + lia.
    + repeat (apply Forall2_cons; [apply approx_add_elem; assumption|]).
      apply Forall2_nil.
    + assumption.
    + exists Rs'. rewrite Nat.add_succ_r. split; [exact H1|].
      split; [exact H2|]. split; [rewrite H3; cbn [length]; lia|].
      split; [exact H4|]. rewrite H5. simpl. lra.
Qed.

Lemma Forall2_base (v : Np.ndarray) :
  Forall regular v -> Forall2 (approx 0) v (map value v).
Proof.
  induction 1 as [|x v Hx _ IH]; simpl; constructor;
    [apply approx_base; assumption|assumption].
Qed.

Lemma rsum_values (v : Np.ndarray) : rsum (map value v) = total v.
Proof. induction v as [|x v IH]; simpl; [reflexivity|]. rewrite IH. reflexivity. Qed.

Lemma Forall_firstn_skipn {A : Type} (P : A -> Prop) (n : nat) (l : list A) :
  Forall P l -> Forall P (firstn n l) /\ Forall P (skipn n l).
Proof.
  intros H. rewrite <- (firstn_skipn n l) in H.
  apply Forall_app in H. exact H.
Qed.

Lemma total_firstn_skipn (n : nat) (v : Np.ndarray) :
  (total (firstn n v) + total (skipn n v) = total v)%R.
Proof. rewrite <- total_app, firstn_skipn. reflexivity. Qed.

Lemma sum_block_approx (a : Np.ndarray) :
  8 <= length a -> Forall regular a ->
  approx (length a / 8 + 2 + length a mod 8) (Np.sum_block a) (total a).
Proof.
  intros Hn Ha. unfold Np.sum_block.
  destruct (Forall_firstn_skipn regular 8 a Ha) as [Hf Hs].
  assert (Hlf : length (firstn 8 a) = 8) by (rewrite length_firstn; lia).
  assert (Hls : length (skipn 8 a) = length a - 8)
    by (rewrite length_skipn; reflexivity).
  pose proof (Nat.div_mod_eq (length a) 8) as Hdm.
  assert (Hq : 1 <= length a / 8)
    by (apply Nat.div_le_lower_bound; lia).
  destruct (sum8_approx (length a / 8 - 1) (firstn 8 a) (skipn 8 a) 0
              (map value (firstn 8 a)) Hlf ltac:(lia)
              (Forall2_base _ Hf) Hs)
    as (Rs & H1 & H2 & H3 & H4 & H5).
  destruct (Np.sum8 (firstn 8 a) (skipn 8 a) (length a / 8 - 1))
    as [r rest].
  cbn [fst snd] in *.
  destruct r as [|r0 [|r1 [|r2 [|r3 [|r4 [|r5 [|r6 [|r7 [|]]]]]]]]];
    try discriminate.
  destruct (eight_approx _ _ _ _ _ _ _ _ _ _ H1)
    as (R0 & R1 & R2 & R3 & R4 & R5 & R6 & R7 & -> &
        P0 & P1 & P2 & P3 & P4 & P5 & P6 & P7).
  pose proof (approx_add _ _ _ _ _ (approx_add _ _ _ _ _ P0 P1)
                (approx_add _ _ _ _ _ P2 P3)) as Q1.
  pose proof (approx_add _ _ _ _ _ (approx_add _ _ _ _ _ P4 P5)
                (approx_add _ _ _ _ _ P6 P7)) as Q2.
  pose proof (approx_add _ _ _ _ _ Q1 Q2) as Q.
  eapply approx_eq; [exact (sum_seq_approx rest _ _ _ Q H4)|lia|].
  rewrite rsum_values in H5. rewrite <- (total_firstn_skipn 8 a), <- H5.
  simpl rsum. lra.
Qed.

Lemma approx_nzero : approx 0 F.nzero 0.
Proof.
  split; [lra|]. right. split; [split; [reflexivity|exact I]|].
  simpl. lra.
Qed.

Lemma small_sum_approx (fuel : nat) (a : Np.ndarray) :
  length a <= 128 -> Forall regular a ->
  approx 26 (Np.pairwise_sum fuel a) (total a).
Proof.
  intros Hn Ha.
  assert (E : Np.pairwise_sum fuel a
              = if length a <? 8 then Np.sum_seq F.nzero a
                else Np.sum_block a).
  { destruct fuel; cbn [Np.pairwise_sum]; cbv zeta;
      destruct (length a <? 8); try reflexivity;
      destruct (Nat.leb_spec (length a) 128); try reflexivity; lia. }
  rewrite E. destruct (Nat.ltb_spec (length a) 8).
  - eapply approx_mono.
    + eapply approx_eq;
        [exact (sum_seq_approx a F.nzero 0 0 approx_nzero Ha)
        |reflexivity|lra].
    + simpl. lia.
  - eapply approx_mono; [apply sum_block_approx; assumption|].
    pose proof (Nat.div_mod_eq (length a) 8).
    pose proof (Nat.mod_upper_bound (length a) 8). lia.
Qed.

Lemma pairwise_sum_approx (k : nat) : forall (fuel : nat) (a : Np.ndarray),
  length a <= 114 * 2 ^ k + 14 -> length a <= 128 \/ k <= fuel ->
  Forall regular a ->
  approx (26 + k) (Np.pairwise_sum fuel a) (total a).
Proof.
  induction k as [|k IH]; intros fuel a Hlen Hfuel Ha.
  - rewrite Nat.add_0_r. apply small_sum_approx; [|assumption].
    rewrite Nat.pow_0_r in Hlen. lia.
  - destruct (Nat.leb_spec (length a) 128) as [Hs|Hb].
    + eapply approx_mono; [apply small_sum_approx; assumption|lia].
    + destruct fuel as [|fuel]; [lia|].
      cbn [Np.pairwise_sum]; cbv zeta.
      destruct (Nat.ltb_spec (length a) 8); [lia|].
      destruct (Nat.leb_spec (length a) 128); [lia|].
      set (n2 := length a / 2 - (length a / 2) mod 8).
      rewrite Nat.pow_succ_r' in Hlen.
      pose proof (Nat.div_mod_eq (length a) 2) as H2.
      pose proof (Nat.mod_upper_bound (length a) 2 ltac:(lia)) as H3.
      pose proof (Nat.mod_upper_bound (length a / 2) 8 ltac:(lia)) as H4.
      destruct (Forall_firstn_skipn regular n2 a Ha) as [Hf Hsk].
      eapply approx_eq.
      * apply approx_add; apply (IH fuel);
          [rewrite length_firstn; unfold n2; lia|right; lia|assumption
          |rewrite length_skipn; unfold n2; lia|right; lia|assumption].
      * lia.
      * apply total_firstn_skipn.
Qed.

(** [a.sum()] in numpy's pairwise order nests its additions at most
    [26 + k] deep on a vector of at most [114 * 2^k + 14] components. *)
Lemma sum_approx (k : nat) (a : Np.ndarray) :
  length a <= 114 * 2 ^ k + 14 -> Forall regular a ->
  approx (26 + k) (Np.sum a) (total a).
Proof.
  intros Hlen Ha. unfold Np.sum. destruct a as [|x a'] eqn:E.
  - split; [simpl; lra|]. right. split; [split; [reflexivity|exact I]|].
    simpl. lra.
  - rewrite <- E in *. clear E.
    destruct (Nat.leb_spec (length a) 128) as [Hs|Hb].
    + eapply approx_mono; [apply small_sum_approx; assumption|lia].
    + destruct (Nat.leb_spec k (length a)) as [Hk|Hk].
      * apply pairwise_sum_approx; auto.
      * eapply approx_mono;
          [apply (pairwise_sum_approx (length a)); auto|lia].
        assert (length a < 2 ^ length a) by (apply Nat.pow_gt_lin_r; lia).
        lia.
Qed.

(** *** A renormalised vector sums to one *)

Lemma bernoulli_down (x : R) (n : nat) :
  (0 <= x <= 1)%R -> (1 - INR n * x <= (1 - x) ^ n)%R.
Proof.
  intros Hx. induction n as [|n IH].
  - simpl. lra.
  - rewrite S_INR. simpl pow.
    assert (H : ((1 - x) * (1 - INR n * x) <= (1 - x) * (1 - x) ^ n)%R)
      by (apply Rmult_le_compat_l; lra).
    pose proof (pos_INR n). nra.
Qed.

Lemma bernoulli_up (x : R) (n : nat) :
  (0 <= x)%R -> (INR n * x <= 1)%R -> ((1 + x) ^ n * (1 - INR n * x) <= 1)%R.
Proof.
  intros Hx. induction n as [|n IH]; intros Hn.
  - simpl. lra.
  - rewrite S_INR in *. simpl pow.
    pose proof (pos_INR n) as Hp.
    assert (Hn' : (INR n * x <= 1)%R) by nra.
    specialize (IH Hn').
    assert (H0 : (0 <= (1 + x) ^ n)%R) by (apply pow_le; lra).
    assert (H1 : ((1 + x) * (1 - (INR n + 1) * x) <= 1 - INR n * x)%R) by nra.
    apply Rle_trans with ((1 + x) ^ n * (1 - INR n * x))%R; [|assumption].
    replace ((1 + x) * (1 + x) ^ n * (1 - (INR n + 1) * x))%R
      with ((1 + x) ^ n * ((1 + x) * (1 - (INR n + 1) * x)))%R by ring.
    apply Rmult_le_compat_l; assumption.
Qed.

Lemma pow80_bounds :
  (1 <= (1 + u32) ^ 80 <= 16777216 / 16777136)%R /\
  (16777136 / 16777216 <= (1 - u32) ^ 80 <= 1)%R.
Proof.
  pose proof u32_bounds as Hu.
  assert (E : INR 80 = 80%R) by (simpl; lra).
  pose proof (bernoulli_down u32 80 ltac:(lra)) as Hd.
  pose proof (bernoulli_up u32 80 ltac:(lra)) as Hup.
  rewrite E in Hd, Hup. pose proof u32_eq as Hue.
  specialize (Hup ltac:(lra)).
  replace (1 - 80 * u32)%R with (16777136 / 16777216)%R in Hd, Hup by lra.
  assert (H1 : (1 <= (1 + u32) ^ 80)%R) by (apply pow_R1_Rle; lra).
  assert (H2 : ((1 - u32) ^ 80 <= 1)%R).
  { rewrite <- (pow1 80). apply pow_incr. lra. }
  split; split; try assumption; try lra.
Qed.

Lemma bpow127_big : (4 <= bpow 127)%R.
Proof.
  replace 4%R with (bpow 2) by (unfold bpow; simpl; lra).
  apply bpow_le. lia.
Qed.

Lemma div_elem_bound (x : F.float) (ms : positive) (es : Z) :
  regular x ->
  (value x <= 2 * value (S754_finite false ms es))%R ->
  regular (F.div x (S754_finite false ms es)) /\
  (Rabs (value (F.div x (S754_finite false ms es))
         - value x / value (S754_finite false ms es))
   <= u32 * (value x / value (S754_finite false ms es)) + eta32)%R.
Proof.
  intros [Nx Lx] Hle.
  set (s := S754_finite false ms es) in *.
  assert (Hs : (0 < value s)%R).
  { unfold s. simpl. rewrite Rmult_1_l.
    apply Rmult_lt_0_compat; [apply IZR_lt; lia|apply bpow_pos]. }
  assert (Hq : (value x / value s <= 2)%R).
  { apply Rmult_le_reg_r with (value s); [assumption|].
    unfold Rdiv. rewrite Rmult_assoc, Rinv_l by lra. lra. }
  destruct (SFdiv_spec 24 128 ltac:(lia) ltac:(lia) x ms es Nx)
    as [[_ Hbig]|(Hn & Hl & Hb)]; fold s in Hbig || fold s in Hn, Hl, Hb.
  - exfalso. change (128 - 1)%Z with 127%Z in Hbig.
    pose proof bpow127_big. lra.
  - split; [split; assumption|]. exact Hb.
Qed.

Lemma div_scalar_bound (ms : positive) (es : Z) (v : Np.ndarray) :
  let s := S754_finite false ms es in
  Forall regular v ->
  Forall (fun x => (value x <= 2 * value s)%R) v ->
  Forall regular (Np.div_scalar v s) /\
  (Rabs (total (Np.div_scalar v s) - total v / value s)
   <= u32 * (total v / value s) + INR (length v) * eta32)%R.
Proof.
  intros s Hreg Hle. induction Hreg as [|x v Hx Hv IH].
  - split; [constructor|]. simpl. unfold Rdiv.
    rewrite !Rmult_0_l, Rminus_diag, Rabs_R0. lra.
  - inversion Hle as [|? ? Hx2 Hle']; subst.
    destruct (IH Hle') as [IH1 IH2]. clear IH.
    destruct (div_elem_bound x ms es Hx Hx2) as [H1 H2]. fold s in H1, H2.
    split; [constructor; assumption|].
    change (Np.div_scalar (x :: v) s)
      with (F.div x s :: Np.div_scalar v s).
    cbn [total fold_right length]. fold (total (Np.div_scalar v s)).
    fold (total v). rewrite S_INR.
    apply Rabs_le_inv in H2, IH2. apply Rabs_le.
    unfold Rdiv in *. lra.
Qed.

(** The tolerance check [F.close_to_one] in terms of the real value. *)
Lemma close_to_one_spec (x : F.float) :
  nonneg_finite x = true -> (Rabs (value x - 1) <= / 100000)%R ->
  F.close_to_one x = true.
Proof.
  intros Hn Hx. apply Rabs_le_inv in Hx.
  destruct x as [s|s| |[] m e]; try discriminate.
  - change (value (S754_zero s)) with 0%R in Hx. lra.
  - change (value (S754_finite false m e))
      with (1 * IZR (Zpos m) * bpow e)%R in Hx.
    rewrite Rmult_1_l in Hx. unfold F.close_to_one.
    destruct e as [|p|q].
    + rewrite Z.pow_0_r, Z.mul_1_r. apply Z.eqb_eq.
      rewrite bpow_0, Rmult_1_r in Hx.
      assert (H : (IZR (Zpos m) < IZR 2)%R) by lra.
      apply lt_IZR in H. lia.
    + apply Z.eqb_eq.
      assert (Hp : (0 < 2 ^ Zpos p)%Z) by (apply Z.pow_pos_nonneg; lia).
      rewrite bpow_IZR, <- mult_IZR in Hx by lia.
      assert (H : (IZR (Zpos m * 2 ^ Zpos p) < IZR 2)%R) by lra.
      apply lt_IZR in H. nia.
    + apply Z.leb_le. cbv zeta.
      rewrite Pos2Z.inj_pow.
      set (d := (2 ^ Zpos q)%Z).
      assert (Hd : (0 < d)%Z) by (apply Z.pow_pos_nonneg; lia).
      assert (Hd' : (0 < IZR d)%R) by (apply IZR_lt; lia).
      assert (Hb : (bpow (Zneg q) * IZR d = 1)%R).
      { unfold d. rewrite <- bpow_IZR by lia. rewrite <- bpow_add.
        replace (Z.neg q + Z.pos q)%Z with 0%Z by lia. reflexivity. }
      apply le_IZR. rewrite mult_IZR, abs_IZR, minus_IZR.
      set (M := IZR (Zpos m)) in *. set (D := IZR d) in *.
      set (b := bpow (Zneg q)) in *.
      assert (H1 : (M * b * D = M)%R) by (rewrite Rmult_assoc, Hb; ring).
      assert (H2 : (Rabs (M - D) <= D / 100000)%R).
      { apply Rabs_le. split; nra. }
      lra.
Qed.

Lemma total_ge (v : Np.ndarray) :
  Forall regular v -> Forall (fun x => (value x <= total v)%R) v.
Proof.
  induction 1 as [|x v Hx Hv IH]; constructor.
  - pose proof (total_nonneg v Hv). simpl. lra.
  - apply Forall_impl with (2 := IH). intros y Hy.
    destruct Hx as [Hx _]. apply value_nonneg in Hx. simpl. lra.
Qed.

Lemma length_div_scalar (v : Np.ndarray) (s : F.float) :
  length (Np.div_scalar v s) = length v.
Proof. apply length_map. Qed.

Lemma eta_total (n : nat) :
  (Z.of_nat n <= 2 ^ 60)%Z -> (INR n * eta32 <= / 1000000000)%R.
Proof.
  intros H. rewrite INR_IZR_INZ. apply IZR_le in H.
  rewrite <- bpow_IZR in H by lia.
  assert (E : eta32 = bpow (-150)).
  { unfold eta32. rewrite <- bpow_m1, <- bpow_add. reflexivity. }
  rewrite E. pose proof (bpow_pos (-150)) as Hp.
  apply Rle_trans with (bpow 60 * bpow (-150))%R;
    [apply Rmult_le_compat_r; lra|].
  rewrite <- bpow_add.
  apply Rle_trans with (bpow (-30)); [apply bpow_le; lia|].
  unfold bpow. simpl. lra.
Qed.

Lemma length_bound (n : nat) :
  (Z.of_nat n <= 2 ^ 60)%Z -> n <= 114 * 2 ^ 54 + 14.
Proof.
  intros H. apply Nat2Z.inj_le.
  rewrite Nat2Z.inj_add, Nat2Z.inj_mul, Nat2Z.inj_pow.
  change (Z.of_nat 114) with 114%Z. change (Z.of_nat 14) with 14%Z.
  change (Z.of_nat 2) with 2%Z. change (Z.of_nat 54) with 54%Z.
  lia.
Qed.

(** A vector of non-negative float32 numbers with a finite positive
    float32 sum, divided by that sum, sums to 1 within 1e-5. *)
Lemma normalized_sum_close (v : Np.ndarray) :
  Forall regular v -> pos_finite (Np.sum v) = true ->
  (Z.of_nat (length v) <= 2 ^ 60)%Z ->
  F.close_to_one (Np.sum (Np.div_scalar v (Np.sum v))) = true.
Proof.
  intros Hv Hs Hlen.
  pose proof (length_bound _ Hlen) as Hlen'.
  pose proof (sum_approx 54 v Hlen' Hv) as [HV Hsum].
  change (26 + 54) with 80 in Hsum.
  destruct (Np.sum v) as [ | | |[] ms es] eqn:Es; try discriminate.
  destruct Hsum as [[Hinf _]|[_ Hb]]; [discriminate|].
  set (s := S754_finite false ms es) in *.
  assert (Hsig : (0 < value s)%R).
  { unfold s. simpl. rewrite Rmult_1_l.
    apply Rmult_lt_0_compat; [apply IZR_lt; lia|apply bpow_pos]. }
  destruct pow80_bounds as [[HP1 HP2] [HQ1 HQ2]].
  set (P := ((1 + u32) ^ 80)%R) in *. set (Q := ((1 - u32) ^ 80)%R) in *.
  set (V := total v) in *. set (sg := value s) in *.
  assert (HVpos : (0 < V)%R) by nra.
  set (rho := (V / sg)%R).
  assert (Hrho : (rho * sg = V)%R) by (unfold rho; field; lra).
  assert (Hrho0 : (0 < rho)%R) by (unfold rho; apply Rdiv_lt_0_compat; lra).
  assert (Hr1 : (rho * Q <= 1)%R) by nra.
  assert (Hr2 : (1 <= rho * P)%R) by nra.
  assert (Hr3 : (rho <= 16777216 / 16777136)%R) by nra.
  assert (Hr4 : (16777136 / 16777216 <= rho)%R) by nra.
  assert (Hle : Forall (fun x => (value x <= 2 * value s)%R) v).
  { apply Forall_impl with (2 := total_ge v Hv). intros x Hx.
    fold V in Hx. fold sg. nra. }
  destruct (div_scalar_bound ms es v Hv Hle) as [Hw Hwb].
  fold s in Hw, Hwb. fold sg V rho in Hwb.
  set (w := Np.div_scalar v s) in *.
  pose proof (eta_total (length v) Hlen) as Heta.
  assert (Heta0 : (0 <= INR (length v) * eta32)%R).
  { apply Rmult_le_pos; [apply pos_INR|].
    unfold eta32. pose proof (bpow_pos (-149)). lra. }
  apply Rabs_le_inv in Hwb.
  pose proof u32_eq as Hue.
  set (W := total w) in *.
  assert (HW1 : (W <= (1 + / 16777216) * (16777216 / 16777136)
                      + / 1000000000)%R).
  { rewrite <- Hue. nra. }
  assert (HW2 : ((1 - / 16777216) * (16777136 / 16777216)
                 - / 1000000000 <= W)%R).
  { rewrite <- Hue. nra. }
  assert (Hlw : length w <= 114 * 2 ^ 54 + 14)
    by (unfold w; rewrite length_div_scalar; assumption).
  pose proof (sum_approx 54 w Hlw Hw) as [HW0 Ht].
  change (26 + 54) with 80 in Ht. fold P Q W in Ht.
  destruct Ht as [[_ Hbig]|[[Nt Lt] Hb']].
  - exfalso. pose proof bpow127_big. nra.
  - apply close_to_one_spec; [assumption|].
    apply Rabs_le. set (t := value (Np.sum w)) in *. split; nra.
Qed.

(** ** The float32 values of a table *)

Lemma f32_of_f64_lowexp (x : F.float) : lowexp 24 128 (F.f32_of_f64 x).
Proof.
  destruct x as [s|s| |s m e]; try exact I.
  unfold F.f32_of_f64, F.prec32, F.emax32.
  apply binary_round_lowexp; lia.
Qed.

Lemma floats_lowexp (toks : list string) (v : Np.ndarray) :
  floats toks = Ok v -> Forall (lowexp 24 128) v.
Proof.
  revert v. induction toks as [|t toks IH]; cbn [floats]; intros v.
  - intros [= <-]. constructor.
  - destruct (Text.py_float t) as [f|]; [|discriminate].
    intros H. apply bind_ok in H as (w & Hw & [= <-]).
    constructor; [apply f32_of_f64_lowexp|apply IH; assumption].
Qed.

Lemma mean2_lowexp (a : Np.ndarray) : forall b : Np.ndarray,
  Forall (lowexp 24 128) (Np.mean2 a b).
Proof.
  induction a as [|x a IH]; intros [|y b]; cbn [Np.mean2]; constructor;
    [unfold F.div, F.prec32, F.emax32; apply SFdiv_lowexp; lia|apply IH].
Qed.

Lemma full_lowexp (n : nat) (x : F.float) :
  lowexp 24 128 x -> Forall (lowexp 24 128) (Np.full n x).
Proof.
  intros H. apply Forall_forall. intros y Hy.
  apply repeat_spec in Hy. subst y. assumption.
Qed.

Lemma store_lowexp_setnew (k : string) (v : Np.ndarray) (st : env) :
  store_lowexp st -> Forall (lowexp 24 128) v -> store_lowexp (setnew k v st).
Proof.
  unfold store_lowexp. cbn [setnew store]. intros H Hv.
  apply Forall_app. split; [assumption|]. constructor; [assumption|constructor].
Qed.

Lemma parse_lines_lowexp (st st' : env) (lines : list string) :
  store_lowexp st -> parse_lines st lines = Ok st' -> store_lowexp st'.
Proof.
  apply (parse_lines_invariant store_lowexp).
  intros st0 line st0' _ H0 H.
  apply parse_line_ok in H as [[_ ->] | (_ & aa & toks & v & _ & Hv & ->)];
    [assumption|].
  apply (store_lowexp_setnew aa v st0 H0). apply (floats_lowexp _ _ Hv).
Qed.

Lemma expanded_lowexp (s : string) (average : bool) (st : env) :
  expanded s average = Ok st -> store_lowexp st.
Proof.
  intros H.
  destruct (expanded_ok _ _ _ H)
    as (st0 & c & k & x & d & n & i & l & e & q & Hp & _ & _ & _ & Hx & _ & _
        & _ & _ & _ & _ & _ & _ & _ & ->).
  assert (H0 : store_lowexp st0).
  { apply (parse_lines_lowexp (mkEnv [] [] 0) st0 _ (Forall_nil _) Hp). }
  assert (Lx : lowexp 24 128 x).
  { apply x_value_spec in Hx as [-> _].
    destruct average; [unfold uniform; apply f32_of_f64_lowexp|exact I]. }
  unfold expand_with.
  repeat (apply store_lowexp_setnew;
          [|first [apply mean2_lowexp | apply full_lowexp; assumption]]).
  exact H0.
Qed.

Lemma lookup_lowexp (st : env) (k : string) (v : Np.ndarray) :
  store_lowexp st -> lookup st k = Some v -> Forall (lowexp 24 128) v.
Proof.
  unfold lookup, deref, store_lowexp. intros Hst H.
  destruct (Dict.get k (aa_to_aadist st)) as [a|]; [|discriminate].
  injection H as <-.
  destruct (nth_in_or_default a (store st) []) as [Hin| ->];
    [|constructor].
  apply (proj1 (Forall_forall _ _) Hst _ Hin).
Qed.

Lemma summable_regular (v : Np.ndarray) :
  Forall (lowexp 24 128) v -> forallb nonneg_finite v = true ->
  Forall regular v.
Proof.
  intros Hl Hn. rewrite forallb_forall in Hn.
  apply Forall_forall. intros x Hx. split; [apply Hn; assumption|].
  apply (proj1 (Forall_forall _ _) Hl _ Hx).
Qed.

Lemma all_summable_sound (st : env) (k : string) (v : Np.ndarray) :
  all_summable st = true -> lookup st k = Some v -> summable v = true.
Proof.
  unfold all_summable, lookup. intros Hall Hv.
  destruct (Dict.get k (aa_to_aadist st)) as [a|] eqn:Ha; [|discriminate].
  injection Hv as <-. apply DictFacts.get_in in Ha.
  rewrite forallb_forall in Hall. exact (Hall _ Ha).
Qed.

Lemma exchangeability_rows_summable :
  match expanded JTT_P01_DATA true with
  | Ok st => all_summable st
  | Raise _ => false
  end = true.
Proof. vm_compute. reflexivity. Qed.

(** C5, as the code has it: in a table built with [normalize=true] every
    entry but the missing-data one is the vector the expansion left,
    divided component by component by its float32 sum.  Whenever that
    vector has only finite non-negative components, at most [2^60] of
    them, and a finite positive float32 sum, the components of the entry
    sum to 1 within 1e-5 in float32. *)
Theorem C5_normalized_rows_sum_to_one
    (s : string) (average : bool) (tbl : env) :
  _res_to_feature_helper s true average = Ok tbl ->
  exists st,
    expanded s average = Ok st /\
    forall k v', k <> MISSINGAA -> lookup tbl k = Some v' ->
      exists v, lookup st k = Some v /\ v' = normalized v /\
                (summable v = true ->
                 F.close_to_one (Np.sum v') = true).
Proof.
  intros H.
  destruct (table_lookup _ _ _ _ H) as (st & He & _ & _ & _ & _ & Hlook & _).
  exists st. split; [assumption|]. intros k v' Hk Hv'.
  rewrite (Hlook k Hk) in Hv'.
  destruct (lookup st k) as [v|] eqn:Ev; [|discriminate].
  cbn [option_map post] in Hv'. injection Hv' as <-.
  exists v. split; [reflexivity|]. split; [reflexivity|]. intros Hs.
  unfold summable in Hs.
  apply andb_prop in Hs as [Hs Hlen]. apply andb_prop in Hs as [Hn Hp].
  apply Z.leb_le in Hlen.
  pose proof (lookup_lowexp st k v (expanded_lowexp _ _ _ He) Ev) as Hl.
  unfold normalized.
  apply normalized_sum_close;
    [apply summable_regular; assumption|assumption|assumption].
Qed.

(** ** Concrete instances: where the code departs from the specification,
    and the theorems at concrete inputs *)

(** C1 fails: [small_table] with [normalize=true, average=false] has the
    all-zero X, whose sum is exactly zero, and the helper still returns a
    table. *)
Lemma C1_zero_sum_returns_table :
  exists st tbl,
    expanded small_table false = Ok st /\
    lookup st "X" = Some [F.pzero; F.pzero] /\
    F.is_zero (Np.sum [F.pzero; F.pzero]) = true /\
    _res_to_feature_helper small_table true false = Ok tbl /\
    lookup tbl "X" = Some [F.nan; F.nan].
Proof.
  eexists. eexists.
  split; [vm_compute; reflexivity|].
  split; [vm_compute; reflexivity|].
  split; [vm_compute; reflexivity|].
  split; vm_compute; reflexivity.
Qed.

Lemma C1_zero_sum_gives_nan_witness :
  exists st,
    expanded small_table false = Ok st /\
    exists tbl,
      _res_to_feature_helper small_table true false = Ok tbl /\
      (forall k v, k <> MISSINGAA -> lookup st k = Some v ->
                   F.is_zero (Np.sum v) = true ->
                   exists w, lookup tbl k = Some w /\ Forall2 zero_quotient v w) /\
      (false = false ->
       lookup tbl "X" = Some (Np.full (feature_count st) F.nan)).
Proof.
  eexists. split.
  - vm_compute. reflexivity.
  - apply C1_zero_sum_gives_nan. vm_compute. reflexivity.
Defined.

(** C2 fails: with [normalize=false] U and C are one array object, so a
    write through U is seen through C. *)
Lemma C2_synonym_shares_array :
  exists tbl,
    _res_to_feature_helper small_table false false = Ok tbl /\
    aliased tbl "U" "C" /\
    lookup tbl "C" = Some [F.of_Z 1; F.of_Z 3] /\
    lookup (write_item tbl "U" 0 F.nan) "C" = Some [F.nan; F.of_Z 3].
Proof.
  eexists. split; [vm_compute; reflexivity|].
  split; [exists 0; split; reflexivity|].
  split; vm_compute; reflexivity.
Qed.

Lemma C2_synonyms_equal_by_value_witness :
  exists tbl,
    _res_to_feature_helper small_table true true = Ok tbl /\
    (exists u, lookup tbl "U" = Some u /\ lookup tbl "C" = Some u) /\
    (exists o, lookup tbl "O" = Some o /\ lookup tbl "K" = Some o) /\
    ~ aliased tbl "U" "C" /\ ~ aliased tbl "O" "K".
Proof.
  eexists. split.
  - vm_compute. reflexivity.
  - apply (C2_synonyms_equal_by_value small_table true true).
    vm_compute. reflexivity.
Defined.

(** C3 fails: a table built from the eight rows of [small_table] has 15
    entries, not 27; and in a table built from [ragged_table], whose first
    data row has two fields, the entries of the missing-data marker and of
    K have one component. *)
Lemma C3_fifteen_entries_and_ragged :
  (exists tbl,
     _res_to_feature_helper small_table false false = Ok tbl /\
     length (aa_to_aadist tbl) = 15) /\
  (exists tbl,
     _res_to_feature_helper ragged_table false false = Ok tbl /\
     hd 0 (map width (rows ragged_table)) = 2 /\
     lookup tbl MISSINGAA = Some [F.pzero] /\
     lookup tbl "K" = Some [F.of_Z 1]).
Proof.
  split; eexists; (split; [vm_compute; reflexivity|]).
  - reflexivity.
  - split; [|split]; vm_compute; reflexivity.
Qed.

Lemma C3_table_shape_witness :
  exists tbl,
    (_res_to_feature_helper AANDX_RED_DATA false false = Ok tbl /\
     (forall r, In r (rows AANDX_RED_DATA) ->
        (exists aa, hd_error r = Some aa /\ In aa all_codes) /\ width r = 11) /\
     (forall c, In c standard_codes ->
        exists toks, In (c :: toks) (rows AANDX_RED_DATA))) /\
    length (aa_to_aadist tbl) = 27 /\
    (forall k, In k (Dict.keys (aa_to_aadist tbl)) <-> In k all_codes) /\
    (forall k, In k all_codes -> exists v, lookup tbl k = Some v /\ length v = 11) /\
    feature_count tbl = 11 /\
    hd 0 (map width (rows AANDX_RED_DATA)) = 11.
Proof.
  assert (Hrows : forall r, In r (rows AANDX_RED_DATA) ->
            (exists aa, hd_error r = Some aa /\ In aa all_codes) /\ width r = 11).
  { intros r Hr. vm_compute in Hr.
    repeat (destruct Hr as [<- | Hr];
            [split; [eexists; split; [reflexivity | vm_compute; tauto] | reflexivity]|]).
    destruct Hr. }
  assert (Hstd : forall c, In c standard_codes ->
            exists toks, In (c :: toks) (rows AANDX_RED_DATA)).
  { intros c Hc. vm_compute in Hc.
    repeat (destruct Hc as [<- | Hc];
            [eexists; vm_compute; repeat first [left; reflexivity | right]|]).
    destruct Hc. }
  destruct (_res_to_feature_helper AANDX_RED_DATA false false)
    as [tbl|e] eqn:Hok; [|vm_compute in Hok; discriminate].
  exists tbl. split; [split; [reflexivity | split; assumption]|].
  exact (C3_table_shape AANDX_RED_DATA false false tbl 11 Hok Hrows Hstd).
Defined.


(** C5 fails where the code follows its design: in the table built from
    [cancelling_table] with both flags set, the row of A has components of
    both signs and the sum of the row of R overflows; after the
    renormalisation the components of A sum to about 1.027 and those of R
    to 0. *)
Lemma C5_cancellation_and_overflow :
  exists tbl a r,
    _res_to_feature_helper cancelling_table true true = Ok tbl /\
    lookup tbl "A" = Some a /\
    Np.sum a = S754_finite false 8611448 (-23) /\
    F.close_to_one (Np.sum a) = false /\
    lookup tbl "R" = Some r /\
    Np.sum r = F.pzero /\
    F.close_to_one (Np.sum r) = false.
Proof.
  do 3 eexists. split; [vm_compute; reflexivity|].
  split; [vm_compute; reflexivity|].
  split; [vm_compute; reflexivity|].
  split; [vm_compute; reflexivity|].
  split; [vm_compute; reflexivity|].
  split; vm_compute; reflexivity.
Qed.

Lemma C5_normalized_rows_sum_to_one_witness :
  exists tbl,
    _res_to_feature_helper JTT_P01_DATA true true = Ok tbl /\
    forall k v', k <> MISSINGAA -> lookup tbl k = Some v' ->
                 F.close_to_one (Np.sum v') = true.
Proof.
  destruct (_res_to_feature_helper JTT_P01_DATA true true) as [tbl|e] eqn:H;
    [|vm_compute in H; discriminate H].
  exists tbl. split; [reflexivity|].
  destruct (C5_normalized_rows_sum_to_one JTT_P01_DATA true tbl H)
    as (st & He & Hall).
  pose proof exchangeability_rows_summable as Hs. rewrite He in Hs.
  intros k v' Hk Hv'. destruct (Hall k v' Hk Hv') as (v & Ev & _ & Hclose).
  apply Hclose. exact (all_summable_sound st k v Hs Ev).
Defined.

Lemma C6_missing_marker_is_zero_witness :
  exists tbl,
    _res_to_feature_helper small_table true false = Ok tbl /\
    lookup tbl MISSINGAA = Some (Np.full (feature_count tbl) F.pzero) /\
    feature_count tbl = last (map width (rows small_table)) 0 /\
    exists st',
      (st <- expanded small_table false ;; renormalize true st) = Ok st' /\
      tbl = add_missing st' /\
      Dict.get MISSINGAA (aa_to_aadist tbl) = Some (length (store st')).
Proof.
  destruct (_res_to_feature_helper small_table true false) as [tbl|e] eqn:H;
    [|vm_compute in H; discriminate].
  exists tbl. split; [reflexivity|].
  exact (C6_missing_marker_is_zero small_table true false tbl H).
Defined.

(** C7 fails: [bare_table] has no row for D, yet with [average=true] the
    helper stops with [ZeroDivisionError], not with an error that names a
    missing residue. *)
Lemma C7_zero_division_before_key_error :
  exists st0,
    parse_table bare_table = Ok st0 /\
    lookup st0 "D" = None /\
    first_missing st0 = Some "D" /\
    _res_to_feature_helper bare_table true true = Raise ZeroDivisionError /\
    _res_to_feature_helper bare_table false true = Raise ZeroDivisionError.
Proof.
  eexists. split; [vm_compute; reflexivity|].
  repeat split; vm_compute; reflexivity.
Qed.

Lemma C7_missing_base_residue_witness :
  exists st0,
    (parse_table bare_table = Ok st0 /\
     In "D" required_codes /\ lookup st0 "D" = None) /\
    exists c e,
      first_missing st0 = Some c /\
      _res_to_feature_helper bare_table false false = Raise e /\
      (mean_failure st0 c e \/
       (e = ZeroDivisionError /\ false = true /\ feature_count st0 = 0 /\
        lookup st0 "C" <> None /\ lookup st0 "K" <> None)).
Proof.
  eexists.
  assert (Hp : parse_table bare_table = Ok _) by (vm_compute; reflexivity).
  assert (Hin : In "D" required_codes) by (simpl; tauto).
  split; [split; [exact Hp | split; [exact Hin | reflexivity]]|].
  exact (C7_missing_base_residue bare_table false false _ "D" Hp Hin eq_refl).
Defined.

(** C8 fails on the returned table: with [normalize=true] the X entry
    is renormalised like every other entry.  For the eleven features of
    [AANDX_RED_DATA] and [average=true] its value is one unit in the last
    place below the float32 value of 1/11, and for [small_table] and
    [average=false] it is not the zero vector. *)
Lemma C8_returned_x_is_renormalised :
  (exists tbl,
     _res_to_feature_helper AANDX_RED_DATA true true = Ok tbl /\
     feature_count tbl = 11 /\
     lookup tbl "X" = Some (Np.full 11 (S754_finite false 12201611 (-27))) /\
     uniform 11 = S754_finite false 12201612 (-27) /\
     lookup tbl "X" <> Some (Np.full 11 (uniform 11))) /\
  (exists tbl,
     _res_to_feature_helper small_table true false = Ok tbl /\
     feature_count tbl = 2 /\
     lookup tbl "X" = Some [F.nan; F.nan] /\
     lookup tbl "X" <> Some (Np.full 2 F.pzero)).
Proof.
  split.
  - destruct (_res_to_feature_helper AANDX_RED_DATA true true)
      as [tbl|e] eqn:H; [|vm_compute in H; discriminate H].
    exists tbl. split; [reflexivity|].
    assert (Hn : feature_count tbl = 11).
    { assert (E : match _res_to_feature_helper AANDX_RED_DATA true true with
                  | Ok t => feature_count t
                  | Raise _ => 0
                  end = 11) by (vm_compute; reflexivity).
      rewrite H in E. exact E. }
    assert (HX : lookup tbl "X"
                 = Some (Np.full 11 (S754_finite false 12201611 (-27)))).
    { assert (E : match _res_to_feature_helper AANDX_RED_DATA true true with
                  | Ok t => lookup t "X"
                  | Raise _ => None
                  end = Some (Np.full 11 (S754_finite false 12201611 (-27))))
        by (vm_compute; reflexivity).
      rewrite H in E. exact E. }
    assert (Hu : uniform 11 = S754_finite false 12201612 (-27))
      by (vm_compute; reflexivity).
    split; [exact Hn|]. split; [exact HX|]. split; [exact Hu|].
    rewrite HX, Hu. discriminate.
  - eexists. split; [vm_compute; reflexivity|].
    split; [vm_compute; reflexivity|].
    split; [vm_compute; reflexivity|].
    vm_compute. discriminate.
Qed.

Lemma C8_x_from_flags_and_count_witness :
  exists tbl,
    _res_to_feature_helper small_table false true = Ok tbl /\
    (true = true -> feature_count tbl <> 0) /\
    (exists st,
       expanded small_table true = Ok st /\
       feature_count st = feature_count tbl /\
       lookup st "X"
       = Some (Np.full (feature_count tbl) (uniform (feature_count tbl)))) /\
    lookup tbl "X" = Some (returned_x false true (feature_count tbl)).
Proof.
  destruct (_res_to_feature_helper small_table false true) as [tbl|e] eqn:H;
    [|vm_compute in H; discriminate].
  exists tbl. split; [reflexivity|].
  exact (C8_x_from_flags_and_count small_table false true tbl H).
Defined.

(** ** The model at work *)

Example readlines_keeps_line_ends :
  Text.readlines "# c
A 1 2

x" = ["# c
"; "A 1 2
"; "
"; "x"].
Proof. reflexivity. Qed.

Example split_drops_whitespace :
  Text.split "  A 0.5   1e3 " = ["A"; "0.5"; "1e3"].
Proof. reflexivity. Qed.

Example py_float_reads_literals :
  option_map F.f32_of_f64 (Text.py_float "0.98754")
  = Some (S754_finite false 16568172 (-24)) /\
  option_map F.f32_of_f64 (Text.py_float "-0.0086")
  = Some (S754_finite true 9234180 (-30)) /\
  Text.py_float "1_0.5E+1" = Some (F.f64_of_Z 105) /\
  Text.py_float "-Infinity" = Some (S754_infinity true) /\
  Text.py_float "1e" = None /\ Text.py_float "0x10" = None /\
  Text.py_float "." = None.
Proof. repeat split; vm_compute; reflexivity. Qed.

Example uniform_twentieth :
  uniform 20 = S754_finite false 13421773 (-28) /\
  Np.sum (Np.full 20 (uniform 20)) = F.one.
Proof. split; vm_compute; reflexivity. Qed.

Example presets_have_27_entries :
  (exists tbl, _res_to_feature_helper JTT_P01_DATA true true = Ok tbl /\
               length (aa_to_aadist tbl) = 27 /\ feature_count tbl = 20) /\
  (exists tbl, _res_to_feature_helper AANDX_RED_DATA false false = Ok tbl /\
               length (aa_to_aadist tbl) = 27 /\ feature_count tbl = 11).
Proof.
  split; eexists; (split; [vm_compute; reflexivity|]); split; reflexivity.
Qed.

(** ** Further properties of the helper: failures and success *)

Lemma parse_lines_comments (st : env) (lines : list string) :
  (forall l, In l lines -> is_comment l = true) -> parse_lines st lines = Ok st.
Proof.
  induction lines as [|l lines IH]; intros H; [reflexivity|].
  simpl. rewrite (parse_line_comment st l) by (apply H; left; reflexivity).
  simpl. apply IH. intros l' Hl'. apply H; right; assumption.
Qed.

(** X4: a feature string without any data line, empty or made of comment
    lines only, makes the helper raise [KeyError] for C, the first key
    the expansion reads. *)
Theorem comments_only_key_error
    (s : string) (normalize average : bool) :
  (forall l, In l (Text.readlines s) -> is_comment l = true) ->
  _res_to_feature_helper s normalize average = Raise (KeyError "C").
Proof.
  intros H. unfold _res_to_feature_helper, expanded, parse_table.
  rewrite (parse_lines_comments _ _ H). reflexivity.
Qed.

Lemma comments_only_key_error_witness :
  (forall l, In l (Text.readlines "# only a comment
") -> is_comment l = true) /\
  _res_to_feature_helper "# only a comment
" true true = Raise (KeyError "C").
Proof.
  assert (H : forall l, In l (Text.readlines "# only a comment
") -> is_comment l = true)
    by (intros l [<- | []]; reflexivity).
  split; [exact H|].
  exact (comments_only_key_error _ true true H).
Defined.

Lemma floats_first_bad (good rest : list string) (bad : string) :
  (forall t, In t good -> Text.py_float t <> None) ->
  Text.py_float bad = None ->
  floats (good ++ bad :: rest) = Raise (ValueError bad).
Proof.
  induction good as [|t good IH]; intros Hgood Hbad; simpl.
  - rewrite Hbad. reflexivity.
  - destruct (Text.py_float t) eqn:Et;
      [|exfalso; apply (Hgood t); [left; reflexivity | assumption]].
    rewrite IH; [reflexivity | | assumption].
    intros t' Ht'. apply Hgood; right; assumption.
Qed.

(** X1: a token that [float] rejects stops the construction.  If the
    lines above a data line parse, and the fields of that line are good up
    to a token [bad] that is no number, the helper raises [ValueError] for
    [bad], whatever follows and whatever the flags. *)
Theorem malformed_number_raises
    (s : string) (normalize average : bool) (pre post : list string)
    (line aa bad : string) (good rest : list string) (st : env) :
  Text.readlines s = pre ++ line :: post ->
  parse_lines (mkEnv [] [] 0) pre = Ok st ->
  is_comment line = false ->
  Text.split line = aa :: good ++ bad :: rest ->
  (forall t, In t good -> Text.py_float t <> None) ->
  Text.py_float bad = None ->
  _res_to_feature_helper s normalize average = Raise (ValueError bad).
Proof.
  intros Hs Hpre Hc Hsplit Hgood Hbad. apply helper_parse_raise.
  unfold parse_table. rewrite Hs, parse_lines_app, Hpre. cbn [bind parse_lines].
  destruct line as [|c line]; [discriminate|].
  unfold parse_line. simpl in Hc. rewrite Hc, Hsplit.
  rewrite (floats_first_bad good rest bad Hgood Hbad). reflexivity.
Qed.

Lemma malformed_number_raises_witness :
  _res_to_feature_helper bad_number_table false true = Raise (ValueError "4,5").
Proof.
  apply (malformed_number_raises bad_number_table false true
           ["C 1 2
"] ["D 1 1
"] "K 3 4,5 x
" "K" "4,5" ["3"] ["x"] (mkEnv [[F.of_Z 1; F.of_Z 2]] [("C", 0)] 2));
    try reflexivity.
  intros t [<- | []]. vm_compute. discriminate.
Defined.

Lemma add_mean_raise (k k1 k2 : string) (st : env) (e : exn) :
  add_mean k k1 k2 st = Raise e ->
  (e = KeyError k1 /\ lookup st k1 = None) \/
  (e = KeyError k2 /\ lookup st k2 = None) \/
  e = ValueError "inhomogeneous shape".
Proof.
  rewrite add_mean_cases.
  destruct (lookup st k1); [|intros [= <-]; auto].
  destruct (lookup st k2); [|intros [= <-]; auto].
  destruct (_ =? _); [discriminate | intros [= <-]; auto].
Qed.

(** X6: the helper fails in four ways only.  It raises [IndexError] or
    [ValueError] (from a line of the text, or from averaging two rows of
    different lengths), [KeyError] for one of the eight residues the
    expansion reads, absent from the parsed rows, or [ZeroDivisionError]
    when [average] is set and the last data row has no field.  The
    renormalisation and the missing-data entry never fail. *)
Theorem helper_failures
    (s : string) (normalize average : bool) (e : exn) :
  _res_to_feature_helper s normalize average = Raise e ->
  e = IndexError \/
  (exists tok, e = ValueError tok) \/
  (exists st0 c, parse_table s = Ok st0 /\ e = KeyError c /\
                 In c required_codes /\ lookup st0 c = None) \/
  (exists st0, parse_table s = Ok st0 /\ e = ZeroDivisionError /\
               average = true /\ feature_count st0 = 0).
Proof.
  unfold _res_to_feature_helper. intros H.
  apply bind_raise in H as [H | (st & He & H)].
  2:{ exfalso.
      assert (Hwf : wf st).
      { destruct (expanded_ok _ _ _ He)
          as (st0 & c & k & x & d & n & i & l & e0 & q & _ & Hwf0 & Hc & Hk & _ & _
              & _ & _ & _ & _ & _ & _ & _ & _ & ->).
        apply expand_with_wf; assumption. }
      destruct (renormalize_ok normalize st Hwf) as (st' & Hr & _).
      rewrite Hr in H. discriminate. }
  unfold expanded in H.
  apply bind_raise in H as [H | (st0 & Hp & H)].
  { destruct (parse_lines_raise _ _ _ H) as [-> | Htok]; auto. }
  pose proof (parse_lines_wf _ _ _ wf_init Hp) as Hwf0.
  apply bind_raise in H as [H | (st1 & Hs & H)].
  { right; right; left. exists st0. unfold add_synonyms in H.
    apply bind_raise in H as [H | (c & Hc & H)].
    - apply getitem_raise in H as [-> H]. exists "C".
      split; [assumption | split; [reflexivity | split; [simpl; tauto|]]].
      apply lookup_none; assumption.
    - apply bind_raise in H as [H | (k & _ & H)]; [|discriminate].
      apply getitem_raise in H as [-> H]. exists "K".
      simpl in H. rewrite DictFacts.get_set in H. simpl in H.
      split; [assumption | split; [reflexivity | split; [simpl; tauto|]]].
      apply lookup_none; assumption. }
  apply add_synonyms_ok in Hs as (c & k & Hc & Hk & ->).
  destruct (expand_with_wf st0 c k F.nan [] [] [] [] [] [] Hwf0 Hc Hk) as [Hwf1 _].
  unfold add_ambiguous in H. simpl feature_count in H.
  apply bind_raise in H as [H | (x & _ & H)].
  { right; right; right. exists st0. destruct average; [|discriminate].
    unfold uniform_value in H. destruct (feature_count st0); [|discriminate].
    injection H as <-. auto. }
  set (stX := setnew "X" (Np.full (feature_count st0) x)
                (setitem "O" k (setitem "U" c st0))) in *.
  assert (HwfX : wf stX) by (unfold stX; wf_tac).
  assert (Hkey : forall r, In r required_codes -> lookup st0 r = None ->
            exists st0' c', parse_table s = Ok st0' /\ KeyError r = KeyError c' /\
                            In c' required_codes /\ lookup st0' c' = None)
    by (intros r Hin Hnone; exists st0, r; auto).
  assert (Hval : exists tok, ValueError "inhomogeneous shape" = ValueError tok)
    by (eexists; reflexivity).
  apply bind_raise in H as [H | (stB & HB & H)].
  { destruct (add_mean_raise _ _ _ _ _ H) as [[-> Hn] | [[-> Hn] | ->]];
      first [ solve [auto]
            | right; right; left; unfold stX in Hn; look_in Hn;
              apply Hkey; [simpl; tauto | assumption] ]. }
  apply add_mean_ok in HB as (d & n & _ & _ & _ & ->).
  apply bind_raise in H as [H | (stJ & HJ & H)].
  { destruct (add_mean_raise _ _ _ _ _ H) as [[-> Hn] | [[-> Hn] | ->]];
      first [ solve [auto]
            | right; right; left; unfold stX in Hn; look_in Hn;
              apply Hkey; [simpl; tauto | assumption] ]. }
  apply add_mean_ok in HJ as (i & l & _ & _ & _ & ->).
  destruct (add_mean_raise _ _ _ _ _ H) as [[-> Hn] | [[-> Hn] | ->]];
    first [ solve [auto]
          | right; right; left; unfold stX in Hn; look_in Hn;
            apply Hkey; [simpl; tauto | assumption] ].
Qed.

Lemma helper_failures_witness :
  _res_to_feature_helper two_rows_text false false = Raise (KeyError "D") /\
  (KeyError "D" = IndexError \/
   (exists tok, KeyError "D" = ValueError tok) \/
   (exists st0 c, parse_table two_rows_text = Ok st0 /\ KeyError "D" = KeyError c /\
                  In c required_codes /\ lookup st0 c = None) \/
   (exists st0, parse_table two_rows_text = Ok st0 /\
                KeyError "D" = ZeroDivisionError /\
                false = true /\ feature_count st0 = 0)).
Proof.
  assert (H : _res_to_feature_helper two_rows_text false false = Raise (KeyError "D"))
    by reflexivity.
  split; [exact H|].
  exact (helper_failures two_rows_text false false (KeyError "D") H).
Defined.

Lemma first_missing_none (st0 : env) (c : string) :
  first_missing st0 = None -> In c required_codes ->
  exists v, lookup st0 c = Some v.
Proof.
  intros Hm Hin. pose proof (find_none _ _ Hm c Hin) as Hf.
  unfold absent in Hf. destruct (lookup st0 c) as [v|]; [eauto | discriminate].
Qed.

Lemma lookup_some_get (st : env) (k : string) (v : Np.ndarray) :
  lookup st k = Some v ->
  exists a, Dict.get k (aa_to_aadist st) = Some a /\ v = deref st a.
Proof.
  unfold lookup. destruct (Dict.get k (aa_to_aadist st)) as [a|]; [|discriminate].
  intros [= <-]. eauto.
Qed.

Lemma expanded_of_expandable (s : string) (average : bool) (st0 : env) :
  parse_table s = Ok st0 -> expandable average st0 ->
  exists c k d n i l e q,
    Dict.get "C" (aa_to_aadist st0) = Some c /\
    Dict.get "K" (aa_to_aadist st0) = Some k /\
    lookup st0 "D" = Some d /\ lookup st0 "N" = Some n /\
    lookup st0 "I" = Some i /\ lookup st0 "L" = Some l /\
    lookup st0 "E" = Some e /\ lookup st0 "Q" = Some q /\
    expanded s average
    = Ok (expand_with st0 c k
            (if average then uniform (feature_count st0) else F.pzero)
            d n i l e q).
Proof.
  intros Hp (Hm & Hlen & Hfc).
  pose proof (parse_lines_wf _ _ _ wf_init Hp) as Hwf0.
  destruct (first_missing_none st0 "C" Hm) as (vc & HC); [simpl; tauto|].
  destruct (first_missing_none st0 "K" Hm) as (vk & HK); [simpl; tauto|].
  destruct (first_missing_none st0 "D" Hm) as (d & HD); [simpl; tauto|].
  destruct (first_missing_none st0 "N" Hm) as (n & HN); [simpl; tauto|].
  destruct (first_missing_none st0 "I" Hm) as (i & HI); [simpl; tauto|].
  destruct (first_missing_none st0 "L" Hm) as (l & HL); [simpl; tauto|].
  destruct (first_missing_none st0 "E" Hm) as (e & HE); [simpl; tauto|].
  destruct (first_missing_none st0 "Q" Hm) as (q & HQ); [simpl; tauto|].
  apply lookup_some_get in HC as (c & HC & _).
  apply lookup_some_get in HK as (k & HK & _).
  exists c, k, d, n, i, l, e, q. repeat (split; [assumption|]).
  destruct (expand_with_wf st0 c k F.nan [] [] [] [] [] [] Hwf0 HC HK) as [Hwf1 _].
  unfold expanded. rewrite Hp. cbn [bind].
  unfold add_synonyms, getitem. rewrite HC. cbn [bind]. simpl aa_to_aadist.
  rewrite DictFacts.get_set. simpl. rewrite HK. cbn [bind].
  unfold add_ambiguous. simpl feature_count.
  assert (Hx : (if average then uniform_value (feature_count st0) else Ok F.pzero)
               = Ok (if average then uniform (feature_count st0) else F.pzero)).
  { destruct average; [|reflexivity]. unfold uniform_value.
    destruct (feature_count st0); [exfalso; apply Hfc; reflexivity | reflexivity]. }
  rewrite Hx. cbn [bind].
  assert (Hdn : (length d =? length n) = true)
    by (apply Nat.eqb_eq, (Hlen "D" "N"); simpl; auto).
  assert (Hil : (length i =? length l) = true)
    by (apply Nat.eqb_eq, (Hlen "I" "L"); simpl; auto).
  assert (Heq : (length e =? length q) = true)
    by (apply Nat.eqb_eq, (Hlen "E" "Q"); simpl; auto).
  rewrite add_mean_cases. look. rewrite HD, HN, Hdn. cbn [bind].
  rewrite add_mean_cases. look. rewrite HI, HL, Hil. cbn [bind].
  rewrite add_mean_cases. look. rewrite HE, HQ, Heq. reflexivity.
Qed.

Lemma expandable_of_expanded (s : string) (average : bool) (st : env) :
  expanded s average = Ok st ->
  exists st0, parse_table s = Ok st0 /\ expandable average st0.
Proof.
  intros He.
  destruct (expanded_ok _ _ _ He)
    as (st0 & c & k & x & d & n & i & l & e & q & Hp & Hwf0 & Hc & Hk & Hx & Hd & Hn
        & Hdn & Hi & Hl & Hil & He' & Hq & Heq & _).
  exists st0. split; [assumption|]. split; [|split].
  - unfold first_missing. simpl. unfold absent.
    rewrite (lookup_get _ _ _ Hc), (lookup_get _ _ _ Hk), Hd, Hn, Hi, Hl, He', Hq.
    reflexivity.
  - intros a b va vb [[= <- <-] | [[= <- <-] | [[= <- <-] | []]]] Ha Hb; congruence.
  - apply (x_value_spec _ _ _ Hx).
Qed.

(** X5: when the helper returns a table.  It does so exactly when the
    text parses, the parsed rows include C, K, D, N, I, L, E and Q, the
    rows of each averaged pair have one length, and the last data row has
    at least one field if [average] is set.  The [normalize] flag plays no
    part in it. *)
Theorem helper_success_iff (s : string) (normalize average : bool) :
  (exists tbl, _res_to_feature_helper s normalize average = Ok tbl) <->
  (exists st0, parse_table s = Ok st0 /\ expandable average st0).
Proof.
  split.
  - intros (tbl & H). apply helper_ok in H as (st & _ & He & _).
    apply (expandable_of_expanded _ _ _ He).
  - intros (st0 & Hp & Hex).
    destruct (expanded_of_expandable _ _ _ Hp Hex)
      as (c & k & d & n & i & l & e & q & Hc & Hk & _ & _ & _ & _ & _ & _ & He).
    pose proof (parse_lines_wf _ _ _ wf_init Hp) as Hwf0.
    destruct (expand_with_wf st0 c k
                (if average then uniform (feature_count st0) else F.pzero)
                d n i l e q Hwf0 Hc Hk) as [_ Hwf].
    destruct (renormalize_ok normalize _ Hwf) as (st' & Hr & _).
    exists (add_missing st'). unfold _res_to_feature_helper.
    rewrite He. cbn [bind]. rewrite Hr. reflexivity.
Qed.

(** ** Further properties: the keys and their order *)

Lemma keys_set_add_key (k : string) (a : nat) (d : Dict.t) :
  Dict.keys (Dict.set k a d) = add_key (Dict.keys d) k.
Proof.
  unfold add_key. destruct (existsb (String.eqb k) (Dict.keys d)) eqn:E.
  - apply existsb_exists in E as (x & Hx & Hkx).
    apply String.eqb_eq in Hkx; subst x.
    apply DictFacts.keys_set_present; assumption.
  - apply DictFacts.keys_set_absent. intros Hin.
    assert (existsb (String.eqb k) (Dict.keys d) = true)
      by (apply existsb_exists; exists k; split; [assumption | apply String.eqb_refl]).
    congruence.
Qed.

Lemma parse_lines_keys (lines : list string) :
  forall st st', parse_lines st lines = Ok st' ->
  Dict.keys (aa_to_aadist st')
  = fold_left add_key (map (hd "") (rows_of lines)) (Dict.keys (aa_to_aadist st)).
Proof.
  induction lines as [|line lines IH]; intros st st'; simpl parse_lines.
  - intros [= <-]; reflexivity.
  - intros H; apply bind_ok in H as (st1 & H1 & H2).
    rewrite (IH _ _ H2), rows_of_cons.
    apply parse_line_ok in H1 as [[-> ->] | (-> & aa & toks & v & Hs & _ & ->)];
      [reflexivity|].
    rewrite Hs. simpl. rewrite keys_set_add_key. reflexivity.
Qed.

Lemma expand_with_key_list (st0 : env) (c k : nat) (x : F.float)
    (d n i l e q : Np.ndarray) :
  Dict.keys (aa_to_aadist (expand_with st0 c k x d n i l e q))
  = fold_left add_key derived_codes (Dict.keys (aa_to_aadist st0)).
Proof.
  unfold expand_with. simpl aa_to_aadist.
  rewrite !keys_set_add_key. reflexivity.
Qed.

Lemma table_keys (s : string) (normalize average : bool) (tbl : env) :
  _res_to_feature_helper s normalize average = Ok tbl ->
  exists st0,
    parse_table s = Ok st0 /\
    feature_count tbl = feature_count st0 /\
    Dict.keys (aa_to_aadist tbl)
    = fold_left add_key added_codes (Dict.keys (aa_to_aadist st0)).
Proof.
  intros H. apply helper_spec in H
    as (st & st' & He & _ & _ & _ & Hkeys & Hfc & _ & _ & ->).
  destruct (expanded_ok _ _ _ He)
    as (st0 & c & k & x & d & n & i & l & e & q & Hp & _ & _ & _ & _ & _ & _
        & _ & _ & _ & _ & _ & _ & _ & ->).
  exists st0. split; [assumption|]. split; [exact Hfc|].
  unfold add_missing. simpl aa_to_aadist.
  rewrite keys_set_add_key, Hkeys, expand_with_key_list.
  unfold added_codes. rewrite fold_left_app. reflexivity.
Qed.

(** X7: the keys of the returned table, in the order in which a Python
    dictionary lists them, are the first tokens of the data rows from top
    to bottom, followed by U, O, X, B, J, Z and the missing-data marker,
    each key standing at the place of its first occurrence in that
    sequence; no key occurs twice. *)
Theorem table_key_order
    (s : string) (normalize average : bool) (tbl : env) :
  _res_to_feature_helper s normalize average = Ok tbl ->
  Dict.keys (aa_to_aadist tbl) = first_seen (row_keys s ++ added_codes) /\
  NoDup (Dict.keys (aa_to_aadist tbl)).
Proof.
  intros H. split.
  - destruct (table_keys _ _ _ _ H) as (st0 & Hp & _ & ->).
    unfold first_seen, row_keys, rows. rewrite fold_left_app. f_equal.
    apply (parse_lines_keys _ _ _ Hp).
  - destruct (table_lookup _ _ _ _ H) as (_ & _ & _ & Hwf & _). exact (proj1 Hwf).
Qed.

Lemma table_key_order_witness :
  exists tbl,
    _res_to_feature_helper small_table true true = Ok tbl /\
    Dict.keys (aa_to_aadist tbl)
    = ["C"; "K"; "D"; "N"; "I"; "L"; "E"; "Q"; "U"; "O"; "X"; "B"; "J"; "Z"; "."] /\
    NoDup (Dict.keys (aa_to_aadist tbl)).
Proof.
  destruct (_res_to_feature_helper small_table true true) as [tbl|e] eqn:H;
    [|vm_compute in H; discriminate].
  exists tbl. split; [reflexivity|].
  exact (table_key_order small_table true true tbl H).
Defined.

(** ** Further properties: how the flags and the rows show in the table *)

Lemma helper_of_expandable
    (s : string) (normalize average : bool) (st0 : env) :
  parse_table s = Ok st0 -> expandable average st0 ->
  exists tbl, _res_to_feature_helper s normalize average = Ok tbl.
Proof.
  intros Hp Hex.
  destruct (expanded_of_expandable _ _ _ Hp Hex)
    as (c & k & d & n & i & l & e & q & Hc & Hk & _ & _ & _ & _ & _ & _ & He).
  pose proof (parse_lines_wf _ _ _ wf_init Hp) as Hwf0.
  destruct (expand_with_wf st0 c k
              (if average then uniform (feature_count st0) else F.pzero)
              d n i l e q Hwf0 Hc Hk) as [_ Hwf].
  destruct (renormalize_ok normalize _ Hwf) as (st' & Hr & _).
  exists (add_missing st'). unfold _res_to_feature_helper.
  rewrite He. cbn [bind]. rewrite Hr. reflexivity.
Qed.



Lemma expand_with_other_x (st0 : env) (c k : nat) (x1 x2 : F.float)
    (d n i l e q : Np.ndarray) (k' : string) :
  wf st0 ->
  Dict.get "C" (aa_to_aadist st0) = Some c ->
  Dict.get "K" (aa_to_aadist st0) = Some k ->
  k' <> "X" ->
  lookup (expand_with st0 c k x1 d n i l e q) k'
  = lookup (expand_with st0 c k x2 d n i l e q) k'.
Proof.
  intros Hwf Hc Hk Hx.
  destruct (expand_with_wf st0 c k x1 d n i l e q Hwf Hc Hk) as [Hwf1 _].
  unfold expand_with. rewrite !lookup_setnew by wf_tac.
  rewrite (proj2 (String.eqb_neq k' "X") Hx). reflexivity.
Qed.

(** X11: the [average] flag changes the X entry and nothing else.  If
    the helper returns a table with [average=true], it returns one with
    [average=false] (and the same [normalize]), with the same keys in the
    same order and the same [feature_count], and every entry but X is the
    same in both. *)
Theorem average_changes_only_x (s : string) (normalize : bool) (t1 : env) :
  _res_to_feature_helper s normalize true = Ok t1 ->
  exists t0,
    _res_to_feature_helper s normalize false = Ok t0 /\
    Dict.keys (aa_to_aadist t1) = Dict.keys (aa_to_aadist t0) /\
    feature_count t1 = feature_count t0 /\
    (forall k, k <> "X" -> lookup t1 k = lookup t0 k).
Proof.
  intros H1.
  destruct (table_lookup _ _ _ _ H1) as (st1 & He1 & _ & _ & Hfc1 & Hdot1 & Hlook1 & _).
  destruct (expandable_of_expanded _ _ _ He1) as (st0 & Hp & Hm & Hlen & _).
  assert (Hex0 : expandable false st0)
    by (split; [assumption | split; [assumption | discriminate]]).
  destruct (helper_of_expandable s normalize false st0 Hp Hex0) as (t0 & H0).
  exists t0. split; [assumption|].
  destruct (table_lookup _ _ _ _ H0) as (st2 & He0 & _ & _ & Hfc0 & Hdot0 & Hlook0 & _).
  destruct (expanded_ok _ _ _ He1)
    as (st0a & c & k & x & d & n & i & l & e & q & Hpa & Hwf0 & Hc & Hk & _ & Hd & Hn
        & _ & Hi & Hl & _ & He' & Hq & _ & E1).
  destruct (expanded_ok _ _ _ He0)
    as (st0b & c' & k' & x' & d' & n' & i' & l' & e' & q' & Hpb & _ & Hc' & Hk' & _
        & Hd' & Hn' & _ & Hi' & Hl' & _ & He'' & Hq' & _ & E0).
  rewrite Hp in Hpa, Hpb. injection Hpa as <-. injection Hpb as <-.
  assert (c' = c) by congruence. assert (k' = k) by congruence.
  assert (d' = d) by congruence. assert (n' = n) by congruence.
  assert (i' = i) by congruence. assert (l' = l) by congruence.
  assert (e' = e) by congruence. assert (q' = q) by congruence.
  subst c' k' d' n' i' l' e' q'.
  assert (Hfc : feature_count st1 = feature_count st2) by (subst st1 st2; reflexivity).
  destruct (table_keys _ _ _ _ H1) as (sa & Hpa & _ & ->).
  destruct (table_keys _ _ _ _ H0) as (sb & Hpb & _ & ->).
  rewrite Hp in Hpa, Hpb. injection Hpa as <-. injection Hpb as <-.
  split; [reflexivity|]. split; [congruence|].
  intros r Hr. destruct (string_dec r MISSINGAA) as [-> | Hdot].
  - rewrite Hdot1, Hdot0, Hfc. reflexivity.
  - rewrite (Hlook1 r Hdot), (Hlook0 r Hdot). subst st1 st2.
    rewrite (expand_with_other_x st0 c k x x' d n i l e q r Hwf0 Hc Hk Hr).
    reflexivity.
Qed.

Lemma average_changes_only_x_witness :
  exists t1,
    _res_to_feature_helper small_table true true = Ok t1 /\
    exists t0,
      _res_to_feature_helper small_table true false = Ok t0 /\
      Dict.keys (aa_to_aadist t1) = Dict.keys (aa_to_aadist t0) /\
      feature_count t1 = feature_count t0 /\
      (forall k, k <> "X" -> lookup t1 k = lookup t0 k).
Proof.
  destruct (_res_to_feature_helper small_table true true) as [t1|e] eqn:H;
    [|vm_compute in H; discriminate].
  exists t1. split; [reflexivity|].
  exact (average_changes_only_x small_table true t1 H).
Defined.

Lemma floats_values (toks : list string) (v : Np.ndarray) :
  floats toks = Ok v ->
  Forall2 (fun t x => option_map F.f32_of_f64 (Text.py_float t) = Some x) toks v.
Proof.
  revert v; induction toks as [|t toks IH]; simpl; intros v.
  - intros [= <-]; constructor.
  - destruct (Text.py_float t) as [f|] eqn:Et; [|discriminate].
    intros H; apply bind_ok in H as (w & Hw & [= <-]).
    constructor; [rewrite Et; reflexivity | auto].
Qed.

Lemma parse_table_last_line
    (s : string) (st : env) (pre post : list string) (line aa : string)
    (toks : list string) :
  parse_table s = Ok st ->
  Text.readlines s = pre ++ line :: post ->
  is_comment line = false ->
  Text.split line = aa :: toks ->
  (forall l, In l post -> is_comment l = false ->
             hd_error (Text.split l) <> Some aa) ->
  exists v, floats toks = Ok v /\ lookup st aa = Some v.
Proof.
  unfold parse_table; intros Hparse Hlines Hc Hs Hpost.
  rewrite Hlines, parse_lines_app in Hparse.
  apply bind_ok in Hparse as (st1 & Hpre & Hrest).
  simpl in Hrest; apply bind_ok in Hrest as (st2 & Hline & Hrest).
  pose proof (parse_lines_wf _ _ _ wf_init Hpre) as Hwf1.
  apply parse_line_ok in Hline as [[Hc' _] | (_ & aa' & toks' & v & Hs' & Hv & ->)];
    [congruence|].
  rewrite Hs in Hs'; injection Hs' as <- <-.
  exists v; split; [assumption|].
  refine (parse_lines_keep aa v post _ st Hpost _ _ Hrest).
  - apply wf_set_feature_count, wf_setnew; assumption.
  - rewrite lookup_set_feature_count, lookup_setnew_eq by assumption.
    reflexivity.
Qed.

(** X8: a data row reaches the table unchanged.  For a residue that is
    none of the seven codes the helper adds, the entry of a returned table
    is the vector of float32 values of the fields of its last data row
    (each field read by [float] and cast), divided by its sum when
    [normalize] is set and left as it is otherwise. *)
Theorem row_reaches_table
    (s : string) (normalize average : bool) (tbl : env)
    (pre post : list string) (line aa : string) (toks : list string) :
  _res_to_feature_helper s normalize average = Ok tbl ->
  Text.readlines s = pre ++ line :: post ->
  is_comment line = false ->
  Text.split line = aa :: toks ->
  ~ In aa added_codes ->
  (forall l, In l post -> is_comment l = false ->
             hd_error (Text.split l) <> Some aa) ->
  exists v,
    Forall2 (fun t x => option_map F.f32_of_f64 (Text.py_float t) = Some x) toks v /\
    lookup tbl aa = Some (if normalize then Np.div_scalar v (Np.sum v) else v).
Proof.
  intros H Hlines Hc Hs Hadd Hpost.
  destruct (table_lookup _ _ _ _ H) as (st & He & _ & _ & _ & _ & Hlook & _).
  destruct (expanded_ok _ _ _ He)
    as (st0 & c & k & x & d & n & i & l & e & q & Hp & Hwf0 & Hck & Hk & _ & _ & _
        & _ & _ & _ & _ & _ & _ & _ & ->).
  destruct (parse_table_last_line s st0 pre post line aa toks Hp Hlines Hc Hs Hpost)
    as (v & Hv & Hlk).
  exists v. split; [apply floats_values; assumption|].
  assert (Hder : ~ In aa derived_codes)
    by (intros Hin; apply Hadd; unfold added_codes; apply in_or_app; auto).
  assert (Hdot : aa <> MISSINGAA)
    by (intros ->; apply Hadd; unfold added_codes; apply in_or_app; simpl; auto).
  rewrite (Hlook aa Hdot), (expand_with_base st0 c k x d n i l e q Hwf0 Hck Hk aa Hder), Hlk.
  destruct normalize; reflexivity.
Qed.

Lemma row_reaches_table_witness :
  exists tbl,
    _res_to_feature_helper small_table true true = Ok tbl /\
    exists v,
      Forall2 (fun t x => option_map F.f32_of_f64 (Text.py_float t) = Some x)
              ["2"; "6"] v /\
      lookup tbl "E" = Some (Np.div_scalar v (Np.sum v)).
Proof.
  destruct (_res_to_feature_helper small_table true true) as [tbl|e] eqn:H;
    [|vm_compute in H; discriminate].
  exists tbl. split; [reflexivity|].
  apply (row_reaches_table small_table true true tbl
           ["# residue  f1 f2
"; "C 1 3
"; "K 2 2
"; "D 1 3
"; "N 3 5
"; "I 0.5 0.5
"; "L 1 0
"] ["Q 4 4
"] "E 2 6
" "E" ["2"; "6"] H); try reflexivity.
  - unfold added_codes, derived_codes, MISSINGAA. simpl. intuition discriminate.
  - intros l [<- | []] _. simpl. discriminate.
Defined.

(** ** Further properties: comment lines and the final newline *)

Lemma readlines_nil (s : string) : Text.readlines s = [] -> s = EmptyString.
Proof.
  destruct s as [|c s]; [reflexivity|]. simpl.
  destruct (Ascii.eqb c Text.newline); [discriminate|].
  destruct (Text.readlines s); discriminate.
Qed.

Lemma readlines_app (s1 s2 : string) :
  terminated s1 = true ->
  Text.readlines (s1 ++ s2)%string = Text.readlines s1 ++ Text.readlines s2.
Proof.
  induction s1 as [|c s1 IH]; intros Ht; [reflexivity|].
  change (String c s1 ++ s2)%string with (String c (s1 ++ s2)%string).
  simpl Text.readlines.
  destruct s1 as [|c' s1'].
  - simpl in Ht. rewrite Ht. reflexivity.
  - assert (Ht' : terminated (String c' s1') = true) by exact Ht.
    rewrite (IH Ht').
    destruct (Ascii.eqb c Text.newline); [reflexivity|].
    destruct (Text.readlines (String c' s1')) as [|l ls] eqn:E;
      [apply readlines_nil in E; discriminate|].
    reflexivity.
Qed.

Lemma readlines_one_line (body : string) :
  no_newline body = true ->
  Text.readlines (body ++ String Text.newline EmptyString)%string
  = [(body ++ String Text.newline EmptyString)%string].
Proof.
  induction body as [|c body IH]; intros H; [reflexivity|].
  simpl in H. apply andb_prop in H as [Hc Hb].
  change (String c body ++ String Text.newline EmptyString)%string
    with (String c (body ++ String Text.newline EmptyString)%string).
  simpl Text.readlines. rewrite (IH Hb).
  destruct (Ascii.eqb c Text.newline); [discriminate | reflexivity].
Qed.

Lemma terminated_one_line (body : string) :
  terminated (body ++ String Text.newline EmptyString)%string = true.
Proof.
  induction body as [|c body IH]; [reflexivity|].
  change (String c body ++ String Text.newline EmptyString)%string
    with (String c (body ++ String Text.newline EmptyString)%string).
  simpl. destruct (body ++ String Text.newline EmptyString)%string eqn:E.
  - destruct body; discriminate.
  - exact IH.
Qed.

Lemma helper_parse_eq (s s' : string) (normalize average : bool) :
  parse_table s = parse_table s' ->
  _res_to_feature_helper s normalize average
  = _res_to_feature_helper s' normalize average.
Proof.
  intros H. unfold _res_to_feature_helper, expanded. rewrite H. reflexivity.
Qed.

(** X2: a comment line changes nothing.  Putting a line that starts with
    ['#'] between two parts of a feature string, the first of which is
    empty or ends with a newline, gives the same result, table or error,
    as the string without that line. *)
Theorem comment_line_is_ignored
    (s1 body s2 : string) (normalize average : bool) :
  terminated s1 = true ->
  no_newline body = true ->
  _res_to_feature_helper
    (s1 ++ String "#" (body ++ String Text.newline EmptyString) ++ s2)%string
    normalize average
  = _res_to_feature_helper (s1 ++ s2)%string normalize average.
Proof.
  intros Ht Hb. apply helper_parse_eq. unfold parse_table.
  assert (Hc : no_newline (String "#" body) = true) by (simpl; exact Hb).
  change (String "#" (body ++ String Text.newline EmptyString))
    with (String "#" body ++ String Text.newline EmptyString)%string.
  rewrite !(readlines_app s1) by assumption.
  rewrite (readlines_app _ s2) by apply terminated_one_line.
  rewrite (readlines_one_line _ Hc).
  rewrite !parse_lines_app.
  destruct (parse_lines (mkEnv [] [] 0) (Text.readlines s1)) as [st|e];
    [|reflexivity].
  cbn [bind]. rewrite parse_lines_app. reflexivity.
Qed.

Lemma comment_line_is_ignored_witness :
  (terminated "C 1
" = true /\ no_newline " any text" = true) /\
  _res_to_feature_helper "C 1
# any text
K 2
" true true
  = _res_to_feature_helper "C 1
K 2
" true true.
Proof.
  split; [split; reflexivity|].
  exact (comment_line_is_ignored "C 1
" " any text" "K 2
" true true eq_refl eq_refl).
Defined.

Lemma split_app_space (l : string) (c : ascii) :
  Text.is_space c = true ->
  Text.split (l ++ String c EmptyString)%string = Text.split l.
Proof.
  intros Hc. induction l as [|a l IH]; [simpl; rewrite Hc; reflexivity|].
  change (String a l ++ String c EmptyString)%string
    with (String a (l ++ String c EmptyString)%string).
  simpl Text.split. rewrite IH.
  destruct (Text.is_space a); [reflexivity|].
  destruct l as [|b l']; [simpl; rewrite Hc; reflexivity|].
  reflexivity.
Qed.

Lemma parse_line_add_newline (st : env) (l : string) :
  l <> EmptyString ->
  parse_line st (l ++ String Text.newline EmptyString)%string = parse_line st l.
Proof.
  intros Hl. destruct l as [|c l]; [congruence|].
  pose proof (split_app_space (String c l) Text.newline eq_refl) as Hs.
  change (String c l ++ String Text.newline EmptyString)%string
    with (String c (l ++ String Text.newline EmptyString)%string) in *.
  unfold parse_line. rewrite Hs. reflexivity.
Qed.

Lemma readlines_cons (c : ascii) (s : string) :
  Text.readlines (String c s)
  = if Ascii.eqb c Text.newline
    then String c EmptyString :: Text.readlines s
    else match Text.readlines s with
         | [] => [String c EmptyString]
         | l :: ls => String c l :: ls
         end.
Proof. reflexivity. Qed.

Lemma terminated_cons (c : ascii) (s : string) :
  s <> EmptyString -> terminated (String c s) = terminated s.
Proof. destruct s; [congruence | reflexivity]. Qed.

Lemma readlines_add_newline (s : string) :
  terminated s = false ->
  exists ls l,
    l <> EmptyString /\
    Text.readlines s = ls ++ [l] /\
    Text.readlines (s ++ String Text.newline EmptyString)%string
    = ls ++ [(l ++ String Text.newline EmptyString)%string].
Proof.
  induction s as [|c s IH]; intros Ht; [discriminate|].
  change (String c s ++ String Text.newline EmptyString)%string
    with (String c (s ++ String Text.newline EmptyString)%string).
  destruct (string_dec s EmptyString) as [-> | Hne].
  - simpl in Ht. exists [], (String c EmptyString). simpl. rewrite Ht.
    repeat split; discriminate || reflexivity.
  - rewrite (terminated_cons c s Hne) in Ht.
    destruct (IH Ht) as (ls & l & Hl & H1 & H2).
    rewrite (readlines_cons c s),
            (readlines_cons c (s ++ String Text.newline EmptyString)%string),
            H1, H2.
    destruct (Ascii.eqb c Text.newline).
    + exists (String c EmptyString :: ls), l. auto.
    + destruct ls as [|l0 ls].
      * exists [], (String c l). simpl. repeat split; discriminate || reflexivity.
      * exists (String c l0 :: ls), l. simpl. auto.
Qed.

(** X3: the newline at the end of the last line is optional.  A feature
    string that does not end with a newline gives the same result, table
    or error, as the same string with a newline added. *)
Theorem final_newline_is_optional
    (s : string) (normalize average : bool) :
  terminated s = false ->
  _res_to_feature_helper (s ++ String Text.newline EmptyString)%string
                         normalize average
  = _res_to_feature_helper s normalize average.
Proof.
  intros Ht. apply helper_parse_eq. unfold parse_table.
  destruct (readlines_add_newline s Ht) as (ls & l & Hl & -> & ->).
  rewrite !parse_lines_app.
  destruct (parse_lines (mkEnv [] [] 0) ls) as [st|e]; [|reflexivity].
  cbn [bind parse_lines]. rewrite (parse_line_add_newline st l Hl). reflexivity.
Qed.

Lemma final_newline_is_optional_witness :
  terminated "C 1
K 2" = false /\
  _res_to_feature_helper "C 1
K 2
" false false
  = _res_to_feature_helper "C 1
K 2" false false.
Proof.
  split; [reflexivity|].
  exact (final_newline_is_optional "C 1
K 2" false false eq_refl).
Defined.

(** ** Further properties: which keys share an array *)

Lemma separate_on_setnew (P : string -> Prop) (k : string) (v : Np.ndarray)
    (st : env) :
  wf st -> separate_on P st -> separate_on P (setnew k v st).
Proof.
  intros [_ Ha] Hsep k1 k2 a P1 P2. simpl. rewrite !DictFacts.get_set.
  destruct (String.eqb k1 k) eqn:E1; destruct (String.eqb k2 k) eqn:E2.
  - apply String.eqb_eq in E1, E2. congruence.
  - intros [= <-] G. apply Ha in G. lia.
  - intros G [= <-]. apply Ha in G. lia.
  - apply Hsep; assumption.
Qed.

Lemma separate_on_setitem (P : string -> Prop) (k : string) (a : nat) (st : env) :
  ~ P k -> separate_on P st -> separate_on P (setitem k a st).
Proof.
  intros Hk Hsep k1 k2 a' P1 P2. simpl. rewrite !DictFacts.get_set.
  destruct (String.eqb k1 k) eqn:E1;
    [apply String.eqb_eq in E1; subst; contradiction|].
  destruct (String.eqb k2 k) eqn:E2;
    [apply String.eqb_eq in E2; subst; contradiction|].
  apply Hsep; assumption.
Qed.

Lemma parse_lines_separate (lines : list string) (st : env) :
  parse_lines (mkEnv [] [] 0) lines = Ok st -> separate_on (fun _ => True) st.
Proof.
  intros H.
  enough (wf st /\ separate_on (fun _ => True) st) by tauto. revert H.
  apply (parse_lines_invariant
           (fun st1 => wf st1 /\ separate_on (fun _ => True) st1) lines).
  - intros st1 line st1' _ [Hwf Hsep] Hline.
    apply parse_line_ok in Hline as [[_ ->] | (_ & aa & toks & v & _ & _ & ->)];
      [auto|].
    split; [wf_tac|]. apply (separate_on_setnew _ aa v st1 Hwf Hsep).
  - split; [apply wf_init|]. intros k1 k2 a _ _ G. discriminate G.
Qed.

(** X9: the only keys of a returned table that share an array are a
    synonym and its standard code, and only without renormalisation: two
    different keys hold the same array object exactly when [normalize] is
    off and they are U and C, or O and K. *)
Theorem sharing_is_synonyms_only
    (s : string) (normalize average : bool) (tbl : env) (k1 k2 : string) :
  _res_to_feature_helper s normalize average = Ok tbl ->
  k1 <> k2 ->
  (aliased tbl k1 k2 <->
   normalize = false /\
   ((k1 = "U" /\ k2 = "C") \/ (k1 = "C" /\ k2 = "U") \/
    (k1 = "O" /\ k2 = "K") \/ (k1 = "K" /\ k2 = "O"))).
Proof.
  intros H Hneq.
  apply helper_spec in H
    as (st & st' & He & Hwf & _ & Hwf' & _ & _ & _ & Haddr & ->).
  destruct normalize.
  - split; [|intros [[=] _]].
    intros (a & G1 & G2). exfalso. apply Hneq.
    assert (Hsep : separate_on (fun _ => True) (add_missing st')).
    { apply separate_on_setnew; [assumption|].
      intros r1 r2 a' _ _. apply Haddr. }
    exact (Hsep k1 k2 a I I G1 G2).
  - subst st'.
    destruct (expanded_ok _ _ _ He)
      as (st0 & c & k & x & d & n & i & l & e & q & Hp & Hwf0 & Hc & Hk & _ & _ & _
          & _ & _ & _ & _ & _ & _ & _ & ->).
    destruct (expand_with_wf st0 c k x d n i l e q Hwf0 Hc Hk) as [Hwf1 _].
    set (tbl := add_missing (expand_with st0 c k x d n i l e q)).
    assert (Hsep : separate_on not_synonym tbl).
    { unfold tbl, add_missing, expand_with.
      repeat (apply separate_on_setnew; [wf_tac|]).
      apply separate_on_setitem; [unfold not_synonym; tauto|].
      apply separate_on_setitem; [unfold not_synonym; tauto|].
      intros r1 r2 a _ _. apply (parse_lines_separate _ _ Hp r1 r2 a I I). }
    assert (GU : Dict.get "U" (aa_to_aadist tbl) = Some c)
      by (unfold tbl; simpl; repeat (rewrite DictFacts.get_set; simpl); reflexivity).
    assert (GO : Dict.get "O" (aa_to_aadist tbl) = Some k)
      by (unfold tbl; simpl; repeat (rewrite DictFacts.get_set; simpl); reflexivity).
    assert (GC : Dict.get "C" (aa_to_aadist tbl) = Some c)
      by (unfold tbl; simpl; repeat (rewrite DictFacts.get_set; simpl); assumption).
    assert (GK : Dict.get "K" (aa_to_aadist tbl) = Some k)
      by (unfold tbl; simpl; repeat (rewrite DictFacts.get_set; simpl); assumption).
    assert (PC : not_synonym "C") by (split; discriminate).
    assert (PK : not_synonym "K") by (split; discriminate).
    assert (Hck : c <> k).
    { intros ->. discriminate (Hsep "C" "K" k PC PK GC GK). }
    split.
    + intros (a & G1 & G2). split; [reflexivity|].
      destruct (string_dec k1 "U") as [E1 | N1U];
        [subst k1; rewrite GU in G1; injection G1 as <-|].
      { destruct (string_dec k2 "O") as [-> | N2O];
          [rewrite GO in G2; congruence|].
        left. split; [reflexivity|].
        apply (Hsep k2 "C" c); [split; [congruence | assumption] | | |]; assumption. }
      destruct (string_dec k1 "O") as [E1 | N1O];
        [subst k1; rewrite GO in G1; injection G1 as <-|].
      { destruct (string_dec k2 "U") as [-> | N2U];
          [rewrite GU in G2; congruence|].
        right; right; left. split; [reflexivity|].
        apply (Hsep k2 "K" k); [split; [assumption | congruence] | | |]; assumption. }
      assert (P1 : not_synonym k1) by (split; assumption).
      destruct (string_dec k2 "U") as [-> | N2U].
      { rewrite GU in G2; injection G2 as <-.
        right; left. split; [|reflexivity].
        apply (Hsep k1 "C" c); assumption. }
      destruct (string_dec k2 "O") as [-> | N2O].
      { rewrite GO in G2; injection G2 as <-.
        right; right; right. split; [|reflexivity].
        apply (Hsep k1 "K" k); assumption. }
      exfalso. apply Hneq. apply (Hsep k1 k2 a); [| split | |]; assumption.
    + intros [_ [[-> ->] | [[-> ->] | [[-> ->] | [-> ->]]]]];
        [exists c | exists c | exists k | exists k]; split; assumption.
Qed.

Lemma sharing_is_synonyms_only_witness :
  exists tbl,
    (_res_to_feature_helper small_table false false = Ok tbl /\ "O" <> "K") /\
    (aliased tbl "O" "K" <->
     false = false /\
     (("O" = "U" /\ "K" = "C") \/ ("O" = "C" /\ "K" = "U") \/
      ("O" = "O" /\ "K" = "K") \/ ("O" = "K" /\ "K" = "O"))).
Proof.
  destruct (_res_to_feature_helper small_table false false) as [tbl|e] eqn:H;
    [|vm_compute in H; discriminate].
  exists tbl. split; [split; [reflexivity | discriminate]|].
  exact (sharing_is_synonyms_only small_table false false tbl "O" "K" H
           ltac:(discriminate)).
Defined.

(** ** The secondary-structure codes *)

Lemma firstn_succ_nth (l : list string) (m : nat) :
  m < length l -> firstn (S m) l = firstn m l ++ [nth m l ""].
Proof.
  revert m; induction l as [|x l IH]; intros m Hm; simpl in Hm; [lia|].
  destruct m as [|m]; [reflexivity|].
  simpl. f_equal. apply IH. lia.
Qed.

Lemma add_key_fresh (ks : list string) (k : string) :
  ~ In k ks -> add_key ks k = ks ++ [k].
Proof.
  intros H. unfold add_key.
  destruct (existsb (String.eqb k) ks) eqn:E; [|reflexivity].
  apply existsb_exists in E as (x & Hx & Hkx). apply String.eqb_eq in Hkx.
  subst x. contradiction.
Qed.

Lemma index_codes_prefix (codes : list string) (m : nat) :
  NoDup codes -> m <= length codes ->
  let d := fold_left (fun d i => Dict.set (nth i codes "") i d) (seq 0 m) [] in
  Dict.keys d = firstn m codes /\
  forall i, i < m -> Dict.get (nth i codes "") d = Some i.
Proof.
  intros Hnd. induction m as [|m IH]; intros Hm; cbv zeta.
  - split; [reflexivity | intros i Hi; lia].
  - rewrite seq_S, fold_left_app. cbn [fold_left Nat.add].
    destruct (IH ltac:(lia)) as [Hkeys Hget].
    set (d := fold_left (fun d i => Dict.set (nth i codes "") i d) (seq 0 m) []) in *.
    split.
    + rewrite keys_set_add_key, Hkeys, firstn_succ_nth by lia.
      apply add_key_fresh. intros Hin.
      apply (In_nth _ _ "") in Hin as (j & Hj & Hnth).
      rewrite length_firstn in Hj.
      rewrite nth_firstn in Hnth.
      destruct (j <? m) eqn:E; [|apply Nat.ltb_ge in E; lia].
      apply (proj1 (NoDup_nth codes "") Hnd) in Hnth; lia.
    + intros i Hi. rewrite DictFacts.get_set.
      destruct (String.eqb (nth i codes "") (nth m codes "")) eqn:E.
      * apply String.eqb_eq in E.
        apply (proj1 (NoDup_nth codes "") Hnd) in E; [congruence | lia | lia].
      * apply Hget. destruct (Nat.eq_dec i m) as [-> | Hne]; [|lia].
        rewrite String.eqb_refl in E. discriminate.
Qed.

(** X12: the index dictionary is the inverse of the code list.  Built by
    the module's loop from a list without repetition, it maps the code at
    position [i] to [i], every value it returns is the position of the
    queried code, and its keys are the codes in their order.  For
    [SSTRUCT_CODES] these are the eight Q8 codes and the integers 0 to 7. *)
Theorem index_codes_inverse (codes : list string) :
  NoDup codes ->
  (forall i, i < length codes ->
     Dict.get (nth i codes "") (index_codes codes) = Some i) /\
  (forall c i, Dict.get c (index_codes codes) = Some i ->
     i < length codes /\ nth i codes "" = c) /\
  Dict.keys (index_codes codes) = codes.
Proof.
  intros Hnd.
  destruct (index_codes_prefix codes (length codes) Hnd (le_n _)) as [Hkeys Hget].
  fold (index_codes codes) in Hkeys, Hget.
  rewrite firstn_all in Hkeys.
  split; [exact Hget|]. split; [|exact Hkeys].
  intros c i Hc.
  assert (Hin : In c codes)
    by (rewrite <- Hkeys; eapply DictFacts.get_some_in_keys; eassumption).
  apply (In_nth _ _ "") in Hin as (j & Hj & Hnth).
  pose proof (Hget j Hj) as Hgj. rewrite Hnth, Hc in Hgj.
  injection Hgj as ->. auto.
Qed.

Lemma index_codes_inverse_witness :
  NoDup SSTRUCT_CODES /\
  (forall i, i < 8 -> Dict.get (nth i SSTRUCT_CODES "") SSTRUCT_TO_INT = Some i) /\
  (forall c i, Dict.get c SSTRUCT_TO_INT = Some i ->
     i < 8 /\ nth i SSTRUCT_CODES "" = c) /\
  Dict.keys SSTRUCT_TO_INT = SSTRUCT_CODES.
Proof.
  assert (Hnd : NoDup SSTRUCT_CODES).
  { unfold SSTRUCT_CODES.
    repeat (constructor; [simpl; intuition discriminate|]). constructor. }
  split; [exact Hnd|].
  exact (index_codes_inverse SSTRUCT_CODES Hnd).
Defined.

(** ** The reader of the property file *)

Lemma read_loop_step (fuel : nat) (line : string) (handle : list string)
    (res_ids : list string) (raw_data : list (list F.float))
    (labels : list string) :
  Text.split line = "I" :: labels ->
  Pca.read_loop (S fuel) line handle res_ids raw_data
  = match Pca.fill_ids res_ids labels with
    | Raise e => Some (Raise e)
    | Ok res_ids' =>
        match Pca.add_row raw_data
                (Text.split (fst (Pca.readline handle))
                 ++ Text.split (fst (Pca.readline (snd (Pca.readline handle)))))
        with
        | Raise e => Some (Raise e)
        | Ok raw_data' =>
            Pca.read_loop fuel
              (fst (Pca.readline (snd (Pca.readline (snd (Pca.readline
                      (snd (Pca.readline handle))))))))
              (snd (Pca.readline (snd (Pca.readline (snd (Pca.readline
                      (snd (Pca.readline handle))))))))
              res_ids' raw_data'
        end
    end.
Proof.
  intros Hs. destruct line as [|c line]; [discriminate|].
  cbn [Pca.read_loop]. rewrite Hs. cbn [String.eqb Ascii.eqb Bool.eqb andb].
  destruct (Pca.fill_ids res_ids labels) as [ids|e]; [|reflexivity].
  destruct handle as [|l1 [|l2 [|l3 [|l4 h]]]]; cbn [Pca.readline fst snd];
    destruct (Pca.add_row raw_data _); reflexivity.
Qed.

(** X14: a line that does not start with the token [I] stops the reader
    for good.  The loop reads the next line only inside the branch for an
    [I] line, so on any other line that is not blank it goes round without
    moving: no amount of fuel finishes the run. *)
Theorem reader_stalls_on_other_line
    (fuel : nat) (line tok : string) (rest handle res_ids : list string)
    (raw_data : list (list F.float)) :
  Text.split line = tok :: rest -> tok <> "I" ->
  Pca.read_loop fuel line handle res_ids raw_data = None.
Proof.
  intros Hs Htok. induction fuel as [|fuel IH]; [reflexivity|].
  destruct line as [|c line]; [discriminate|].
  cbn [Pca.read_loop]. rewrite Hs.
  destruct (String.eqb tok "I") eqn:E; [apply String.eqb_eq in E; contradiction|].
  exact IH.
Qed.

Lemma reader_stalls_on_other_line_witness :
  (Text.split "H ANDN920101
" = ["H"; "ANDN920101"] /\ "H" <> "I") /\
  Pca.read_file 1000 ["H ANDN920101
"; "I A/L R/K
"; "1 2
"; "3 4
"; "//
"] = None.
Proof.
  split; [split; [reflexivity | discriminate]|].
  exact (reader_stalls_on_other_line 1000 "H ANDN920101
" "H" ["ANDN920101"] _ [] [] eq_refl ltac:(discriminate)).
Defined.

Lemma split_on_nonempty (sep : ascii) (s : string) : Pca.split_on sep s <> [].
Proof.
  destruct s as [|c s]; simpl; [discriminate|].
  destruct (Ascii.eqb c sep); [discriminate|].
  destruct (Pca.split_on sep s); discriminate.
Qed.

Lemma pieces_first (aasplits : list string) :
  Pca.pieces 0 aasplits
  = Ok (map (fun a => hd EmptyString (Pca.split_on "/" a)) aasplits).
Proof.
  induction aasplits as [|a rest IH]; [reflexivity|].
  simpl. destruct (Pca.split_on "/" a) as [|p ps] eqn:E;
    [exfalso; exact (split_on_nonempty _ _ E)|].
  simpl. rewrite IH. reflexivity.
Qed.

Lemma read_entries (rs : list Pca.entry) :
  forall fuel ids data rows,
    ids <> [] ->
    Forall Pca.is_labels_line rs ->
    Pca.rows_of_entries rs = Ok rows ->
    length rs < fuel ->
    Pca.read_loop fuel (fst (Pca.readline (Pca.file_of rs)))
                  (snd (Pca.readline (Pca.file_of rs))) ids data
    = Some (Ok (ids, data ++ rows)).
Proof.
  induction rs as [|r rs IH]; intros fuel ids data rows Hids Hall Hrows Hfuel.
  - simpl in Hrows. injection Hrows as <-. rewrite app_nil_r.
    destruct fuel as [|fuel]; [simpl in Hfuel; lia | reflexivity].
  - destruct fuel as [|fuel]; [simpl in Hfuel; lia|].
    inversion Hall as [|? ? (labels & Hlab) Hall']; subst.
    change (Pca.file_of (r :: rs))
      with (Pca.labels_line r :: Pca.values1 r :: Pca.values2 r :: Pca.closing r
              :: Pca.file_of rs).
    cbn [Pca.readline fst snd].
    rewrite (read_loop_step _ _ _ _ _ labels Hlab).
    cbn [Pca.readline fst snd].
    assert (Hfill : Pca.fill_ids ids labels = Ok ids)
      by (destruct ids; [congruence | reflexivity]).
    rewrite Hfill.
    fold (Pca.entry_tokens r). unfold Pca.add_row. fold (Pca.has_NA r).
    simpl in Hrows, Hfuel.
    destruct (Pca.has_NA r).
    + apply IH; [assumption | assumption | assumption | lia].
    + apply bind_ok in Hrows as (row & Hrow & Hrows).
      apply bind_ok in Hrows as (rest & Hrest & [= <-]).
      rewrite Hrow. cbn [bind].
      rewrite (IH fuel ids (data ++ [row]) rest Hids Hall' Hrest ltac:(lia)).
      rewrite <- app_assoc. reflexivity.
Qed.

(** X15: on a file made of complete entries (a labels line that starts
    with [I], two lines of values, a closing line) the reader finishes
    and returns: as [res_ids] the first halves of the labels of the first
    entry followed by their second halves, and as [raw_data] one row of
    floats for every entry none of whose values is [NA], in the order of
    the file; entries with an [NA] are left out altogether. *)
Theorem reader_reads_entries
    (r : Pca.entry) (rs : list Pca.entry) (labels rights : list string)
    (rows : list (list F.float)) (fuel : nat) :
  Text.split (Pca.labels_line r) = "I" :: labels ->
  labels <> [] ->
  Pca.pieces 1 labels = Ok rights ->
  Forall Pca.is_labels_line rs ->
  Pca.rows_of_entries (r :: rs) = Ok rows ->
  length (r :: rs) < fuel ->
  Pca.read_file fuel (Pca.file_of (r :: rs))
  = Some (Ok (map (fun a => hd EmptyString (Pca.split_on "/" a)) labels ++ rights,
              rows)).
Proof.
  intros Hlab Hne Hright Hall Hrows Hfuel.
  destruct fuel as [|fuel]; [simpl in Hfuel; lia|].
  unfold Pca.read_file.
  change (Pca.file_of (r :: rs))
    with (Pca.labels_line r :: Pca.values1 r :: Pca.values2 r :: Pca.closing r
            :: Pca.file_of rs).
  cbn [Pca.readline].
  rewrite (read_loop_step _ _ _ _ _ labels Hlab).
  cbn [Pca.readline fst snd].
  unfold Pca.fill_ids. rewrite pieces_first, Hright. cbn [bind].
  set (ids := map (fun a => hd EmptyString (Pca.split_on "/" a)) labels ++ rights).
  assert (Hids : ids <> []).
  { unfold ids. destruct labels; [congruence | discriminate]. }
  fold (Pca.entry_tokens r). unfold Pca.add_row. fold (Pca.has_NA r).
  simpl in Hrows, Hfuel.
  destruct (Pca.has_NA r).
  - rewrite (read_entries rs fuel ids [] rows Hids Hall Hrows ltac:(lia)).
    reflexivity.
  - apply bind_ok in Hrows as (row & Hrow & Hrows).
    apply bind_ok in Hrows as (rest & Hrest & [= <-]).
    rewrite Hrow. cbn [bind].
    rewrite (read_entries rs fuel ids ([] ++ [row]) rest Hids Hall Hrest ltac:(lia)).
    reflexivity.
Qed.

Lemma reader_reads_entries_witness :
  exists rows,
    (Pca.rows_of_entries sample_entries = Ok rows /\ length rows = 2) /\
    Pca.read_file 4 (Pca.file_of sample_entries)
    = Some (Ok (["A"; "R"; "L"; "K"], rows)).
Proof.
  eexists.
  assert (Hrows : Pca.rows_of_entries sample_entries = Ok _)
    by (vm_compute; reflexivity).
  split; [split; [exact Hrows | reflexivity]|].
  change ["A"; "R"; "L"; "K"]
    with (map (fun a => hd EmptyString (Pca.split_on "/" a)) ["A/L"; "R/K"]
          ++ ["L"; "K"]).
  unfold sample_entries in *.
  apply reader_reads_entries; try reflexivity.
  - discriminate.
  - repeat constructor; exists ["A/L"; "R/K"]; reflexivity.
  - simpl; lia.
Defined.

(** X16: a file that ends inside an entry is read without complaint.
    After a labels line followed by at most three more lines, the missing
    lines count as empty: the reader appends the row of whatever values it
    found, the empty row if the labels line was the last line of the
    file. *)
Theorem reader_accepts_truncated_entry
    (fuel : nat) (line : string) (tail labels rights : list string)
    (row : list F.float) :
  Text.split line = "I" :: labels ->
  Pca.pieces 1 labels = Ok rights ->
  length tail <= 3 ->
  existsb (String.eqb "NA")
          (Text.split (nth 0 tail EmptyString) ++ Text.split (nth 1 tail EmptyString))
  = false ->
  Pca.floats64 (Text.split (nth 0 tail EmptyString)
                ++ Text.split (nth 1 tail EmptyString)) = Ok row ->
  Pca.read_file (S (S fuel)) (line :: tail)
  = Some (Ok (map (fun a => hd EmptyString (Pca.split_on "/" a)) labels ++ rights,
              [row])).
Proof.
  intros Hlab Hright Hlen Hna Hrow.
  unfold Pca.read_file. cbn [Pca.readline].
  rewrite (read_loop_step _ _ _ _ _ labels Hlab).
  unfold Pca.fill_ids. rewrite pieces_first, Hright. cbn [bind].
  destruct tail as [|l1 [|l2 [|l3 [|l4 tail]]]]; simpl in Hlen; try lia;
    cbn [Pca.readline fst snd nth] in *;
    unfold Pca.add_row; rewrite Hna, Hrow; reflexivity.
Qed.

Lemma reader_accepts_truncated_entry_witness :
  Pca.read_file 2 ["I A/L R/K
"] = Some (Ok (["A"; "R"; "L"; "K"], [[]])).
Proof.
  exact (reader_accepts_truncated_entry 0 "I A/L R/K
" [] ["A/L"; "R/K"] ["L"; "K"] [] eq_refl eq_refl (le_0_n 3) eq_refl eq_refl).
Defined.

(** ** The two presets *)

Lemma table_check_sound (m : nat) (ok : F.float -> bool) (tbl : env)
    (k : string) (v : Np.ndarray) :
  table_check m ok tbl = true -> lookup tbl k = Some v ->
  length v = m /\ Forall (fun x => ok x = true) v.
Proof.
  unfold table_check, lookup. intros Hall Hv.
  destruct (Dict.get k (aa_to_aadist tbl)) as [a|] eqn:Ha; [|discriminate].
  injection Hv as <-. apply DictFacts.get_in in Ha.
  rewrite forallb_forall in Hall. specialize (Hall _ Ha). simpl in Hall.
  apply andb_prop in Hall as [Hlen Hok]. apply Nat.eqb_eq in Hlen.
  split; [assumption|]. apply Forall_forall. apply forallb_forall. assumption.
Qed.

Lemma presets_checked :
  match JTTP01dist with
  | Ok tbl => table_check 20 is_nonnegative tbl
              && (feature_count tbl =? 20)
              && same_keys (Dict.keys (aa_to_aadist tbl)) all_codes
  | Raise _ => false
  end = true /\
  match AANDXred with
  | Ok tbl => table_check 11 F.is_finite tbl
              && (feature_count tbl =? 11)
              && same_keys (Dict.keys (aa_to_aadist tbl)) all_codes
  | Raise _ => false
  end = true.
Proof. split; vm_compute; reflexivity. Qed.

Lemma same_keys_eq (l1 l2 : list string) : same_keys l1 l2 = true -> l1 = l2.
Proof.
  revert l2; induction l1 as [|k1 l1 IH]; intros [|k2 l2]; simpl;
    try discriminate; [reflexivity|].
  intros H. apply andb_prop in H as [Hk Hl]. apply String.eqb_eq in Hk.
  f_equal; auto.
Qed.

(** X13: the two presets build.  [JTTP01dist] returns a table over the 27
    codes, in the order of the raw rows followed by U, O, X, B, J, Z and
    the missing-data marker, each entry a vector of 20 finite numbers none
    of which is negative; [AANDXred] returns a table over the same keys in
    the same order, each entry a vector of 11 finite numbers. *)
Theorem presets_build :
  (exists tbl,
     JTTP01dist = Ok tbl /\
     Dict.keys (aa_to_aadist tbl) = all_codes /\ feature_count tbl = 20 /\
     forall k v, lookup tbl k = Some v ->
       length v = 20 /\ Forall (fun x => is_nonnegative x = true) v) /\
  (exists tbl,
     AANDXred = Ok tbl /\
     Dict.keys (aa_to_aadist tbl) = all_codes /\ feature_count tbl = 11 /\
     forall k v, lookup tbl k = Some v ->
       length v = 11 /\ Forall (fun x => F.is_finite x = true) v).
Proof.
  destruct presets_checked as [HJ HA]. split.
  - clear HA. destruct JTTP01dist as [tbl|e]; [|discriminate HJ].
    apply andb_prop in HJ as [HJ Hkeys]. apply andb_prop in HJ as [Hchk Hfc].
    exists tbl. split; [reflexivity|].
    split; [apply same_keys_eq; assumption|].
    split; [apply Nat.eqb_eq; assumption|].
    intros k v. apply table_check_sound; assumption.
  - clear HJ. destruct AANDXred as [tbl|e]; [|discriminate HA].
    apply andb_prop in HA as [HA Hkeys]. apply andb_prop in HA as [Hchk Hfc].
    exists tbl. split; [reflexivity|].
    split; [apply same_keys_eq; assumption|].
    split; [apply Nat.eqb_eq; assumption|].
    intros k v. apply table_check_sound; assumption.
Qed.
